(** * Supermodel: a keypath-addressed observable state container

    A shallow embedding of [Supermodel] (constructor, [set], [get],
    [observe], [unobserve], [compute], [removeComputedValue],
    [_notifyObservers], [_addToQueue]) and of its helper functions
    ([dispatchQueue], [splitKeypath], [parseArrayNotation], [standardise],
    [isEqual], [indexOf]), followed by the properties established about them.

    Modelling conventions.
    - JavaScript values are JSON-like trees: [undefined], [null], booleans,
      numbers, strings, hashes and arrays.  Numbers are exact integers, so
      there is no NaN and no rounding of array indices beyond 2^53.
    - A container holds its own data properties, in insertion order.
      Property lookup sees those only: inherited members, the [length] of an
      array and the characters of a string are left out, so a primitive has
      no property at all.
    - The tree is a value: two positions never share a node.
    - Where a property is stated for an arbitrary keypath, tree or value it
      carries the provisos under which the code does what these definitions
      do: the keypath is [ordinary] (no segment names a member of a built-in
      prototype, no index reaches 2^53), its walk is [legible] (it takes no
      character of a string), the values concerned are [unshared] (no
      container occurs twice, so no two positions can hold the same object),
      and what the code would remember by reference is a primitive.
    - The code runs in strict mode (['use strict'] opens the module), so an
      assignment to a property of a primitive raises a TypeError.
    - A callback handed to [observe] by a client is inert: invoking it
      appends a record of the call (arguments and the data tree it could
      read at that moment) to a log and touches nothing else.  The other
      kind of callback, the setter closure of a computed value, re-enters
      [set], which is why the operations take a recursion budget. *)

From Stdlib Require Import Ascii String DecimalString.
From stdpp Require Import base strings gmap list.

#[local] Set Warnings "-register-all".
#[local] Open Scope string_scope.
#[local] Open Scope list_scope.

(* ===================================================================== *)
(** ** Keypath parser *)
(* ===================================================================== *)

Module Keypath.

(** A segment of a split keypath: [parseArrayNotation] leaves names as
    strings and turns array pointers into numbers ([+match[1]]). *)
Inductive key :=
| KStr (s : string)
| KNum (n : N).

(** [String(k)]: what [join] and property access make of a segment. *)
Definition key_to_string (k : key) : string :=
  match k with
  | KStr s => s
  | KNum n => NilEmpty.string_of_uint (N.to_uint n)
  end.

Definition is_digit (c : ascii) : bool :=
  let n := N_of_ascii c in (48 <=? n)%N && (n <=? 57)%N.

(** [/^[0-9]+$/.test(s)] *)
Fixpoint all_digits (s : string) : bool :=
  match s with
  | EmptyString => true
  | String c t => is_digit c && all_digits t
  end.

Definition integerPattern_test (s : string) : bool :=
  match s with
  | EmptyString => false
  | _ => all_digits s
  end.

(** [keypath.split('.')] *)
Fixpoint split_on (sep : ascii) (s : string) : list string :=
  match s with
  | EmptyString => [EmptyString]
  | String c t =>
      if Ascii.eqb c sep then EmptyString :: split_on sep t
      else match split_on sep t with
           | [] => [String c EmptyString]
           | h :: r => String c h :: r
           end
  end.

(** [key.indexOf('[')], returned as the two halves [key.substr(0, index)]
    and [key.substring(index)]; [None] stands for [-1]. *)
Fixpoint break_at (sep : ascii) (s : string) : option (string * string) :=
  match s with
  | EmptyString => None
  | String c t =>
      if Ascii.eqb c sep then Some (EmptyString, s)
      else match break_at sep t with
           | Some (pre, post) => Some (String c pre, post)
           | None => None
           end
  end.

(** The longest run of digits at the head of [s], and what follows it. *)
Fixpoint span_digits (s : string) : string * string :=
  match s with
  | EmptyString => (EmptyString, EmptyString)
  | String c t =>
      if is_digit c then let (d, r) := span_digits t in (String c d, r)
      else (EmptyString, s)
  end.

(** Does [/\[([0-9]+)\]/] match at the very start of [s]?  The digits are
    taken greedily and a closing bracket must follow them. *)
Definition match_here (s : string) : option string :=
  match s with
  | String c t =>
      if Ascii.eqb c "["%char then
        match span_digits t with
        | (String d ds, String c' _) =>
            if Ascii.eqb c' "]"%char then Some (String d ds) else None
        | _ => None
        end
      else None
  | EmptyString => None
  end.

(** [arrayNotationPattern.exec(s)]: the leftmost match; the result is the
    captured group [match[1]], and [match[0]] is two characters longer. *)
Fixpoint arrayNotationPattern_exec (s : string) : option string :=
  match match_here s with
  | Some d => Some d
  | None =>
      match s with
      | EmptyString => None
      | String _ t => arrayNotationPattern_exec t
      end
  end.

(** [+match[1]] for a string of digits. *)
Fixpoint digits_value (acc : N) (s : string) : N :=
  match s with
  | EmptyString => acc
  | String c t => digits_value (acc * 10 + (N_of_ascii c - 48))%N t
  end.

(** [s.substring(n)] *)
Fixpoint string_drop (n : nat) (s : string) : string :=
  match n, s with
  | O, _ => s
  | S n', String _ t => string_drop n' t
  | S _, EmptyString => EmptyString
  end.

(** The [while ( arrayPointers.length )] loop of [parseArrayNotation].  Each
    round that goes on removes [match[0].length >= 3] characters, so the
    length of the string bounds the number of rounds. *)
Fixpoint pointer_loop (rounds : nat) (arrayPointers : string)
    (result : list key) : list key :=
  match rounds with
  | O => result
  | S rounds' =>
      match arrayPointers with
      | EmptyString => result
      | _ =>
          match arrayNotationPattern_exec arrayPointers with
          | None => result
          | Some d =>
              pointer_loop rounds'
                (string_drop (String.length d + 2) arrayPointers)
                (result ++ [KNum (digits_value 0 d)])
          end
      end
  end.

(** [parseArrayNotation]: a key without bracket is returned as it is (and
    [concat] appends it as one element). *)
Definition parseArrayNotation (k : string) : list key :=
  match break_at "["%char k with
  | None => [KStr k]
  | Some (name, arrayPointers) =>
      pointer_loop (String.length arrayPointers) arrayPointers [KStr name]
  end.

Definition splitKeypath (keypath : string) : list key :=
  concat (map parseArrayNotation (split_on "."%char keypath)).

(** [keys.join('.')] *)
Definition join_keys (keys : list key) : string :=
  String.concat "." (map key_to_string keys).

Definition standardise (keypath : string) : string :=
  join_keys (splitKeypath keypath).

(** [keypath.lastIndexOf('.')] with [keypath.substr(0, thatIndex)]: the
    keypath one level up, or [None] when there is no period. *)
Fixpoint upstream (keypath : string) : option string :=
  match keypath with
  | EmptyString => None
  | String c t =>
      match upstream t with
      | Some t' => Some (String c t')
      | None => if Ascii.eqb c "."%char then Some EmptyString else None
      end
  end.

End Keypath.

Import Keypath.

(* ===================================================================== *)
(** ** Values and the state tree *)
(* ===================================================================== *)

Inductive kind := Hash | Array.

Inductive value :=
| VUndef
| VNull
| VBool (b : bool)
| VNum (z : Z)
| VStr (s : string)
| VObj (k : kind) (props : list (string * value)).

(** [!v] *)
Definition falsy (v : value) : bool :=
  match v with
  | VUndef | VNull | VBool false | VNum Z0 | VStr EmptyString => true
  | _ => false
  end.

(** [typeof v === 'object'] *)
Definition typeof_object (v : value) : bool :=
  match v with
  | VNull | VObj _ _ => true
  | _ => false
  end.

(** [a === b]; [isEqual] only gets here with two primitives, and for two
    containers the answer would be identity of reference, which a tree does
    not carry. *)
Definition strict_equal (a b : value) : bool :=
  match a, b with
  | VUndef, VUndef => true
  | VNull, VNull => true
  | VBool x, VBool y => Bool.eqb x y
  | VNum x, VNum y => Z.eqb x y
  | VStr x, VStr y => String.eqb x y
  | _, _ => false
  end.

Definition isEqual (a b : value) : bool :=
  match a, b with
  | VNull, VNull => true
  | _, _ =>
      if typeof_object a || typeof_object b then false
      else strict_equal a b
  end.

Fixpoint prop_lookup (name : string) (props : list (string * value))
    : option value :=
  match props with
  | [] => None
  | (n, v) :: rest => if String.eqb n name then Some v else prop_lookup name rest
  end.

Fixpoint prop_update (name : string) (v : value)
    (props : list (string * value)) : list (string * value) :=
  match props with
  | [] => [(name, v)]
  | (n, w) :: rest =>
      if String.eqb n name then (n, v) :: rest
      else (n, w) :: prop_update name v rest
  end.

(** [obj[name]] read; [None] is the TypeError of reading through [null] or
    [undefined]. *)
Definition getProp (obj : value) (name : string) : option value :=
  match obj with
  | VUndef | VNull => None
  | VObj _ props => Some (default VUndef (prop_lookup name props))
  | _ => Some VUndef
  end.

(** [obj[name] = v]; [None] is the TypeError of writing to a primitive. *)
Definition setProp (obj : value) (name : string) (v : value) : option value :=
  match obj with
  | VObj k props => Some (VObj k (prop_update name v props))
  | _ => None
  end.

(** The [while ( keys.length )] loop of [get], with its [try]/[catch]. *)
Fixpoint walk (result : value) (keys : list key) : value :=
  match keys with
  | [] => result
  | k :: rest =>
      match getProp result (key_to_string k) with
      | None => VUndef
      | Some VUndef => VUndef
      | Some r => walk r rest
      end
  end.

(** [keys[0] === parseInt( keys[0], 10 ) || integerPattern.test( keys[0] )] *)
Definition numeric_key (k : key) : bool :=
  match k with
  | KNum _ => true
  | KStr s => integerPattern_test s
  end.

(** The branch [set] creates where one is missing: an array if a numeric
    key follows, a hash otherwise. *)
Definition new_branch (next : key) : value :=
  if numeric_key next then VObj Array [] else VObj Hash [].

(** The tree walk of [set], from [obj = this._data] to [obj[ key ] = value].
    The code mutates the nodes in place on the way down; here the changed
    spine is rebuilt on the way back.  [None] is a TypeError; it can only
    come from a primitive met on the way, before any branch was created, so
    no partial write is lost. *)
Fixpoint assign (obj : value) (keys : list key) (v : value) : option value :=
  match keys with
  | [] => setProp obj "undefined" v
  | [k] => setProp obj (key_to_string k) v
  | k :: (next :: _) as rest =>
      match getProp obj (key_to_string k) with
      | None => None
      | Some child =>
          if falsy child then
            let branch := new_branch next in
            match setProp obj (key_to_string k) branch with
            | None => None
            | Some _ =>
                match assign branch rest v with
                | None => None
                | Some branch' => setProp obj (key_to_string k) branch'
                end
            end
          else
            match assign child rest v with
            | None => None
            | Some child' => setProp obj (key_to_string k) child'
            end
      end
  end.

(* ===================================================================== *)
(** ** The model instance *)
(* ===================================================================== *)

(** The two kinds of function that end up as an observer's callback: one
    supplied by a client, known by a number, and the [setter] closure that
    [compute] creates for the computed value [id]. *)
Inductive closure :=
| Client (n : nat)
| Setter (id : string).

#[global] Instance closure_eq_dec : EqDecision closure.
Proof. solve_decision. Defined.

Record observer := {
  observedKeypath : string;
  originalKeypath : string;
  callback : closure;
  group : nat
}.

#[global] Instance observer_eq_dec : EqDecision observer.
Proof. solve_decision. Defined.

(** An observer group is an array of observers with a [__previousValue]
    property, shared by reference between its observers: the groups live in
    a heap and an observer holds the address of its group. *)
Record observerGroup := {
  members : list observer;
  __previousValue : value
}.

(** An entry of [_computed].  [getter] and [setter] are closures over [id],
    [options.fn], [triggers], [cache] and [value]: these captured variables
    are kept in the record ([fn], [triggers], [cache_option], [last_value])
    next to the properties the code stores ([cache], [readonly], [override],
    [observerGroups]).  A group is [None] where [observe] returned
    [undefined]. *)
Record computedValue := {
  fn : list value -> value;
  triggers : list string;
  cache_option : bool;
  last_value : value;
  cache : bool;
  readonly : bool;
  override : bool;
  observerGroups : list (option nat)
}.

Record queueItem := { c : closure; v : value; p : value }.

(** One call of a client callback. *)
Record event := {
  ev_callback : nat;
  ev_value : value;
  ev_previous : value;
  ev_data : value
}.

Record model := {
  _data : value;
  _observers : gmap string (list observer);
  _computed : gmap string computedValue;
  _queue : list queueItem;
  queueing : bool;
  computing : bool;
  _referToCache : bool;
  groups : list observerGroup;
  log : list event
}.

(** [new Supermodel( data )] *)
Definition Supermodel (data : value) : model :=
  {| _data := if falsy data then VObj Hash [] else data;
     _observers := ∅;
     _computed := ∅;
     _queue := [];
     queueing := false;
     computing := false;
     _referToCache := false;
     groups := [];
     log := [] |}.

(** Field updates. *)
Definition set_data (d : value) (m : model) : model :=
  {| _data := d; _observers := _observers m; _computed := _computed m;
     _queue := _queue m; queueing := queueing m; computing := computing m;
     _referToCache := _referToCache m; groups := groups m; log := log m |}.

Definition set_observers (o : gmap string (list observer)) (m : model) : model :=
  {| _data := _data m; _observers := o; _computed := _computed m;
     _queue := _queue m; queueing := queueing m; computing := computing m;
     _referToCache := _referToCache m; groups := groups m; log := log m |}.

Definition set_computed (cs : gmap string computedValue) (m : model) : model :=
  {| _data := _data m; _observers := _observers m; _computed := cs;
     _queue := _queue m; queueing := queueing m; computing := computing m;
     _referToCache := _referToCache m; groups := groups m; log := log m |}.

Definition set_queue (q : list queueItem) (m : model) : model :=
  {| _data := _data m; _observers := _observers m; _computed := _computed m;
     _queue := q; queueing := queueing m; computing := computing m;
     _referToCache := _referToCache m; groups := groups m; log := log m |}.

Definition set_queueing (b : bool) (m : model) : model :=
  {| _data := _data m; _observers := _observers m; _computed := _computed m;
     _queue := _queue m; queueing := b; computing := computing m;
     _referToCache := _referToCache m; groups := groups m; log := log m |}.

Definition set_computing (b : bool) (m : model) : model :=
  {| _data := _data m; _observers := _observers m; _computed := _computed m;
     _queue := _queue m; queueing := queueing m; computing := b;
     _referToCache := _referToCache m; groups := groups m; log := log m |}.

Definition set_referToCache (b : bool) (m : model) : model :=
  {| _data := _data m; _observers := _observers m; _computed := _computed m;
     _queue := _queue m; queueing := queueing m; computing := computing m;
     _referToCache := b; groups := groups m; log := log m |}.

Definition set_groups (gs : list observerGroup) (m : model) : model :=
  {| _data := _data m; _observers := _observers m; _computed := _computed m;
     _queue := _queue m; queueing := queueing m; computing := computing m;
     _referToCache := _referToCache m; groups := gs; log := log m |}.

Definition set_log (l : list event) (m : model) : model :=
  {| _data := _data m; _observers := _observers m; _computed := _computed m;
     _queue := _queue m; queueing := queueing m; computing := computing m;
     _referToCache := _referToCache m; groups := groups m; log := l |}.

Definition with_cache (b : bool) (cv : computedValue) : computedValue :=
  {| fn := fn cv; triggers := triggers cv; cache_option := cache_option cv;
     last_value := last_value cv; cache := b; readonly := readonly cv;
     override := override cv; observerGroups := observerGroups cv |}.

Definition with_override (b : bool) (cv : computedValue) : computedValue :=
  {| fn := fn cv; triggers := triggers cv; cache_option := cache_option cv;
     last_value := last_value cv; cache := cache cv; readonly := readonly cv;
     override := b; observerGroups := observerGroups cv |}.

Definition with_last_value (x : value) (cv : computedValue) : computedValue :=
  {| fn := fn cv; triggers := triggers cv; cache_option := cache_option cv;
     last_value := x; cache := cache cv; readonly := readonly cv;
     override := override cv; observerGroups := observerGroups cv |}.

Definition with_observerGroups (gs : list (option nat)) (cv : computedValue)
    : computedValue :=
  {| fn := fn cv; triggers := triggers cv; cache_option := cache_option cv;
     last_value := last_value cv; cache := cache cv; readonly := readonly cv;
     override := override cv; observerGroups := gs |}.

Definition with_members (l : list observer) (g : observerGroup) : observerGroup :=
  {| members := l; __previousValue := __previousValue g |}.

Definition with_previousValue (x : value) (g : observerGroup) : observerGroup :=
  {| members := members g; __previousValue := x |}.

(** [this._computed[ id ].field = ...] *)
Definition update_computed (id : string) (f : computedValue -> computedValue)
    (m : model) : model :=
  set_computed (alter f id (_computed m)) m.

Definition update_group (g : nat) (f : observerGroup -> observerGroup)
    (m : model) : model :=
  set_groups (alter f g (groups m)) m.

Definition group_previousValue (g : nat) (m : model) : value :=
  match groups m !! g with
  | Some grp => __previousValue grp
  | None => VUndef
  end.

(* ===================================================================== *)
(** ** Calls: state, exceptions, budget *)
(* ===================================================================== *)

Inductive error :=
| ReadonlyViolation (id : string)
| SelfTrigger
| Uncachable
| TypeError.

(** How a call ends: it returns, it throws (the instance keeps whatever was
    written before the throw), or the recursion budget ran out. *)
Inductive outcome (A : Type) :=
| Ok (a : A) (m : model)
| Throw (e : error) (m : model)
| OutOfFuel.

Arguments Ok {A} a m.
Arguments Throw {A} e m.
Arguments OutOfFuel {A}.

Definition M (A : Type) : Type := model -> outcome A.

Definition ret {A} (a : A) : M A := fun m => Ok a m.

Definition bind {A B} (x : M A) (f : A -> M B) : M B :=
  fun m =>
    match x m with
    | Ok a m' => f a m'
    | Throw e m' => Throw e m'
    | OutOfFuel => OutOfFuel
    end.

Definition throw {A} (e : error) : M A := fun m => Throw e m.
Definition gets {A} (f : model -> A) : M A := fun m => Ok (f m) m.
Definition modify (f : model -> model) : M unit := fun m => Ok tt (f m).

Notation "'let!' x ':=' e 'in' k" := (bind e (fun x => k))
  (at level 10, x name, e at level 100, k at level 200).
Notation "e1 ';;' e2" := (bind e1 (fun _ => e2))
  (at level 100, e2 at level 200, right associativity).

Fixpoint for_each {A} (f : A -> M unit) (l : list A) : M unit :=
  match l with
  | [] => ret tt
  | x :: rest => f x ;; for_each f rest
  end.

(** What a function hands back: [set] returns [this]. *)
Inductive returned :=
| RThis
| RValue (x : value).

(* ===================================================================== *)
(** ** Operations *)
(* ===================================================================== *)

(** [_addToQueue]: the first queued item with this callback is removed. *)
Fixpoint remove_queued (cb : closure) (q : list queueItem) : list queueItem :=
  match q with
  | [] => []
  | item :: rest =>
      if bool_decide (c item = cb) then rest
      else item :: remove_queued cb rest
  end.

Definition _addToQueue (cb : closure) (value previous : value) : M unit :=
  modify (fun m =>
    set_queue (remove_queued cb (_queue m)
                 ++ [{| c := cb; v := value; p := previous |}]) m).

(** [observers.splice( observers.indexOf( o ), 1 )] *)
Fixpoint remove_first (o : observer) (l : list observer) : list observer :=
  match l with
  | [] => []
  | x :: rest => if bool_decide (x = o) then rest else x :: remove_first o rest
  end.

(** [unobserve] of a single observer. *)
Definition unobserve_one (o : observer) : M unit :=
  modify (fun m =>
    let keypath := standardise (observedKeypath o) in
    match _observers m !! keypath with
    | None => m
    | Some observers =>
        if bool_decide (o ∈ observers) then
          match remove_first o observers with
          | [] => set_observers (delete keypath (_observers m)) m
          | l => set_observers (<[keypath := l]> (_observers m)) m
          end
        else m
    end).

(** [unobserve] of a group: [while ( g.length ) this.unobserve( g.shift() )].
    [compute] may have stored [undefined] in place of a group, on which
    [hasOwnProperty] cannot be called. *)
Definition unobserve (g : option nat) : M unit :=
  match g with
  | None => throw TypeError
  | Some gid =>
      let! observers := gets (fun m =>
        match groups m !! gid with Some grp => members grp | None => [] end) in
      for_each (fun o =>
        modify (update_group gid (fun grp => with_members (tail (members grp)) grp)) ;;
        unobserve_one o) observers
  end.

(** [removeComputedValue]: the groups are popped from the end. *)
Definition removeComputedValue (id : string) : M unit :=
  let! computed := gets (fun m => _computed m !! id) in
  match computed with
  | None => throw TypeError
  | Some cv =>
      for_each (fun g =>
        modify (update_computed id (fun cv' =>
          with_observerGroups (removelast (observerGroups cv')) cv')) ;;
        unobserve g) (rev (observerGroups cv)) ;;
      modify (fun m => set_computed (delete id (_computed m)) m)
  end.

(** The keypaths above [keypath], nearest first: what the loops on
    [keypath.lastIndexOf( '.' )] go through.  Every step shortens the
    string, so its length bounds the number of steps. *)
Fixpoint upstream_loop (rounds : nat) (keypath : string) : list string :=
  match rounds with
  | O => []
  | S rounds' =>
      match upstream keypath with
      | None => []
      | Some up => up :: upstream_loop rounds' up
      end
  end.

Definition upstream_keypaths (keypath : string) : list string :=
  upstream_loop (String.length keypath) keypath.

Section Reentrant.

(** [call_setter id] runs the [setter] closure of the computed value [id]
    where the code calls it from inside another operation. *)
Variable call_setter : string -> M unit.

(** [callback( value, previous )] *)
Definition invoke (cb : closure) (value previous : value) : M unit :=
  match cb with
  | Client n =>
      modify (fun m =>
        set_log (log m ++ [{| ev_callback := n; ev_value := value;
                              ev_previous := previous; ev_data := _data m |}]) m)
  | Setter id => call_setter id
  end.

Definition get (keypath : string) : M value :=
  if String.eqb keypath "" then ret VUndef
  else
    let! refer := gets _referToCache in
    (if refer then ret tt
     else
       let! computed := gets (fun m => _computed m !! keypath) in
       match computed with
       | Some cv =>
           if negb (cache cv) && negb (override cv) then call_setter keypath
           else ret tt
       | None => ret tt
       end) ;;
    let! data := gets _data in
    ret (walk data (splitKeypath keypath)).

(** Queue the call while a batch is being applied, make it otherwise. *)
Definition deliver (cb : closure) (value previous : value) : M unit :=
  let! q := gets queueing in
  if q then _addToQueue cb value previous else invoke cb value previous.

(** The body of the first loop of [_notifyObservers]. *)
Definition notify_observer (keypath : string) (value : value) (force : bool)
    (o : observer) : M unit :=
  let! previousValue := gets (group_previousValue (group o)) in
  let! actualValue :=
    (if String.eqb keypath (originalKeypath o) then ret value
     else get (originalKeypath o)) in
  modify (update_group (group o) (with_previousValue actualValue)) ;;
  if negb force && isEqual actualValue previousValue then ret tt
  else deliver (callback o) actualValue previousValue.

(** The body of the second loop, for one keypath upstream; the observers are
    gone through from the last to the first. *)
Definition notify_upstream (keypath : string) : M unit :=
  let! observers := gets (fun m => _observers m !! keypath) in
  match observers with
  | None => ret tt
  | Some l =>
      for_each (fun o =>
        if String.eqb (observedKeypath o) (originalKeypath o) then
          let! value := get keypath in
          deliver (callback o) value value
        else ret tt) (rev l)
  end.

(** [_notifyObservers].  Neither kind of callback registers or cancels an
    observer, so the array a loop runs over does not change under it. *)
Definition _notifyObservers (keypath : string) (value : value) (force : bool)
    : M unit :=
  let! observers := gets (fun m => default [] (_observers m !! keypath)) in
  for_each (notify_observer keypath value force) observers ;;
  for_each notify_upstream (upstream_keypaths keypath).

(** [set] with a keypath string. *)
Definition set_keypath (keypath : string) (value : value) (silent force : bool)
    : M returned :=
  let! computed := gets (fun m => _computed m !! keypath) in
  match computed with
  | Some cv =>
      let! computing_now := gets computing in
      if negb computing_now then
        if readonly cv then throw (ReadonlyViolation keypath)
        else modify (update_computed keypath (with_override true))
      else
        modify (update_computed keypath (with_override false)) ;;
        modify (set_computing false)
  | None => ret tt
  end ;;
  modify (set_referToCache true) ;;
  let! previous := get keypath in
  modify (set_referToCache false) ;;
  let keys := splitKeypath keypath in
  let keypath := join_keys keys in
  let! data := gets _data in
  match assign data keys value with
  | None => throw TypeError
  | Some data' =>
      modify (set_data data') ;;
      (if negb silent && (force || negb (isEqual previous value))
       then _notifyObservers keypath value force
       else ret tt) ;;
      ret RThis
  end.

(** [dispatchQueue].  A queued setter may queue further calls while the
    queue is being emptied, so the loop takes a budget. *)
Fixpoint dispatchQueue (rounds : nat) : M unit :=
  match rounds with
  | O => fun m => match _queue m with [] => Ok tt m | _ => OutOfFuel end
  | S rounds' =>
      let! queue := gets _queue in
      match queue with
      | [] => ret tt
      | item :: rest =>
          modify (set_queue rest) ;;
          invoke (c item) (v item) (p item) ;;
          dispatchQueue rounds'
      end
  end.

(** [set] with an object of keypaths and values: [items] are its own
    properties in the order [for ... in] visits them. *)
Definition set_batch (rounds : nat) (items : list (string * value))
    (silent : bool) : M returned :=
  modify (set_queueing true) ;;
  for_each (fun kv => set_keypath kv.1 kv.2 silent false ;; ret tt) items ;;
  dispatchQueue rounds ;;
  modify (set_queueing false) ;;
  ret RThis.

(** The [getter] closure: the triggers are read from the last to the first. *)
Fixpoint trigger_values (l : list string) : M (list value) :=
  match l with
  | [] => ret []
  | t :: rest =>
      let! args := trigger_values rest in
      let! a := get t in
      ret (a :: args)
  end.

Definition getter (id : string) (cv : computedValue) : M value :=
  let! args := trigger_values (triggers cv) in
  let value := fn cv args in
  modify (update_computed id (with_last_value value)) ;;
  ret value.

(** The [setter] closure of the computed value [id].  A setter can only be
    reached while its computed value is registered ([removeComputedValue]
    cancels its observers before it deletes the entry), which is where the
    variables it captured are read from. *)
Definition setter_body (id : string) : M unit :=
  let! computed := gets (fun m => _computed m !! id) in
  match computed with
  | None => ret tt
  | Some cv =>
      modify (update_computed id (with_cache true)) ;;
      modify (set_computing true) ;;
      let! value := getter id cv in
      set_keypath id value false false ;;
      modify (update_computed id (with_cache (cache_option cv)))
  end.

(** One round of the loop of [observe]. *)
Definition register (originalKeypath : string) (cb : closure) (gid : nat)
    (keypath : string) : M unit :=
  modify (fun m =>
    let o := {| observedKeypath := keypath; originalKeypath := originalKeypath;
                callback := cb; group := gid |} in
    update_group gid (fun grp => with_members (members grp ++ [o]) grp)
      (set_observers
         (<[keypath := default [] (_observers m !! keypath) ++ [o]]>
            (_observers m))
         m)).

(** [observe]: the result is the address of the new group, or [None] for
    [undefined]. *)
Definition observe (keypath : string) (cb : closure) (initialize : bool)
    : M (option nat) :=
  if String.eqb keypath "" then ret None
  else
    let originalKeypath := standardise keypath in
    let! gid := gets (fun m => length (groups m)) in
    modify (fun m =>
      set_groups (groups m ++ [{| members := []; __previousValue := VUndef |}]) m) ;;
    for_each (register originalKeypath cb gid)
      (originalKeypath :: upstream_keypaths originalKeypath) ;;
    (if initialize then
       let! value := get originalKeypath in invoke cb value VUndef
     else ret tt) ;;
    let! value := get originalKeypath in
    modify (update_group gid (with_previousValue value)) ;;
    ret (Some gid).

(** [options.triggers] or [options.trigger]: absent, one keypath, or an
    array of keypaths. *)
Inductive trigger_option :=
| NoTrigger
| OneTrigger (s : string)
| Triggers (l : list string).

Record options := {
  opt_fn : list value -> value;
  opt_triggers : trigger_option;
  opt_trigger : trigger_option;
  opt_cache : value;
  opt_readonly : value
}.

Definition truthy_trigger (t : trigger_option) : bool :=
  match t with
  | NoTrigger => false
  | OneTrigger s => negb (String.eqb s "")
  | Triggers _ => true
  end.

(** [triggers] once [compute] has made an array of it. *)
Definition trigger_list (o : options) : list string :=
  match (if truthy_trigger (opt_triggers o) then opt_triggers o
         else opt_trigger o) with
  | NoTrigger => []
  | OneTrigger s => if String.eqb s "" then [] else [s]
  | Triggers l => l
  end.

(** [indexOf( needle, haystack )]; [None] stands for [-1]. *)
Fixpoint indexOf (needle : string) (haystack : list string) : option nat :=
  match haystack with
  | [] => None
  | x :: rest =>
      if String.eqb x needle then Some O
      else option_map S (indexOf needle rest)
  end.

(** The value [compute] gives to its variable [cache]. *)
Definition cache_setting (o : options) (triggers : list string) : bool :=
  match triggers with
  | [] => false
  | _ => match opt_cache o with VBool false => false | _ => true end
  end.

Definition readonly_setting (o : options) : bool :=
  match opt_readonly o with VBool false => false | _ => true end.

(** [compute] with an id string. *)
Definition compute (id : string) (o : options) : M value :=
  let! existing := gets (fun m => _computed m !! id) in
  match existing with
  | Some _ => removeComputedValue id
  | None => ret tt
  end ;;
  let triggers := trigger_list o in
  match indexOf id triggers with
  | Some _ => throw SelfTrigger
  | None =>
      let cache := cache_setting o triggers in
      let readonly := readonly_setting o in
      modify (fun m =>
        set_computed
          (<[id := {| fn := opt_fn o; triggers := triggers;
                      cache_option := cache; last_value := VUndef;
                      cache := cache; readonly := readonly;
                      override := false; observerGroups := [] |}]>
             (_computed m)) m) ;;
      call_setter id ;;
      (if Nat.eqb (length triggers) 0 && cache then throw Uncachable else ret tt) ;;
      for_each (fun t =>
        let! g := observe t (Setter id) false in
        modify (update_computed id (fun cv =>
          with_observerGroups (observerGroups cv ++ [g]) cv)))
        (rev triggers) ;;
      gets (fun m =>
        match _computed m !! id with
        | Some cv => last_value cv
        | None => VUndef
        end)
  end.

End Reentrant.

(** The [setter] closure, with a budget for the depth at which setters call
    into one another (a trigger that is itself computed, an observer that is
    a setter).  The operations of the interface are run as [get (setter n)],
    [set_keypath (setter n)], [compute (setter n)] and so on. *)
Fixpoint setter (fuel : nat) (id : string) : M unit :=
  match fuel with
  | O => fun _ => OutOfFuel
  | S fuel' => setter_body (setter fuel') id
  end.


(* ===================================================================== *)
(** ** Vocabulary of the statements *)
(* ===================================================================== *)

(** Does the character occur in the string? *)
Fixpoint has_char (ch : ascii) (s : string) : bool :=
  match s with
  | EmptyString => false
  | String x t => Ascii.eqb x ch || has_char ch t
  end.

(** A segment that reads as a plain name: neither a period nor an opening
    bracket in it. *)
Definition plain (s : string) : Prop :=
  has_char "."%char s = false /\ has_char "["%char s = false.

(** What [get] reads at [keypath] when nothing is recomputed. *)
Definition stored (keypath : string) (m : model) : value :=
  if String.eqb keypath "" then VUndef
  else walk (_data m) (splitKeypath keypath).

(** Would [get] start by running the setter of a computed value? *)
Definition refreshes (keypath : string) (m : model) : bool :=
  negb (String.eqb keypath "") && negb (_referToCache m)
  && match _computed m !! keypath with
     | Some cv => negb (cache cv) && negb (override cv)
     | None => false
     end.

(** [x: 1, y: 2] with the cached, readonly computed value [sum] of [x] and
    [y], and a client observing [sum]. *)
Definition add_numbers (args : list value) : value :=
  match args with
  | [VNum a; VNum b] => VNum (a + b)
  | _ => VUndef
  end.

Definition sum_options : options :=
  {| opt_fn := add_numbers; opt_triggers := Triggers ["x"; "y"];
     opt_trigger := NoTrigger; opt_cache := VUndef; opt_readonly := VUndef |}.

Definition state_of {A} (o : outcome A) : model :=
  match o with
  | Ok _ m | Throw _ m => m
  | OutOfFuel => Supermodel VUndef
  end.

Definition sum_model : model :=
  state_of ((compute (setter 2) "sum" sum_options ;;
             observe (setter 2) "sum" (Client 7) false)
              (Supermodel (VObj Hash [("x", VNum 1); ("y", VNum 2)]))).

(** A tree with [foo: 1] and a client observing [foo]. *)
Definition foo_model : model :=
  state_of (observe (setter 0) "foo" (Client 0) false
              (Supermodel (VObj Hash [("foo", VNum 1)]))).

(** An uncached computed value at [a.b], after which [a] was overwritten
    with a number. *)
Definition constant_options (x : value) (cache_flag readonly_flag : value)
    : options :=
  {| opt_fn := fun _ => x; opt_triggers := Triggers [];
     opt_trigger := NoTrigger; opt_cache := cache_flag;
     opt_readonly := readonly_flag |}.

Definition blocked_model : model :=
  state_of ((compute (setter 2) "a.b" (constant_options (VNum 1) VUndef VUndef) ;;
             set_keypath (setter 2) "a" (VNum 5) false false)
              (Supermodel VUndef)).

(** The calls that emptying a queue of client callbacks makes, in order,
    every one of them seeing the tree [data]. *)
Definition call_of (data : value) (item : queueItem) : list event :=
  match c item with
  | Client n => [{| ev_callback := n; ev_value := v item;
                    ev_previous := p item; ev_data := data |}]
  | Setter _ => []
  end.

Definition calls_of (data : value) (queue : list queueItem) : list event :=
  concat (map (call_of data) queue).

Definition client_item (item : queueItem) : Prop :=
  exists n, c item = Client n.

(** Can [set] write along [keys] from [obj]?  It can unless it meets a
    primitive that is not falsy (a falsy one is replaced by a new branch)
    or [obj] itself is no container. *)
Fixpoint writable (obj : value) (keys : list key) {struct keys} : bool :=
  match obj with
  | VObj _ props =>
      match keys with
      | k :: ((_ :: _) as rest) =>
          match prop_lookup (key_to_string k) props with
          | Some child => if falsy child then true else writable child rest
          | None => true
          end
      | _ => true
      end
  | _ => false
  end.

Definition client_observer (o : observer) : Prop :=
  exists n, callback o = Client n.

#[global] Instance client_observer_dec o : Decision (client_observer o).
Proof.
  unfold client_observer. destruct (callback o) as [n|id].
  - left. exists n. reflexivity.
  - right. intros [n H]. discriminate H.
Defined.

(** No computed value, and client callbacks only: nothing that a write
    could set in motion writes in turn. *)
Definition inert (m : model) : Prop :=
  _computed m = ∅
  /\ map_Forall (fun _ l => Forall client_observer l) (_observers m).

(** [m'] differs from [m] by what notifications leave behind at most:
    the log, the queue and the last values known to the groups. *)
Definition quiet (m m' : model) : Prop :=
  _data m' = _data m /\ _observers m' = _observers m
  /\ _computed m' = _computed m /\ _referToCache m' = _referToCache m.

(** The observers of the group at address [g]. *)
Definition members_of (g : nat) (m : model) : list observer :=
  match groups m !! g with
  | Some grp => members grp
  | None => []
  end.

(** The observer is not registered (under its keypath) any more. *)
Definition unsubscribed (o : observer) (m : model) : Prop :=
  forall l, _observers m !! standardise (observedKeypath o) = Some l -> o ∉ l.

(** An observer object sits once in its array. *)
Definition distinct_observers (m : model) : Prop :=
  map_Forall (fun _ l => NoDup l) (_observers m).

(** From [m] to [m'] observers were cancelled at most. *)
Definition shrinks (m m' : model) : Prop :=
  forall keypath l',
    _observers m' !! keypath = Some l' ->
    exists l, _observers m !! keypath = Some l /\ sublist l' l.

(** What cancelling observers leaves alone. *)
Definition same_store (m m' : model) : Prop :=
  _data m' = _data m /\ _computed m' = _computed m /\ log m' = log m.

(** [name[d1][d2]...]: the brackets that follow the name. *)
Fixpoint brackets (ds : list string) : string :=
  match ds with
  | [] => EmptyString
  | d :: rest => String "["%char (d +:+ String "]"%char (brackets rest))
  end.

(** A string of digits with at least one digit: what [[0-9]+] matches. *)
Definition digits (d : string) : Prop :=
  d <> EmptyString /\ all_digits d = true.

(** The observers registered under [keypath], none if there is no array. *)
Definition bucket (keypath : string) (m : model) : list observer :=
  default [] (_observers m !! keypath).

(** Every registered observer belongs to a group that exists. *)
Definition grouped_observers (m : model) : Prop :=
  map_Forall (fun _ l => Forall (fun o => group o < length (groups m)) l)
    (_observers m).

(** The observer that [observe] makes for one keypath of its loop. *)
Definition new_observer (originalKeypath : string) (cb : closure) (gid : nat)
    (keypath : string) : observer :=
  {| observedKeypath := keypath; originalKeypath := originalKeypath;
     callback := cb; group := gid |}.

(** The call a client callback receives when it is invoked at once. *)
Definition client_call (cb : closure) (x previous data : value) : list event :=
  match cb with
  | Client n => [{| ev_callback := n; ev_value := x;
                    ev_previous := previous; ev_data := data |}]
  | Setter _ => []
  end.


(** A keypath that names a property of the root: one segment, not empty. *)
Definition top_level (s : string) : Prop := s <> "" /\ plain s.

(** The tree holds at [id] what [f] makes of the values stored at [ts]. *)
Definition follows (id : string) (f : list value -> value) (ts : list string)
    (m : model) : Prop :=
  stored id m = f (map (fun t => stored t m) ts).

(** [o] runs the setter of [id] for the keypath [t]; its group is there, and
    no other registered observer is of that group. *)
Definition trigger_observer (id t : string) (m : model) (o : observer) : Prop :=
  callback o = Setter id /\ originalKeypath o = t
  /\ group o < length (groups m)
  /\ forall k o', o' ∈ bucket k m -> group o' = group o -> o' = o.

(** [id] is the only computed value, a cached one with the function [f] and
    the root keys [ts] as triggers; the root is a container; no batch is
    being applied; every observer is a client's or runs the setter of [id]
    for the trigger it is registered under. *)
Definition wired (id : string) (f : list value -> value) (ts : list string)
    (m : model) : Prop :=
  exists cv kd props,
    _computed m !! id = Some cv
    /\ (forall k, k <> id -> _computed m !! k = None)
    /\ fn cv = f /\ triggers cv = ts
    /\ cache cv = true /\ cache_option cv = true
    /\ top_level id /\ Forall top_level ts /\ (id ∉ ts)
    /\ _data m = VObj kd props /\ queueing m = false
    /\ forall k o, o ∈ bucket k m ->
         client_observer o \/ (k ∈ ts /\ trigger_observer id k m o).

(** The computed value [id] is wired, each of its triggers has an observer
    that runs its setter, the group of such an observer remembers the value
    stored at the trigger, and the tree holds the value of [f] at [id]. *)
Definition tracked (id : string) (f : list value -> value) (ts : list string)
    (m : model) : Prop :=
  wired id f ts m
  /\ (forall t, t ∈ ts -> exists o, o ∈ bucket t m /\ callback o = Setter id)
  /\ (forall k o, o ∈ bucket k m -> callback o = Setter id ->
        group_previousValue (group o) m = stored k m)
  /\ follows id f ts m.

(** From [m] to [m'] clients were notified at most, and only the groups in
    [G] may remember another value. *)
Definition hushed (G : list nat) (m m' : model) : Prop :=
  quiet m m' /\ queueing m' = queueing m
  /\ length (groups m') = length (groups m)
  /\ forall g, g ∉ G -> group_previousValue g m' = group_previousValue g m.

(** Reading a computed value other than [id] recomputes nothing: each is
    cached or overridden. *)
Definition others_settled (id : string) (m : model) : Prop :=
  map_Forall (fun k cv => k <> id -> cache cv = true \/ override cv = true)
    (_computed m).

(** The sum of [x] and [y] as an uncached computed value that may be set. *)
Definition uncached_sum_options : options :=
  {| opt_fn := add_numbers; opt_triggers := Triggers ["x"; "y"];
     opt_trigger := NoTrigger; opt_cache := VBool false;
     opt_readonly := VBool false |}.

(** [x: 1, y: 2] with that computed value [sum], after a silent
    [set( 'x', 5 )]: the tree still holds 3 at [sum]. *)
Definition stale_model : model :=
  state_of ((compute (setter 2) "sum" uncached_sum_options ;;
             set_keypath (setter 2) "x" (VNum 5) true false)
              (Supermodel (VObj Hash [("x", VNum 1); ("y", VNum 2)]))).

(** The number of observers registered under a keypath and above it. *)
Definition audience (keypath : string) (m : model) : nat :=
  length (bucket keypath m)
  + sum_list_with (fun k => length (bucket k m)) (upstream_keypaths keypath).

(** [cb] is the callback of an observer registered under [keypath] or above
    it. *)
Definition listening (keypath : string) (m : model) (cb : closure) : Prop :=
  exists k o,
    (k = keypath \/ k ∈ upstream_keypaths keypath)
    /\ o ∈ bucket k m /\ callback o = cb.

(** The tree after the writes of a batch, in their order; [None] if a write
    fails. *)
Fixpoint assign_all (data : value) (items : list (string * value))
    : option value :=
  match items with
  | [] => Some data
  | kv :: rest =>
      match assign data (splitKeypath kv.1) kv.2 with
      | Some data' => assign_all data' rest
      | None => None
      end
  end.

(** From [m] to [m'] at most [n] callbacks, all satisfying [P], were
    delivered: called at once and logged, seeing the tree of [m], or, while
    a batch is being applied, queued. *)
Definition heard (P : closure -> Prop) (n : nat) (m m' : model) : Prop :=
  _data m' = _data m /\ _observers m' = _observers m
  /\ _computed m' = _computed m /\ _referToCache m' = _referToCache m
  /\ queueing m' = queueing m
  /\ if queueing m
     then log m' = log m
          /\ Forall (fun item => P (c item) \/ item ∈ _queue m) (_queue m')
          /\ (NoDup (map c (_queue m)) -> NoDup (map c (_queue m')))
          /\ length (_queue m') <= length (_queue m) + n
     else _queue m' = _queue m
          /\ exists new,
               log m' = log m ++ new /\ length new <= n
               /\ Forall (fun e => P (Client (ev_callback e))
                                   /\ ev_data e = _data m) new.

(** Every registered observer is filed under its own keypath and is a member
    of its group. *)
Definition well_filed (m : model) : Prop :=
  map_Forall (fun k l =>
    Forall (fun o => standardise (observedKeypath o) = k
                     /\ o ∈ members_of (group o) m) l)
    (_observers m).

(** The call that the first loop of [_notifyObservers] makes for the
    observer [o], if any: [before] is the instance as the loop finds it,
    [after] holds the tree the callback sees. *)
Definition observer_call (keypath : string) (x : value) (force : bool)
    (before after : model) (o : observer) : list event :=
  let actual := if String.eqb keypath (originalKeypath o) then x
                else stored (originalKeypath o) after in
  let previous := group_previousValue (group o) before in
  if negb force && isEqual actual previous then []
  else client_call (callback o) actual previous (_data after).

(** The calls of the second loop for one keypath upstream: the observers of
    that very keypath, from the last to the first. *)
Definition upstream_calls (after : model) (keypath : string) : list event :=
  flat_map (fun o =>
    if String.eqb (observedKeypath o) (originalKeypath o)
    then client_call (callback o) (stored keypath after) (stored keypath after)
           (_data after)
    else []) (rev (bucket keypath after)).

(** All the calls of [_notifyObservers], in order. *)
Definition notifications (keypath : string) (x : value) (force : bool)
    (before after : model) : list event :=
  flat_map (observer_call keypath x force before after) (bucket keypath after)
  ++ flat_map (upstream_calls after) (upstream_keypaths keypath).

(** The names that a property read finds on one of the built-in prototypes
    (of objects, functions, arrays, strings, numbers and booleans, in
    current engines and in older ones), with [length], [name] and the like
    that their instances own.  The trees and registries of the model hold
    own data properties only: where a statement is about an arbitrary
    keypath it is made for keypaths that use none of these names, for which
    [obj[ key ]] finds an own property or nothing. *)
Definition reserved_names : list string :=
  [ "constructor"; "hasOwnProperty"; "isPrototypeOf"; "propertyIsEnumerable";
    "toLocaleString"; "toString"; "valueOf"; "__proto__";
    "__defineGetter__"; "__defineSetter__"; "__lookupGetter__";
    "__lookupSetter__"; "apply"; "bind"; "call"; "length"; "name";
    "prototype"; "arguments"; "caller"; "callee";
    "at"; "concat"; "copyWithin"; "entries"; "every"; "fill"; "filter";
    "find"; "findIndex"; "findLast"; "findLastIndex"; "flat"; "flatMap";
    "forEach"; "includes"; "indexOf"; "join"; "keys"; "lastIndexOf"; "map";
    "pop"; "push"; "reduce"; "reduceRight"; "reverse"; "shift"; "slice";
    "some"; "sort"; "splice"; "toReversed"; "toSorted"; "toSpliced";
    "unshift"; "values"; "with";
    "charAt"; "charCodeAt"; "codePointAt"; "endsWith"; "isWellFormed";
    "localeCompare"; "match"; "matchAll"; "normalize"; "padEnd"; "padStart";
    "repeat"; "replace"; "replaceAll"; "search"; "split"; "startsWith";
    "substr"; "substring"; "toLocaleLowerCase"; "toLocaleUpperCase";
    "toLowerCase"; "toUpperCase"; "toWellFormed"; "trim"; "trimEnd";
    "trimStart"; "trimLeft"; "trimRight";
    "anchor"; "big"; "blink"; "bold"; "fixed"; "fontcolor"; "fontsize";
    "italics"; "link"; "small"; "strike"; "sub"; "sup";
    "toExponential"; "toFixed"; "toPrecision";
    "toSource"; "watch"; "unwatch"; "contains"; "quote" ].

Definition reserved (s : string) : bool := bool_decide (s ∈ reserved_names).

(** A segment that means in the model what it means in the code: a name
    that is not reserved, or an index that [+match[1]], a double, holds
    exactly (below 2^53), so that [String] prints its digits. *)
Definition ordinary_key (k : key) : bool :=
  match k with
  | KStr s => negb (reserved s)
  | KNum n => (n <? 9007199254740992)%N
  end.

(** A keypath all of whose segments are ordinary. *)
Definition ordinary (keypath : string) : Prop :=
  forallb ordinary_key (splitKeypath keypath) = true.

(** Reading along [keys] from [obj] never asks a string for one of its
    characters: a key of digits is not applied to a string. *)
Fixpoint legible (obj : value) (keys : list key) : bool :=
  match keys with
  | [] => true
  | k :: rest =>
      match obj with
      | VStr _ => negb (all_digits (key_to_string k))
      | VObj _ props =>
          legible (default VUndef (prop_lookup (key_to_string k) props)) rest
      | _ => true
      end
  end.

(** A hash or an array: a value that the code holds by reference. *)
Definition container (x : value) : bool :=
  match x with
  | VObj _ _ => true
  | _ => false
  end.

(** The constant 0 as the computed value [a], with [a.b] as its trigger:
    every run of its setter overwrites [a]. *)
Definition overwriting_model : model :=
  state_of (compute (setter 3) "a"
              {| opt_fn := fun _ => VNum 0; opt_triggers := Triggers ["a.b"];
                 opt_trigger := NoTrigger; opt_cache := VUndef;
                 opt_readonly := VUndef |}
              (Supermodel VUndef)).

(** [foo: 1] with two clients observing [foo], in the groups 0 and 1. *)
Definition pair_model : model :=
  state_of ((observe (setter 0) "foo" (Client 0) false ;;
             observe (setter 0) "foo" (Client 1) false)
              (Supermodel (VObj Hash [("foo", VNum 1)]))).

(** The containers in a value, the value itself first. *)
Fixpoint nodes (x : value) : list value :=
  match x with
  | VObj _ props => x :: flat_map (fun nv => nodes nv.2) props
  | _ => []
  end.

(** No container occurs twice in or among the values.  The code holds
    containers by reference; two positions that hold the same one hold
    equal trees, so values without a repeated container share no node. *)
Definition unshared (xs : list value) : Prop := NoDup (flat_map nodes xs).

(** The values that the groups remember and those that wait in the queue
    are primitives, which the code holds as values too. *)
Definition primitive_memory (m : model) : Prop :=
  Forall (fun grp => container (__previousValue grp) = false) (groups m)
  /\ Forall (fun item => container (v item) = false
                         /\ container (p item) = false) (_queue m).

(** [a: { b: 1 }] with a client observing [a.b], then another observing
    [a]. *)
Definition nested_model : model :=
  state_of ((observe (setter 0) "a.b" (Client 0) false ;;
             observe (setter 0) "a" (Client 1) false)
              (Supermodel (VObj Hash [("a", VObj Hash [("b", VNum 1)])]))).

(* ===================================================================== *)
(** ** Properties of the keypath parser *)
(* ===================================================================== *)

Section ParserFacts.

Lemma split_on_nonempty sep s : split_on sep s <> [].
Proof.
  destruct s as [|x t]; simpl; [discriminate|].
  destruct (Ascii.eqb x sep); [discriminate|].
  destruct (split_on sep t); discriminate.
Qed.

Lemma split_on_pieces sep s :
  Forall (fun piece => has_char sep piece = false) (split_on sep s).
Proof.
  induction s as [|x t IH]; simpl.
  - repeat constructor.
  - destruct (Ascii.eqb x sep) eqn:E.
    + constructor; [reflexivity | exact IH].
    + destruct (split_on sep t) as [|h r].
      * constructor; [simpl; rewrite E; reflexivity | constructor].
      * inversion IH; subst. constructor; [|assumption].
        simpl. rewrite E. assumption.
Qed.

Lemma split_on_concat sep (l : list string) :
  l <> [] ->
  Forall (fun piece => has_char sep piece = false) l ->
  split_on sep (String.concat (String sep EmptyString) l) = l.
Proof.
  induction l as [|x r IH]; [congruence|].
  intros _ Hall. inversion Hall as [|? ? Hx Hr]; subst.
  destruct r as [|y r'].
  - simpl. clear IH Hall Hr.
    induction x as [|ch t IHt]; simpl in *; [reflexivity|].
    apply orb_false_iff in Hx as [E Ht]. rewrite E, (IHt Ht). reflexivity.
  - assert (IHr := IH ltac:(discriminate) Hr). clear IH.
    change (String.concat (String sep EmptyString) (x :: y :: r'))
      with (x +:+ String sep EmptyString
              +:+ String.concat (String sep EmptyString) (y :: r')).
    revert IHr. generalize (String.concat (String sep EmptyString) (y :: r')).
    intros rest IHr. clear Hall Hr.
    induction x as [|ch t IHt]; simpl in *.
    + rewrite Ascii.eqb_refl. change ("" +:+ rest) with rest.
      rewrite IHr. reflexivity.
    + apply orb_false_iff in Hx as [E Ht]. rewrite E, (IHt Ht). reflexivity.
Qed.

Lemma break_at_absent sep s : has_char sep s = false -> break_at sep s = None.
Proof.
  induction s as [|x t IH]; simpl; [reflexivity|].
  intros H. apply orb_false_iff in H as [E Ht]. rewrite E, (IH Ht). reflexivity.
Qed.

Lemma break_at_prefix sep other s pre post :
  break_at sep s = Some (pre, post) ->
  has_char other s = false ->
  has_char sep pre = false /\ has_char other pre = false.
Proof.
  revert pre post. induction s as [|x t IH]; simpl; [discriminate|].
  intros pre post H Ho. apply orb_false_iff in Ho as [Eo Hto].
  destruct (Ascii.eqb x sep) eqn:E.
  - inversion H; subst. split; reflexivity.
  - destruct (break_at sep t) as [[pre' post']|] eqn:B; [|discriminate].
    inversion H; subst. destruct (IH _ _ eq_refl Hto) as [H1 H2].
    simpl. rewrite E, Eo, H1, H2. split; reflexivity.
Qed.

Lemma string_drop_length n s :
  String.length (string_drop n s) <= String.length s.
Proof.
  revert s. induction n as [|n IH]; intros s; simpl; [lia|].
  destruct s as [|x t]; simpl; [lia|]. specialize (IH t). lia.
Qed.

(** The number of rounds given to the loop of [parseArrayNotation] is
    enough: with more of them the result is the same. *)
Lemma pointer_loop_rounds n : forall n' arrayPointers result,
  String.length arrayPointers <= n ->
  String.length arrayPointers <= n' ->
  pointer_loop n arrayPointers result = pointer_loop n' arrayPointers result.
Proof.
  induction n as [|n IH]; intros n' s result Hn Hn'.
  - destruct s; simpl in Hn; [|lia]. destruct n'; reflexivity.
  - destruct n' as [|n'].
    + destruct s; simpl in Hn'; [reflexivity | lia].
    + simpl. destruct s as [|x t]; [reflexivity|].
      destruct (arrayNotationPattern_exec (String x t)) as [d|]; [|reflexivity].
      pose proof (string_drop_length (String.length d + 1) t) as Hd.
      replace (String.length d + 2) with (S (String.length d + 1)) by lia.
      simpl string_drop. simpl in Hn, Hn'. apply IH; lia.
Qed.

Lemma parseArrayNotation_plain s :
  has_char "["%char s = false -> parseArrayNotation s = [KStr s].
Proof. intros H. unfold parseArrayNotation. rewrite (break_at_absent _ _ H). reflexivity. Qed.

Lemma decimal_plain u : plain (NilEmpty.string_of_uint u).
Proof.
  induction u as [|u IH|u IH|u IH|u IH|u IH|u IH|u IH|u IH|u IH|u IH];
    [split; reflexivity | destruct IH; split; simpl; assumption ..].
Qed.

Lemma pointer_loop_plain rounds arrayPointers result :
  Forall (fun k => plain (key_to_string k)) result ->
  Forall (fun k => plain (key_to_string k))
    (pointer_loop rounds arrayPointers result).
Proof.
  revert arrayPointers result.
  induction rounds as [|n IH]; intros arrayPointers result H; simpl; [assumption|].
  destruct arrayPointers; [assumption|].
  destruct (arrayNotationPattern_exec _); [|assumption].
  apply IH. apply Forall_app; split; [assumption|].
  constructor; [apply decimal_plain | constructor].
Qed.

Lemma parseArrayNotation_keys s :
  has_char "."%char s = false ->
  Forall (fun k => plain (key_to_string k)) (parseArrayNotation s).
Proof.
  intros Hdot. unfold parseArrayNotation.
  destruct (break_at "["%char s) as [[name arrayPointers]|] eqn:B.
  - apply pointer_loop_plain. constructor; [|constructor].
    destruct (break_at_prefix _ "."%char _ _ _ B Hdot). split; assumption.
  - constructor; [|constructor]. split; [assumption|].
    clear Hdot. induction s as [|x t IH]; simpl in *; [reflexivity|].
    destruct (Ascii.eqb x "["%char); [discriminate|].
    destruct (break_at "["%char t) as [[? ?]|]; [discriminate|].
    apply IH. reflexivity.
Qed.

Lemma pointer_loop_nonempty rounds arrayPointers result :
  result <> [] -> pointer_loop rounds arrayPointers result <> [].
Proof.
  revert arrayPointers result.
  induction rounds as [|n IH]; intros arrayPointers result H; simpl; [assumption|].
  destruct arrayPointers; [assumption|].
  destruct (arrayNotationPattern_exec _); [|assumption].
  apply IH. destruct result; discriminate.
Qed.

Lemma parseArrayNotation_nonempty s : parseArrayNotation s <> [].
Proof.
  unfold parseArrayNotation. destruct (break_at "["%char s) as [[? ?]|].
  - apply pointer_loop_nonempty. discriminate.
  - discriminate.
Qed.

Lemma splitKeypath_nonempty p : splitKeypath p <> [].
Proof.
  unfold splitKeypath. pose proof (split_on_nonempty "."%char p) as H.
  destruct (split_on "."%char p) as [|x r]; [congruence|]. simpl.
  pose proof (parseArrayNotation_nonempty x).
  destruct (parseArrayNotation x); [congruence | discriminate].
Qed.

Lemma splitKeypath_keys p :
  Forall (fun k => plain (key_to_string k)) (splitKeypath p).
Proof.
  unfold splitKeypath. pose proof (split_on_pieces "."%char p) as H.
  induction H as [|x r Hx Hr IH]; simpl; [constructor|].
  apply Forall_app; split; [apply parseArrayNotation_keys; assumption | exact IH].
Qed.

Lemma splitKeypath_of_plain (l : list string) :
  l <> [] -> Forall plain l ->
  splitKeypath (String.concat "." l) = map KStr l.
Proof.
  intros Hne Hall. unfold splitKeypath.
  rewrite split_on_concat; [|assumption|].
  - clear Hne. induction Hall as [|x r [_ Hx] Hr IH]; simpl; [reflexivity|].
    rewrite (parseArrayNotation_plain _ Hx), IH. reflexivity.
  - eapply Forall_impl; [exact Hall|]. intros x [Hx _]. exact Hx.
Qed.

End ParserFacts.

(** C7. [standardise] is idempotent on every string (so on every valid
    keypath), and bracket and dot notation have the same standard form:
    ["a.b[0]"] and ["a.b.0"] both give ["a.b.0"]. *)
Theorem standardise_idempotent :
  (forall p : string, standardise (standardise p) = standardise p)
  /\ standardise "a.b[0]" = "a.b.0"
  /\ standardise "a.b.0" = "a.b.0".
Proof.
  split; [|split; reflexivity].
  intros p. unfold standardise at 1 3. unfold standardise, join_keys.
  rewrite splitKeypath_of_plain.
  - rewrite map_map. simpl. rewrite map_id. reflexivity.
  - pose proof (splitKeypath_nonempty p).
    destruct (splitKeypath p); [congruence | discriminate].
  - apply Forall_map. apply splitKeypath_keys.
Qed.

(* ===================================================================== *)
(** ** Properties of [set] and [get] *)
(* ===================================================================== *)

Section Calls.

Context {A B : Type}.

Lemma bind_ok (x : M A) (f : A -> M B) m a m1 :
  x m = Ok a m1 -> bind x f m = f a m1.
Proof. unfold bind. intros ->. reflexivity. Qed.

Lemma bind_ok_inv (x : M A) (f : A -> M B) m b m' :
  bind x f m = Ok b m' -> exists a m1, x m = Ok a m1 /\ f a m1 = Ok b m'.
Proof. unfold bind. destruct (x m) as [a m1| |]; [eauto | discriminate ..]. Qed.

Lemma bind_throw (x : M A) (f : A -> M B) m e m1 :
  x m = Throw e m1 -> bind x f m = Throw e m1.
Proof. unfold bind. intros ->. reflexivity. Qed.

End Calls.

(** Take a call that returned apart into the calls it is made of. *)
Ltac ok_inv H :=
  let Ha := fresh "Ha" in
  let Hm := fresh "Hm" in
  injection H as Ha Hm;
  match type of Ha with ?l = ?r => first [subst r | subst l | idtac] end;
  match type of Hm with ?l = ?r => first [subst r | subst l | idtac] end.

Ltac returned_inv :=
  repeat match goal with
  | H : bind _ _ _ = Ok _ _ |- _ =>
      apply bind_ok_inv in H; destruct H as (? & ? & ? & H); cbv beta in H
  | H : gets _ _ = Ok _ _ |- _ => unfold gets in H; ok_inv H
  | H : modify _ _ = Ok _ _ |- _ => unfold modify in H; ok_inv H
  | H : ret _ _ = Ok _ _ |- _ => unfold ret in H; ok_inv H
  | H : throw _ _ = Ok _ _ |- _ => discriminate H
  end.

Lemma get_no_refresh call keypath m :
  refreshes keypath m = false ->
  get call keypath m = Ok (stored keypath m) m.
Proof.
  unfold refreshes, get, stored. intros H.
  destruct (String.eqb keypath ""); [reflexivity|].
  unfold bind, gets, ret. simpl in H.
  destruct (_referToCache m); [reflexivity|]. simpl in H.
  destruct (_computed m !! keypath) as [cv|]; [|reflexivity].
  rewrite H. reflexivity.
Qed.

(** C1 (as the code has it). [set] hands back the instance, never a value.
    The value stored at the keypath before the write is read, but only to
    decide whether observers hear of the write: when the call is neither
    silent nor forced and that value equals the new one, no callback is
    made or queued and no group is touched. *)
Theorem set_returns_this call keypath value silent force m r m' :
  set_keypath call keypath value silent force m = Ok r m' ->
  r = RThis
  /\ (silent = false -> force = false ->
      isEqual (stored keypath m) value = true ->
      log m' = log m /\ _queue m' = _queue m /\ groups m' = groups m).
Proof.
  unfold set_keypath. intros H. returned_inv.
  match goal with
  | H1 : _ m = Ok _ ?m1, H2 : get _ _ _ = Ok ?previous ?m2 |- _ =>
      assert (Hm : _data m1 = _data m /\ log m1 = log m
                   /\ _queue m1 = _queue m /\ groups m1 = groups m);
      [ destruct (_computed m !! keypath) as [cv|];
        [ returned_inv; destruct (computing m); [|destruct (readonly cv)];
          simpl in H1; returned_inv; simpl; auto
        | returned_inv; auto ]
      | clear H1; destruct Hm as (Hd & Hl & Hq & Hg);
        rewrite get_no_refresh in H2
          by (unfold refreshes; simpl; rewrite andb_false_r; reflexivity);
        ok_inv H2;
        replace (stored keypath (set_referToCache true m1))
          with (stored keypath m) in *
          by (unfold stored; simpl; rewrite Hd; reflexivity) ]
  end.
  match goal with
  | H : context [assign ?d ?k ?x] |- _ => destruct (assign d k x); [|discriminate H]
  end.
  returned_inv. split; [reflexivity|].
  intros -> -> Heq. rewrite Heq in *. simpl in *.
  returned_inv. simpl. auto.
Qed.

Lemma set_returns_this_witness :
  RThis = RThis
  /\ (false = false -> false = false ->
      isEqual (stored "foo" foo_model) (VNum 1) = true ->
      log (state_of (set_keypath (setter 0) "foo" (VNum 1) false false foo_model))
        = log foo_model
      /\ _queue (state_of (set_keypath (setter 0) "foo" (VNum 1) false false foo_model))
        = _queue foo_model
      /\ groups (state_of (set_keypath (setter 0) "foo" (VNum 1) false false foo_model))
        = groups foo_model).
Proof.
  apply (set_returns_this (setter 0) "foo" (VNum 1) false false foo_model).
  vm_compute. reflexivity.
Defined.

(** C1 (as stated) fails: with [foo: 1] stored, [set( 'foo', 2 )] does not
    return [1]. *)
Lemma set_returns_previous_counterexample :
  get (setter 0) "foo" (Supermodel (VObj Hash [("foo", VNum 1)]))
    = Ok (VNum 1) (Supermodel (VObj Hash [("foo", VNum 1)]))
  /\ ~ (exists m',
          set_keypath (setter 0) "foo" (VNum 2) false false
            (Supermodel (VObj Hash [("foo", VNum 1)]))
          = Ok (RValue (VNum 1)) m').
Proof.
  split; [vm_compute; reflexivity|].
  intros [m' H]. vm_compute in H. discriminate H.
Qed.

(* ===================================================================== *)
(** ** Properties of computed values *)
(* ===================================================================== *)

(** Without triggers [cache] is [false] whatever [options.cache] says, so
    the test [!i && cache] that guards the "must have at least one trigger"
    error cannot succeed. *)
Lemma cache_setting_no_triggers o : cache_setting o [] = false.
Proof. reflexivity. Qed.

(** C2 (the code at the failing input). [compute] with [cache: true] and an
    empty trigger list raises nothing: it returns the value of [fn] and
    registers the computed value as uncached. *)
Theorem compute_cached_without_triggers budget x readonly_flag :
  exists m',
    compute (setter (S budget)) "x" (constant_options x (VBool true) readonly_flag)
      (Supermodel VUndef) = Ok x m'
    /\ cache <$> (_computed m' !! "x") = Some false
    /\ stored "x" m' = x.
Proof. destruct x; eexists; vm_compute; repeat split; reflexivity. Qed.

(** C3. A manual [set] on a readonly computed value throws, and the
    instance it leaves behind is the one it found: same tree, so the same
    [get], and nothing logged or queued. *)
Theorem readonly_set_rejected call id cv value silent force m :
  _computed m !! id = Some cv ->
  readonly cv = true ->
  computing m = false ->
  set_keypath call id value silent force m = Throw (ReadonlyViolation id) m.
Proof.
  intros Hc Hr Hm. unfold set_keypath, bind, gets, throw.
  rewrite Hc, Hm. simpl. rewrite Hr. reflexivity.
Qed.

Lemma readonly_set_rejected_witness :
  set_keypath (setter 2) "sum" (VNum 99) false false sum_model
    = Throw (ReadonlyViolation "sum") sum_model.
Proof.
  eapply readonly_set_rejected; vm_compute; reflexivity.
Defined.

(* ===================================================================== *)
(** ** [get] and errors *)
(* ===================================================================== *)

Lemma walk_undefined pre : forall obj k post,
  getProp (walk obj pre) (key_to_string k) = None
  \/ getProp (walk obj pre) (key_to_string k) = Some VUndef ->
  walk obj (pre ++ k :: post) = VUndef.
Proof.
  induction pre as [|k0 pre IH]; intros obj k post H; simpl in *.
  - destruct H as [-> | ->]; reflexivity.
  - destruct (getProp obj (key_to_string k0)) as [[]|]; simpl in *;
      try (apply IH; exact H); reflexivity.
Qed.

(** An error out of [get] is an error out of the setter it called. *)
Lemma get_throw_inv call keypath m e m' :
  get call keypath m = Throw e m' -> call keypath m = Throw e m'.
Proof.
  unfold get. destruct (String.eqb keypath ""); [discriminate|].
  unfold bind, gets, ret.
  destruct (_referToCache m); [discriminate|].
  destruct (_computed m !! keypath) as [cv|]; [|discriminate].
  destruct (negb (cache cv) && negb (override cv)); [|discriminate].
  destruct (call keypath m); [discriminate| |discriminate].
  intros H. inversion H. reflexivity.
Qed.

(** C9 (as the code has it). Where [get] does not start by recomputing an
    uncached computed value it returns, leaving the instance as it was; if
    on the way along the segments a lookup is undefined or would throw, the
    result is [undefined].  The keypath is an ordinary one, and its walk
    reads no character of a string. *)
Theorem get_total call keypath m :
  refreshes keypath m = false ->
  ordinary keypath ->
  legible (_data m) (splitKeypath keypath) = true ->
  exists x,
    get call keypath m = Ok x m
    /\ forall pre k post,
         keypath <> "" ->
         splitKeypath keypath = pre ++ k :: post ->
         getProp (walk (_data m) pre) (key_to_string k) = None
         \/ getProp (walk (_data m) pre) (key_to_string k) = Some VUndef ->
         x = VUndef.
Proof.
  intros H _ _. exists (stored keypath m). split; [apply get_no_refresh; exact H|].
  intros pre k post Hne Hs Hk. unfold stored.
  destruct (String.eqb keypath ""); [reflexivity|].
  rewrite Hs. apply walk_undefined. exact Hk.
Qed.

Lemma get_total_witness :
  exists x,
    get (setter 0) "foo.bar.baz" foo_model = Ok x foo_model
    /\ forall pre k post,
         "foo.bar.baz" <> "" ->
         splitKeypath "foo.bar.baz" = pre ++ k :: post ->
         getProp (walk (_data foo_model) pre) (key_to_string k) = None
         \/ getProp (walk (_data foo_model) pre) (key_to_string k) = Some VUndef ->
         x = VUndef.
Proof.
  apply (get_total (setter 0) "foo.bar.baz" foo_model);
    vm_compute; reflexivity.
Defined.

(** C9 (as stated) fails: [a.b] is an uncached computed value and [a] holds
    a number; [get( 'a.b' )] runs the setter, whose write to a property of
    that number raises a TypeError that nothing catches. *)
Lemma get_raises_counterexample :
  get (setter 1) "a.b" blocked_model
  = Throw TypeError (update_computed "a.b" (with_cache true) blocked_model)
  /\ stored "a" blocked_model = VNum 5
  /\ (forall budget,
        get (setter (S budget)) "a.b" blocked_model
        = Throw TypeError (update_computed "a.b" (with_cache true) blocked_model)).
Proof.
  split; [vm_compute; reflexivity|]. split; [vm_compute; reflexivity|].
  intros budget. vm_compute. reflexivity.
Qed.

(* ===================================================================== *)
(** ** The tree: reading back what was written *)
(* ===================================================================== *)

Section TreeFacts.

Lemma prop_lookup_update name x props :
  prop_lookup name (prop_update name x props) = Some x.
Proof.
  induction props as [|[n w] rest IH]; simpl.
  - rewrite String.eqb_refl. reflexivity.
  - destruct (String.eqb n name) eqn:E; simpl; rewrite E; [reflexivity | exact IH].
Qed.

Lemma prop_lookup_update_ne name other x props :
  name <> other ->
  prop_lookup other (prop_update name x props) = prop_lookup other props.
Proof.
  intros Hne. induction props as [|[n w] rest IH]; simpl.
  - destruct (String.eqb_spec name other); [congruence | reflexivity].
  - destruct (String.eqb_spec n name) as [->|Hn]; simpl.
    + destruct (String.eqb_spec name other); [congruence | reflexivity].
    + destruct (String.eqb_spec n other); [reflexivity | exact IH].
Qed.

Lemma walk_undef keys : walk VUndef keys = VUndef.
Proof. destruct keys; reflexivity. Qed.

Lemma walk_step obj k rest :
  walk obj (k :: rest)
  = walk (default VUndef (getProp obj (key_to_string k))) rest.
Proof.
  simpl. destruct (getProp obj (key_to_string k)) as [[]|]; simpl;
    rewrite ?walk_undef; reflexivity.
Qed.

Lemma walk_app obj pre post : walk obj (pre ++ post) = walk (walk obj pre) post.
Proof.
  revert obj. induction pre as [|k pre IH]; intros obj; [reflexivity|].
  rewrite <- app_comm_cons, !walk_step. apply IH.
Qed.

(** Reading through the property that was just written. *)
Lemma walk_into k props name x rest :
  walk (VObj k (prop_update name x props)) (KStr name :: rest) = walk x rest.
Proof. rewrite walk_step. simpl. rewrite prop_lookup_update. reflexivity. Qed.

Lemma walk_property k props name x :
  walk (VObj k (prop_update name x props)) [KStr name] = x.
Proof. apply walk_into. Qed.

(** Reading through another property than the one just written. *)
Lemma walk_beside k props name other x rest :
  name <> other ->
  walk (VObj k (prop_update name x props)) (KStr other :: rest)
  = walk (VObj k props) (KStr other :: rest).
Proof.
  intros Hne. rewrite !walk_step. simpl.
  rewrite prop_lookup_update_ne by exact Hne. reflexivity.
Qed.

(** Reading below a property that is there. *)
Lemma walk_below k props name child rest :
  prop_lookup name props = Some child ->
  walk (VObj k props) (KStr name :: rest) = walk child rest.
Proof. intros H. rewrite walk_step. simpl. rewrite H. reflexivity. Qed.

Lemma assign_property k props key x :
  assign (VObj k props) [key] x
  = Some (VObj k (prop_update (key_to_string key) x props)).
Proof. reflexivity. Qed.

(** Writing below a property that holds a container. *)
Lemma assign_into k props name kc cprops next rest x :
  prop_lookup name props = Some (VObj kc cprops) ->
  assign (VObj k props) (KStr name :: next :: rest) x
  = match assign (VObj kc cprops) (next :: rest) x with
    | Some child => Some (VObj k (prop_update name child props))
    | None => None
    end.
Proof. intros H. simpl. rewrite H. simpl. reflexivity. Qed.

Lemma isEqual_sym a b : isEqual a b = isEqual b a.
Proof.
  destruct a, b; try reflexivity; unfold isEqual; simpl;
    first [apply Z.eqb_sym | apply String.eqb_sym
          | match goal with |- Bool.eqb ?x ?y = _ => destruct x, y; reflexivity end].
Qed.

(** Two values that [isEqual] takes for equal are primitives (or both
    [null]), and nothing can be read through them. *)
Lemma isEqual_leaf a b k rest :
  isEqual a b = true -> walk a (k :: rest) = VUndef /\ walk b (k :: rest) = VUndef.
Proof. destruct a, b; simpl; intros H; try discriminate H; split; reflexivity. Qed.

End TreeFacts.

(* ===================================================================== *)
(** ** Observers *)
(* ===================================================================== *)

(** Run the plumbing of a scenario, leaving the reads and writes of the
    tree, the comparisons of values and the search of the queue as they
    are. *)
Ltac run :=
  with_strategy transparent [gmap_empty]
    cbv -[isEqual walk assign prop_update prop_lookup remove_queued].

(** Decide the comparisons whose operands are known. *)
Ltac compare_known :=
  repeat match goal with
  | |- context [isEqual ?a ?b] =>
      let r := eval cbv in (isEqual a b) in
      match r with
      | true => change (isEqual a b) with true
      | false => change (isEqual a b) with false
      end
  end.

(** C5. With a client observing [foo], two successive [set( 'foo', 'bar' )]
    make exactly one call of the callback, provided [foo] was not ['bar']
    to begin with.  This rests on [isEqual]: primitives are compared by
    value, [null] equals [null] only, and a comparison with a container on
    either side always answers "changed". *)
Theorem exact_observer_fires_once call k props n :
  isEqual (stored "foo" (Supermodel (VObj k props))) (VStr "bar") = false ->
  (exists m',
     (observe call "foo" (Client n) false ;;
      set_keypath call "foo" (VStr "bar") false false ;;
      set_keypath call "foo" (VStr "bar") false false)
       (Supermodel (VObj k props)) = Ok RThis m'
     /\ log m' = [{| ev_callback := n; ev_value := VStr "bar";
                     ev_previous := stored "foo" (Supermodel (VObj k props));
                     ev_data := VObj k (prop_update "foo" (VStr "bar") props) |}])
  /\ (forall a b, typeof_object a = false -> typeof_object b = false ->
        (isEqual a b = true <-> a = b))
  /\ (forall a, (isEqual VNull a = true <-> a = VNull)
                /\ (isEqual a VNull = true <-> a = VNull))
  /\ (forall k' props' a,
        isEqual (VObj k' props') a = false /\ isEqual a (VObj k' props') = false).
Proof.
  intros H. repeat split.
  - change (stored "foo" (Supermodel (VObj k props)))
      with (walk (VObj k props) [KStr "foo"]) in *.
    assert (H' := H). rewrite isEqual_sym in H'.
    eexists.
    do 4 (run; rewrite ?assign_property, ?walk_property, ?H, ?H';
          simpl key_to_string; compare_known).
    split; reflexivity.
  - destruct a, b; simpl in *; try discriminate; try reflexivity; intros E.
    + f_equal. apply Bool.eqb_prop. exact E.
    + f_equal. apply Z.eqb_eq. exact E.
    + f_equal. apply String.eqb_eq. exact E.
  - intros ->. destruct b; simpl in *; try discriminate; try reflexivity.
    + apply Bool.eqb_reflx.
    + apply Z.eqb_refl.
    + apply String.eqb_refl.
  - destruct a; simpl; intros E; try discriminate E; reflexivity.
  - intros ->. reflexivity.
  - destruct a; simpl; intros E; try discriminate E; reflexivity.
  - intros ->. reflexivity.
  - destruct a; reflexivity.
Qed.

Lemma exact_observer_fires_once_witness :
  (exists m',
     (observe (setter 0) "foo" (Client 0) false ;;
      set_keypath (setter 0) "foo" (VStr "bar") false false ;;
      set_keypath (setter 0) "foo" (VStr "bar") false false)
       (Supermodel (VObj Hash [])) = Ok RThis m'
     /\ log m' = [{| ev_callback := 0; ev_value := VStr "bar";
                     ev_previous := stored "foo" (Supermodel (VObj Hash []));
                     ev_data := VObj Hash (prop_update "foo" (VStr "bar") []) |}])
  /\ (forall a b, typeof_object a = false -> typeof_object b = false ->
        (isEqual a b = true <-> a = b))
  /\ (forall a, (isEqual VNull a = true <-> a = VNull)
                /\ (isEqual a VNull = true <-> a = VNull))
  /\ (forall k' props' a,
        isEqual (VObj k' props') a = false /\ isEqual a (VObj k' props') = false).
Proof. apply (exact_observer_fires_once (setter 0) Hash [] 0). reflexivity. Defined.

(** C4. Downstream: with a client observing [foo.bar], [set( 'foo', x )]
    calls it with the new leaf [x.bar] and the previous one if the two
    differ, and not at all if they are equal.  Upstream: with a client
    observing [foo], a [set( 'foo.bar', w )] that changes the leaf calls it
    (with the container [foo] as both arguments). *)
Theorem propagation call k props x n k' props' kf fprops w :
  prop_lookup "foo" props' = Some (VObj kf fprops) ->
  isEqual (walk (VObj kf fprops) [KStr "bar"]) w = false ->
  (exists m',
     (observe call "foo.bar" (Client n) false ;;
      set_keypath call "foo" x false false) (Supermodel (VObj k props))
     = Ok RThis m'
     /\ log m'
        = if isEqual (walk x [KStr "bar"])
               (walk (VObj k props) [KStr "foo"; KStr "bar"])
          then []
          else [{| ev_callback := n; ev_value := walk x [KStr "bar"];
                   ev_previous := walk (VObj k props) [KStr "foo"; KStr "bar"];
                   ev_data := VObj k (prop_update "foo" x props) |}])
  /\ (exists m',
        (observe call "foo" (Client n) false ;;
         set_keypath call "foo.bar" w false false) (Supermodel (VObj k' props'))
        = Ok RThis m'
        /\ log m'
           = [{| ev_callback := n;
                 ev_value := VObj kf (prop_update "bar" w fprops);
                 ev_previous := VObj kf (prop_update "bar" w fprops);
                 ev_data := VObj k' (prop_update "foo"
                                       (VObj kf (prop_update "bar" w fprops))
                                       props') |}]).
Proof.
  intros Hfoo Hw. split.
  - destruct (isEqual (walk (VObj k props) [KStr "foo"]) x) eqn:G.
    + assert (L := isEqual_leaf _ _ (KStr "bar") [] G). destruct L as [L1 L2].
      change [KStr "foo"; KStr "bar"] with ([KStr "foo"] ++ [KStr "bar"]).
      rewrite walk_app, L1, L2. simpl isEqual.
      eexists.
      do 3 (run; rewrite ?assign_property, ?G; simpl key_to_string; compare_known).
      split; reflexivity.
    + destruct (isEqual (walk x [KStr "bar"])
                  (walk (VObj k props) [KStr "foo"; KStr "bar"])) eqn:G2;
      eexists;
      do 4 (run; rewrite ?assign_property, ?walk_into, ?G, ?G2;
            simpl key_to_string; compare_known);
      (split; reflexivity).
  - eexists.
    do 4 (run;
          rewrite ?(assign_into _ _ _ _ _ _ _ _ Hfoo), ?assign_property,
                  ?(walk_below _ _ _ _ _ Hfoo), ?walk_into, ?Hw;
          simpl key_to_string; compare_known).
    split; reflexivity.
Qed.

Lemma propagation_witness :
  (exists m',
     (observe (setter 0) "foo.bar" (Client 0) false ;;
      set_keypath (setter 0) "foo" (VObj Hash [("bar", VStr "baz")]) false false)
       (Supermodel (VObj Hash []))
     = Ok RThis m'
     /\ log m'
        = if isEqual (walk (VObj Hash [("bar", VStr "baz")]) [KStr "bar"])
               (walk (VObj Hash []) [KStr "foo"; KStr "bar"])
          then []
          else [{| ev_callback := 0;
                   ev_value := walk (VObj Hash [("bar", VStr "baz")]) [KStr "bar"];
                   ev_previous := walk (VObj Hash []) [KStr "foo"; KStr "bar"];
                   ev_data := VObj Hash (prop_update "foo"
                                (VObj Hash [("bar", VStr "baz")]) []) |}])
  /\ (exists m',
        (observe (setter 0) "foo" (Client 0) false ;;
         set_keypath (setter 0) "foo.bar" (VStr "boo") false false)
          (Supermodel (VObj Hash
             [("foo", VObj Hash [("a", VNum 1); ("b", VNum 2); ("bar", VStr "baz")])]))
        = Ok RThis m'
        /\ log m'
           = [{| ev_callback := 0;
                 ev_value := VObj Hash (prop_update "bar" (VStr "boo")
                               [("a", VNum 1); ("b", VNum 2); ("bar", VStr "baz")]);
                 ev_previous := VObj Hash (prop_update "bar" (VStr "boo")
                               [("a", VNum 1); ("b", VNum 2); ("bar", VStr "baz")]);
                 ev_data := VObj Hash (prop_update "foo"
                     (VObj Hash (prop_update "bar" (VStr "boo")
                        [("a", VNum 1); ("b", VNum 2); ("bar", VStr "baz")]))
                     [("foo", VObj Hash [("a", VNum 1); ("b", VNum 2); ("bar", VStr "baz")])]) |}]).
Proof.
  apply (propagation (setter 0) Hash [] (VObj Hash [("bar", VStr "baz")]) 0
           Hash [("foo", VObj Hash [("a", VNum 1); ("b", VNum 2); ("bar", VStr "baz")])]
           Hash [("a", VNum 1); ("b", VNum 2); ("bar", VStr "baz")] (VStr "boo"));
    reflexivity.
Defined.

(* ===================================================================== *)
(** ** The notification queue *)
(* ===================================================================== *)

Section QueueFacts.

Lemma remove_queued_nil cb : remove_queued cb [] = [].
Proof. reflexivity. Qed.

Lemma remove_queued_other cb item rest :
  c item <> cb -> remove_queued cb (item :: rest) = item :: remove_queued cb rest.
Proof. intros H. simpl. rewrite bool_decide_eq_false_2 by exact H. reflexivity. Qed.

Lemma remove_queued_absent cb q :
  cb ∉ map c q -> remove_queued cb q = q.
Proof.
  induction q as [|item rest IH]; [reflexivity|]. simpl. intros H.
  rewrite not_elem_of_cons in H. destruct H as [H1 H2].
  rewrite bool_decide_eq_false_2 by congruence. rewrite IH by exact H2. reflexivity.
Qed.

Lemma remove_queued_filter cb q :
  NoDup (map c q) ->
  remove_queued cb q = filter (fun item => c item <> cb) q.
Proof.
  induction q as [|item rest IH]; [reflexivity|]. simpl. intros H.
  apply NoDup_cons in H as [Hfresh Hrest].
  destruct (decide (c item = cb)) as [E|E].
  - rewrite bool_decide_eq_true_2 by exact E.
    rewrite filter_cons_False by (intros F; apply F; exact E).
    rewrite <- IH by exact Hrest. symmetry. apply remove_queued_absent.
    rewrite <- E. exact Hfresh.
  - rewrite bool_decide_eq_false_2 by exact E.
    rewrite filter_cons_True by exact E. rewrite IH by exact Hrest. reflexivity.
Qed.

Lemma dispatchQueue_clients call rounds : forall m,
  Forall client_item (_queue m) ->
  length (_queue m) <= rounds ->
  dispatchQueue call rounds m
  = Ok tt (set_log (log m ++ calls_of (_data m) (_queue m)) (set_queue [] m)).
Proof.
  induction rounds as [|rounds IH]; intros m Hall Hlen.
  - destruct m as [d o cs q ? ? ? ? l]. simpl in *. destruct q; [|simpl in Hlen; lia].
    unfold set_log, set_queue, calls_of. simpl. rewrite app_nil_r. reflexivity.
  - destruct m as [d o cs q qg cg rc gs l]. simpl in *.
    unfold bind, gets. simpl. destruct q as [|item rest].
    + unfold ret, set_log, set_queue, calls_of. simpl. rewrite app_nil_r. reflexivity.
    + inversion Hall as [|? ? [n Hn] Hrest]; subst.
      unfold modify, invoke. rewrite Hn. unfold modify. simpl.
      rewrite IH; simpl; [|exact Hrest|simpl in Hlen; lia].
      unfold set_log, set_queue, calls_of, call_of. simpl. rewrite Hn.
      simpl. rewrite <- app_assoc. reflexivity.
Qed.

End QueueFacts.

(** Run a scenario up to the point where the queue is emptied. *)
Ltac run_batch :=
  with_strategy transparent [gmap_empty]
    cbv -[isEqual walk assign prop_update prop_lookup remove_queued
          dispatchQueue calls_of].

(** C6. A batch [set( { foo: x, bar: y } )] with one client observing [foo]
    and another observing [bar], both values changing: the queue is emptied
    once the two writes are done, each callback is called exactly once, with
    its own new and previous value and seeing the tree with both writes
    applied, whichever of the two was registered first.  In general
    [_addToQueue] keeps the callbacks of the queue distinct, the new item
    last; and emptying a queue of client callbacks calls them in the order
    of the queue and leaves it empty. *)
Theorem batch_deduplication call k props nf nb x y rounds :
  nf <> nb ->
  isEqual (walk (VObj k props) [KStr "foo"]) x = false ->
  isEqual (walk (VObj k props) [KStr "bar"]) y = false ->
  let calls :=
    [{| ev_callback := nf; ev_value := x;
        ev_previous := walk (VObj k props) [KStr "foo"];
        ev_data := VObj k (prop_update "bar" y (prop_update "foo" x props)) |};
     {| ev_callback := nb; ev_value := y;
        ev_previous := walk (VObj k props) [KStr "bar"];
        ev_data := VObj k (prop_update "bar" y (prop_update "foo" x props)) |}] in
  (exists m',
     (observe call "foo" (Client nf) false ;;
      observe call "bar" (Client nb) false ;;
      set_batch call (S (S rounds)) [("foo", x); ("bar", y)] false)
       (Supermodel (VObj k props)) = Ok RThis m'
     /\ _queue m' = [] /\ log m' = calls)
  /\ (exists m',
        (observe call "bar" (Client nb) false ;;
         observe call "foo" (Client nf) false ;;
         set_batch call (S (S rounds)) [("foo", x); ("bar", y)] false)
          (Supermodel (VObj k props)) = Ok RThis m'
        /\ _queue m' = [] /\ log m' = calls)
  /\ (forall cb value previous m,
        NoDup (map c (_queue m)) ->
        let queue' := filter (fun item => c item <> cb) (_queue m)
                        ++ [{| c := cb; v := value; p := previous |}] in
        _addToQueue cb value previous m = Ok tt (set_queue queue' m)
        /\ NoDup (map c queue'))
  /\ (forall m budget,
        Forall client_item (_queue m) ->
        length (_queue m) <= budget ->
        dispatchQueue call budget m
        = Ok tt (set_log (log m ++ calls_of (_data m) (_queue m))
                   (set_queue [] m))).
Proof.
  intros Hn Hx Hy calls. subst calls.
  assert (Hx' := Hx). rewrite isEqual_sym in Hx'.
  assert (Hy' := Hy). rewrite isEqual_sym in Hy'.
  assert (Hc : Client nf <> Client nb) by congruence.
  split; [|split; [|split]].
  1, 2: eexists;
    do 4 (run_batch;
          rewrite ?assign_property, ?walk_property, ?Hx, ?Hx'; simpl key_to_string;
          rewrite ?walk_beside by discriminate;
          rewrite ?Hy, ?Hy', ?remove_queued_nil;
          rewrite ?remove_queued_other by exact Hc;
          compare_known);
    (rewrite dispatchQueue_clients;
     [ run_batch; repeat split; reflexivity
     | repeat constructor; eexists; reflexivity
     | simpl; lia ]).
  - intros cb value previous m Hnd queue'. subst queue'. split.
    + unfold _addToQueue, modify. rewrite remove_queued_filter by exact Hnd.
      reflexivity.
    + rewrite map_app. simpl. apply NoDup_app. split; [|split].
      * clear - Hnd. induction (_queue m) as [|item rest IH]; [constructor|].
        simpl in Hnd. apply NoDup_cons in Hnd as [Hfresh Hrest].
        destruct (decide (c item <> cb)) as [E|E].
        -- rewrite filter_cons_True by exact E. simpl. apply NoDup_cons. split.
           ++ intros Hin. apply Hfresh. apply list_elem_of_fmap in Hin.
              destruct Hin as (it & Hit & Hmem). apply list_elem_of_fmap.
              exists it. split; [exact Hit|].
              apply list_elem_of_filter in Hmem. apply Hmem.
           ++ apply IH. exact Hrest.
        -- rewrite filter_cons_False by exact E. apply IH. exact Hrest.
      * intros cb' Hin Hlast. apply list_elem_of_singleton in Hlast. subst cb'.
        apply list_elem_of_fmap in Hin. destruct Hin as (it & Hit & Hmem).
        apply list_elem_of_filter in Hmem. destruct Hmem as [Hne _].
        apply Hne. symmetry. exact Hit.
      * apply NoDup_singleton.
  - intros m budget. apply dispatchQueue_clients.
Qed.

Lemma batch_deduplication_witness :
  0 <> 1
  /\ exists m',
       (observe (setter 0) "foo" (Client 0) false ;;
        observe (setter 0) "bar" (Client 1) false ;;
        set_batch (setter 0) 2 [("foo", VStr "baz"); ("bar", VStr "foo")] false)
         (Supermodel (VObj Hash [("foo", VStr "bar"); ("bar", VStr "baz")]))
       = Ok RThis m'
       /\ _queue m' = []
       /\ log m' =
          [{| ev_callback := 0; ev_value := VStr "baz"; ev_previous := VStr "bar";
              ev_data := VObj Hash [("foo", VStr "baz"); ("bar", VStr "foo")] |};
           {| ev_callback := 1; ev_value := VStr "foo"; ev_previous := VStr "baz";
              ev_data := VObj Hash [("foo", VStr "baz"); ("bar", VStr "foo")] |}].
Proof.
  split; [discriminate|].
  exact (proj1 (batch_deduplication (setter 0) Hash
                  [("foo", VStr "bar"); ("bar", VStr "baz")] 0 1
                  (VStr "baz") (VStr "foo") 0
                  ltac:(discriminate) eq_refl eq_refl)).
Defined.

(* ===================================================================== *)
(** ** Writing, then reading *)
(* ===================================================================== *)

Section RoundTrip.

Lemma walk_into_key k props key x rest :
  walk (VObj k (prop_update (key_to_string key) x props)) (key :: rest)
  = walk x rest.
Proof. rewrite walk_step. simpl. rewrite prop_lookup_update. reflexivity. Qed.

Lemma setProp_some obj name x d :
  setProp obj name x = Some d ->
  exists k props, obj = VObj k props /\ d = VObj k (prop_update name x props).
Proof. destruct obj; simpl; intros H; inversion H; eauto. Qed.

Lemma assign_cons obj k next rest x :
  assign obj (k :: next :: rest) x
  = match getProp obj (key_to_string k) with
    | None => None
    | Some child =>
        if falsy child then
          match setProp obj (key_to_string k) (new_branch next) with
          | None => None
          | Some _ =>
              match assign (new_branch next) (next :: rest) x with
              | None => None
              | Some branch' => setProp obj (key_to_string k) branch'
              end
          end
        else
          match assign child (next :: rest) x with
          | None => None
          | Some child' => setProp obj (key_to_string k) child'
          end
    end.
Proof. reflexivity. Qed.

Lemma writable_cons kd props k next rest :
  writable (VObj kd props) (k :: next :: rest)
  = match prop_lookup (key_to_string k) props with
    | Some child => if falsy child then true else writable child (next :: rest)
    | None => true
    end.
Proof. reflexivity. Qed.

(** What was assigned is what the walk finds. *)
Lemma walk_assign keys : forall obj x d,
  keys <> [] -> assign obj keys x = Some d -> walk d keys = x.
Proof.
  induction keys as [|k rest IH]; intros obj x d Hne H; [congruence|].
  destruct rest as [|next rest].
  - simpl in H. apply setProp_some in H as (kd & props & -> & ->).
    apply walk_into_key.
  - rewrite assign_cons in H.
    destruct (getProp obj (key_to_string k)) as [child|]; [|discriminate].
    destruct (falsy child).
    + destruct (setProp obj (key_to_string k) _) eqn:E1; [|discriminate].
      destruct (assign (new_branch next) (next :: rest) x) as [branch'|] eqn:E2;
        [|discriminate].
      apply setProp_some in H as (kd & props & -> & ->).
      rewrite walk_into_key. eapply IH; [discriminate | exact E2].
    + destruct (assign child (next :: rest) x) as [child'|] eqn:E2; [|discriminate].
      apply setProp_some in H as (kd & props & -> & ->).
      rewrite walk_into_key. eapply IH; [discriminate | exact E2].
Qed.

(** A new branch takes any write. *)
Lemma assign_new_branch keys : forall kd x, exists d, assign (VObj kd []) keys x = Some d.
Proof.
  induction keys as [|k rest IH]; intros kd x; [simpl; eauto|].
  destruct rest as [|next rest]; [simpl; eauto|].
  rewrite assign_cons.
  replace (getProp (VObj kd []) (key_to_string k)) with (Some VUndef) by reflexivity.
  change (falsy VUndef) with true. cbv iota.
  assert (E : new_branch next = VObj (if numeric_key next then Array else Hash) [])
    by (unfold new_branch; destruct (numeric_key next); reflexivity).
  rewrite E. destruct (IH (if numeric_key next then Array else Hash) x) as [d ->].
  simpl. eauto.
Qed.

Lemma assign_below_new_branch next rest x :
  exists d, assign (new_branch next) (next :: rest) x = Some d.
Proof. unfold new_branch. destruct (numeric_key next); apply assign_new_branch. Qed.

(** [assign] succeeds exactly on the writable paths: elsewhere [set] throws
    a TypeError. *)
Lemma assign_writable keys : forall obj x,
  writable obj keys = true <-> exists d, assign obj keys x = Some d.
Proof.
  induction keys as [|k rest IH]; intros obj x.
  - destruct obj; simpl; split; intros H; try discriminate; eauto;
      destruct H as [d H]; discriminate.
  - destruct rest as [|next rest].
    + destruct obj; simpl; split; intros H; try discriminate; eauto;
        destruct H as [d H]; discriminate.
    + destruct obj as [| | | | |kd props];
        try (split; [discriminate | intros [d H]; discriminate]).
      rewrite assign_cons, writable_cons. simpl getProp.
      destruct (prop_lookup (key_to_string k) props) as [child|]; simpl default.
      * destruct (falsy child).
        -- split; [intros _|reflexivity]. simpl setProp.
           destruct (assign_below_new_branch next rest x) as [d ->]. eauto.
        -- rewrite (IH child x). split; intros [d Hd].
           ++ rewrite Hd. simpl. eauto.
           ++ destruct (assign child (next :: rest) x); [eauto | discriminate].
      * split; [intros _|reflexivity]. simpl falsy. cbn iota. simpl setProp.
        destruct (assign_below_new_branch next rest x) as [d ->]. eauto.
Qed.

Lemma writable_new_tree keys : writable (VObj Hash []) keys = true.
Proof. destruct keys as [|k [|next rest]]; reflexivity. Qed.

Lemma quiet_refl m : quiet m m.
Proof. repeat split. Qed.

Lemma quiet_trans m1 m2 m3 : quiet m1 m2 -> quiet m2 m3 -> quiet m1 m3.
Proof.
  intros (A1 & A2 & A3 & A4) (B1 & B2 & B3 & B4).
  repeat split; congruence.
Qed.

Lemma inert_quiet m m' : inert m -> quiet m m' -> inert m'.
Proof.
  intros [H1 H2] (_ & Ho & Hc & _). split.
  - rewrite Hc. exact H1.
  - rewrite Ho. exact H2.
Qed.

Lemma refreshes_inert keypath m : inert m -> refreshes keypath m = false.
Proof.
  intros [H _]. unfold refreshes. rewrite H, lookup_empty.
  rewrite andb_false_r. reflexivity.
Qed.

Variable call : string -> M unit.

Lemma deliver_client n x y m :
  exists m', deliver call (Client n) x y m = Ok tt m' /\ quiet m m'.
Proof.
  unfold deliver, bind, gets. destruct (queueing m).
  - eexists. split; [reflexivity|]. repeat split.
  - eexists. split; [reflexivity|]. repeat split.
Qed.

Lemma notify_observer_inert keypath x force o m :
  inert m -> client_observer o ->
  exists m', notify_observer call keypath x force o m = Ok tt m' /\ quiet m m'.
Proof.
  intros Hm [n Hn]. unfold notify_observer, bind, gets, modify.
  assert (Hget : exists a,
    (if String.eqb keypath (originalKeypath o) then ret x
     else get call (originalKeypath o)) m = Ok a m).
  { destruct (String.eqb keypath (originalKeypath o)); [eexists; reflexivity|].
    eexists. apply get_no_refresh. apply refreshes_inert. exact Hm. }
  destruct Hget as [a ->].
  destruct (negb force && isEqual a (group_previousValue (group o) m)).
  - eexists. split; [reflexivity|]. repeat split.
  - rewrite Hn. edestruct deliver_client as (m' & -> & Hq).
    eexists. split; [reflexivity|].
    eapply quiet_trans; [|exact Hq]. repeat split.
Qed.

Lemma for_each_inert {A} (f : A -> M unit) (good : A -> Prop) l : forall m,
  (forall a m, good a -> inert m -> exists m', f a m = Ok tt m' /\ quiet m m') ->
  Forall good l -> inert m ->
  exists m', for_each f l m = Ok tt m' /\ quiet m m'.
Proof.
  induction l as [|a rest IH]; intros m Hf Hall Hm.
  - eexists. split; [reflexivity | apply quiet_refl].
  - inversion Hall as [|? ? Ha Hrest]; subst. simpl. unfold bind.
    destruct (Hf a m Ha Hm) as (m1 & -> & Hq1).
    destruct (IH m1 Hf Hrest (inert_quiet _ _ Hm Hq1)) as (m2 & -> & Hq2).
    eexists. split; [reflexivity|]. eapply quiet_trans; eassumption.
Qed.

Lemma notify_upstream_inert keypath m :
  inert m ->
  exists m', notify_upstream call keypath m = Ok tt m' /\ quiet m m'.
Proof.
  intros Hm. unfold notify_upstream, bind, gets.
  destruct (_observers m !! keypath) as [l|] eqn:E.
  - apply (for_each_inert _ client_observer); [| |exact Hm].
    + intros o m0 [n Hn] Hm0.
      destruct (String.eqb (observedKeypath o) (originalKeypath o)).
      * unfold bind. rewrite get_no_refresh by (apply refreshes_inert; exact Hm0).
        rewrite Hn. apply deliver_client.
      * eexists. split; [reflexivity | apply quiet_refl].
    + apply Forall_rev. destruct Hm as [_ Hm]. exact (Hm _ _ E).
  - eexists. split; [reflexivity | apply quiet_refl].
Qed.

Lemma notifyObservers_inert keypath x force m :
  inert m ->
  exists m', _notifyObservers call keypath x force m = Ok tt m' /\ quiet m m'.
Proof.
  intros Hm. unfold _notifyObservers, bind, gets.
  destruct (for_each_inert (notify_observer call keypath x force) client_observer
              (default [] (_observers m !! keypath)) m) as (m1 & -> & Hq1).
  - intros o m0 Ho Hm0. apply notify_observer_inert; assumption.
  - destruct (_observers m !! keypath) as [l|] eqn:E; simpl; [|constructor].
    destruct Hm as [_ Hm]. exact (Hm _ _ E).
  - exact Hm.
  - destruct (for_each_inert (notify_upstream call) (fun _ => True)
                (upstream_keypaths keypath) m1) as (m2 & -> & Hq2).
    + intros kp m0 _ Hm0. apply notify_upstream_inert. exact Hm0.
    + apply Forall_forall. intros; exact I.
    + exact (inert_quiet _ _ Hm Hq1).
    + eexists. split; [reflexivity|]. eapply quiet_trans; eassumption.
Qed.

End RoundTrip.

(** C8 (as the code has it). On an instance without computed values, for
    an ordinary keypath that is not empty and does not cross a primitive,
    [set] returns and [get] then reads the value that was set; branches
    that are missing (or falsy) on the way are created by the [set]. *)
Theorem set_get_roundtrip call keypath value silent force m :
  keypath <> "" ->
  ordinary keypath ->
  inert m ->
  writable (_data m) (splitKeypath keypath) = true ->
  exists m',
    set_keypath call keypath value silent force m = Ok RThis m'
    /\ get call keypath m' = Ok value m'.
Proof.
  intros Hne _ Hm Hw.
  apply (assign_writable _ _ value) in Hw as [d Hd].
  assert (Hstored : forall m', _data m' = d -> inert m' ->
            get call keypath m' = Ok value m').
  { intros m' Hd' Hm'. rewrite get_no_refresh by (apply refreshes_inert; exact Hm').
    unfold stored. destruct (String.eqb_spec keypath ""); [congruence|].
    rewrite Hd'. f_equal. eapply walk_assign; [apply splitKeypath_nonempty | exact Hd]. }
  unfold set_keypath, bind, gets, modify.
  destruct Hm as [Hc Ho]. rewrite Hc, lookup_empty. unfold ret at 1.
  rewrite get_no_refresh
    by (unfold refreshes; simpl; rewrite andb_false_r; reflexivity).
  change (_data (set_referToCache false (set_referToCache true m)))
    with (_data m).
  rewrite Hd. unfold ret.
  set (m1 := set_data d (set_referToCache false (set_referToCache true m))).
  assert (Hm1 : inert m1) by (split; assumption).
  destruct (negb silent && (force || negb (isEqual _ value))).
  - destruct (notifyObservers_inert call (join_keys (splitKeypath keypath))
                value force m1 Hm1) as (m2 & -> & Hq).
    eexists. split; [reflexivity|].
    apply Hstored; [destruct Hq as [-> _]; reflexivity | exact (inert_quiet _ _ Hm1 Hq)].
  - eexists. split; [reflexivity|]. apply Hstored; [reflexivity | exact Hm1].
Qed.

Lemma set_get_roundtrip_witness :
  exists m',
    set_keypath (setter 0) "a.b[0].c" (VStr "baz") false false foo_model = Ok RThis m'
    /\ get (setter 0) "a.b[0].c" m' = Ok (VStr "baz") m'.
Proof.
  apply (set_get_roundtrip (setter 0) "a.b[0].c" (VStr "baz") false false foo_model).
  - discriminate.
  - vm_compute. reflexivity.
  - split; [reflexivity|].
    apply (bool_decide_eq_true_1
             (map_Forall (fun _ l => Forall client_observer l)
                (_observers foo_model))).
    vm_compute. reflexivity.
  - reflexivity.
Defined.

(** C8 (as stated) fails at the empty keypath, where [set] writes the
    property [""] of the root and [get] answers [undefined] at once; and
    where the keypath crosses a primitive, [set] throws and writes nothing.
    It fails with computed values too: a [set] of a read-only one throws,
    and a [set] below a computed value that the keypath triggers is
    overwritten by the recomputation before [get] reads it. *)
Lemma set_get_roundtrip_counterexample :
  (exists m',
     set_keypath (setter 0) "" (VNum 5) false false (Supermodel VUndef) = Ok RThis m'
     /\ _data m' = VObj Hash [("", VNum 5)]
     /\ get (setter 0) "" m' = Ok VUndef m')
  /\ set_keypath (setter 0) "a.b" (VNum 2) false false
       (Supermodel (VObj Hash [("a", VNum 1)]))
     = Throw TypeError (Supermodel (VObj Hash [("a", VNum 1)]))
  /\ set_keypath (setter 2) "sum" (VNum 9) false false sum_model
     = Throw (ReadonlyViolation "sum") sum_model
  /\ (exists m',
        set_keypath (setter 3) "a.b" (VNum 1) false false overwriting_model
        = Ok RThis m'
        /\ _data m' = VObj Hash [("a", VNum 0)]
        /\ get (setter 3) "a.b" m' = Ok VUndef m').
Proof.
  split; [eexists; split; [|split]|]; [vm_compute; reflexivity ..|].
  split; [vm_compute; reflexivity|].
  split; [vm_compute; reflexivity|].
  eexists; split; [|split]; vm_compute; reflexivity.
Qed.

(* ===================================================================== *)
(** ** Cancelling observers, replacing a computed value *)
(* ===================================================================== *)

Section Cancelling.

Lemma remove_first_sublist o l : sublist (remove_first o l) l.
Proof.
  induction l as [|x rest IH]; simpl; [constructor|].
  destruct (bool_decide (x = o)).
  - apply sublist_cons. reflexivity.
  - apply sublist_skip. exact IH.
Qed.

Lemma remove_first_gone o l : NoDup l -> o ∉ remove_first o l.
Proof.
  induction l as [|x rest IH]; simpl; intros Hnd; [apply not_elem_of_nil|].
  apply NoDup_cons in Hnd as [Hx Hrest].
  destruct (decide (x = o)) as [->|Hne].
  - rewrite bool_decide_eq_true_2 by reflexivity. exact Hx.
  - rewrite bool_decide_eq_false_2 by exact Hne.
    apply not_elem_of_cons. split; [congruence | apply IH; exact Hrest].
Qed.

Lemma shrinks_refl m : shrinks m m.
Proof. intros kp l H. exists l. split; [exact H | reflexivity]. Qed.

Lemma shrinks_trans m1 m2 m3 : shrinks m1 m2 -> shrinks m2 m3 -> shrinks m1 m3.
Proof.
  intros H12 H23 kp l3 H3. destruct (H23 _ _ H3) as (l2 & H2 & S23).
  destruct (H12 _ _ H2) as (l1 & H1 & S12).
  exists l1. split; [exact H1 | etransitivity; eassumption].
Qed.

Lemma shrinks_distinct m m' :
  shrinks m m' -> distinct_observers m -> distinct_observers m'.
Proof.
  intros Hs Hd kp l' H'. destruct (Hs _ _ H') as (l & Hl & Hsub).
  eapply sublist_NoDup; [exact (Hd _ _ Hl) | exact Hsub].
Qed.

Lemma shrinks_unsubscribed o m m' :
  shrinks m m' -> unsubscribed o m -> unsubscribed o m'.
Proof.
  intros Hs Hu l' H' Hin. destruct (Hs _ _ H') as (l & Hl & Hsub).
  apply (Hu l Hl). eapply elem_of_sublist; eassumption.
Qed.

Lemma unobserve_one_spec o m :
  distinct_observers m ->
  exists m',
    unobserve_one o m = Ok tt m'
    /\ shrinks m m' /\ unsubscribed o m'
    /\ same_store m m' /\ groups m' = groups m.
Proof.
  intros Hd. unfold unobserve_one, modify. eexists. split; [reflexivity|].
  destruct (_observers m !! standardise (observedKeypath o)) as [l|] eqn:E.
  - destruct (decide (o ∈ l)) as [Hin|Hout].
    + rewrite bool_decide_eq_true_2 by exact Hin.
      pose proof (remove_first_sublist o l) as Hsub.
      pose proof (remove_first_gone o l (Hd _ _ E)) as Hgone.
      destruct (remove_first o l) as [|x rest] eqn:R.
      * repeat split.
        -- intros kp l' H'. simpl in H'.
           destruct (decide (kp = standardise (observedKeypath o))) as [->|Hne].
           ++ rewrite lookup_delete_eq in H'. discriminate.
           ++ rewrite lookup_delete_ne in H' by congruence.
              exists l'. split; [exact H' | reflexivity].
        -- intros l' H'. simpl in H'. rewrite lookup_delete_eq in H'. discriminate.
      * repeat split.
        -- intros kp l' H'. simpl in H'.
           destruct (decide (kp = standardise (observedKeypath o))) as [->|Hne].
           ++ rewrite lookup_insert_eq in H'. inversion H'; subst.
              exists l. split; [exact E | exact Hsub].
           ++ rewrite lookup_insert_ne in H' by congruence.
              exists l'. split; [exact H' | reflexivity].
        -- intros l' H'. simpl in H'. rewrite lookup_insert_eq in H'.
           inversion H'; subst. exact Hgone.
    + rewrite bool_decide_eq_false_2 by exact Hout. repeat split.
      * apply shrinks_refl.
      * intros l' H'. rewrite E in H'. inversion H'; subst. exact Hout.
  - repeat split.
    + apply shrinks_refl.
    + intros l' H'. rewrite E in H'. discriminate.
Qed.

Lemma members_of_update_group gid f g m :
  g <> gid -> members_of g (update_group gid f m) = members_of g m.
Proof.
  intros Hne. unfold members_of, update_group. simpl.
  rewrite list_lookup_alter_ne by congruence. reflexivity.
Qed.

Lemma unobserve_loop_spec gid l : forall m,
  distinct_observers m ->
  exists m',
    for_each (fun o =>
      modify (update_group gid (fun grp => with_members (tail (members grp)) grp)) ;;
      unobserve_one o) l m = Ok tt m'
    /\ shrinks m m' /\ (forall o, o ∈ l -> unsubscribed o m')
    /\ same_store m m'
    /\ (forall g, g <> gid -> members_of g m' = members_of g m).
Proof.
  induction l as [|o rest IH]; intros m Hd.
  - exists m. split; [reflexivity|]. split; [apply shrinks_refl|].
    split; [intros o Ho; inversion Ho|]. repeat split.
  - simpl. unfold bind at 1. unfold bind at 1. unfold modify at 1.
    set (m0 := update_group gid _ m).
    assert (Hd0 : distinct_observers m0) by exact Hd.
    destruct (unobserve_one_spec o m0 Hd0) as (m1 & -> & Hs1 & Hu1 & (A1 & A2 & A3) & Hg1).
    destruct (IH m1 (shrinks_distinct _ _ Hs1 Hd0))
      as (m2 & -> & Hs2 & Hu2 & (B1 & B2 & B3) & Hg2).
    exists m2. split; [reflexivity|]. split; [|split; [|split]].
    + eapply shrinks_trans; [|exact Hs2]. exact Hs1.
    + intros o' Ho'. apply elem_of_cons in Ho' as [->|Ho'].
      * eapply shrinks_unsubscribed; [exact Hs2 | exact Hu1].
      * apply Hu2. exact Ho'.
    + repeat split; [rewrite B1, A1 | rewrite B2, A2 | rewrite B3, A3]; reflexivity.
    + intros g Hne. rewrite (Hg2 g Hne). unfold members_of. rewrite Hg1.
      apply (members_of_update_group gid _ g m Hne).
Qed.

Lemma unobserve_spec gid m :
  distinct_observers m ->
  exists m',
    unobserve (Some gid) m = Ok tt m'
    /\ shrinks m m' /\ (forall o, o ∈ members_of gid m -> unsubscribed o m')
    /\ same_store m m'
    /\ (forall g, g <> gid -> members_of g m' = members_of g m).
Proof.
  intros Hd. unfold unobserve, bind, gets.
  apply (unobserve_loop_spec gid (members_of gid m) m Hd).
Qed.

(** The loop of [removeComputedValue] over groups that are all there. *)
Lemma remove_loop_spec id (l : list nat) : forall m,
  distinct_observers m ->
  exists m',
    for_each (fun g =>
      modify (update_computed id (fun cv' =>
        with_observerGroups (removelast (observerGroups cv')) cv')) ;;
      unobserve g) (map Some l) m = Ok tt m'
    /\ shrinks m m'
    /\ (forall g o, g ∈ l -> o ∈ members_of g m -> unsubscribed o m')
    /\ _data m' = _data m /\ log m' = log m.
Proof.
  induction l as [|g0 rest IH]; intros m Hd.
  - exists m. split; [reflexivity|]. split; [apply shrinks_refl|].
    split; [intros g o Hg; inversion Hg|]. split; reflexivity.
  - cbn [for_each map]. unfold bind at 1. unfold bind at 1. unfold modify at 1.
    set (m0 := update_computed id _ m).
    assert (Hd0 : distinct_observers m0) by exact Hd.
    destruct (unobserve_spec g0 m0 Hd0) as (m1 & -> & Hs1 & Hu1 & (A1 & A2 & A3) & Hg1).
    destruct (IH m1 (shrinks_distinct _ _ Hs1 Hd0)) as (m2 & -> & Hs2 & Hu2 & B1 & B3).
    exists m2. split; [reflexivity|]. split; [|split; [|split]].
    + eapply shrinks_trans; [|exact Hs2]. exact Hs1.
    + intros g o Hg Ho. destruct (decide (g = g0)) as [->|Hne].
      * eapply shrinks_unsubscribed; [exact Hs2|]. apply Hu1. exact Ho.
      * apply elem_of_cons in Hg as [->|Hg]; [congruence|].
        apply (Hu2 g o Hg). rewrite (Hg1 g Hne). exact Ho.
    + rewrite B1, A1. reflexivity.
    + rewrite B3, A3. reflexivity.
Qed.

End Cancelling.

(** C10. When [compute] is called for an id that already has a computed
    value (all of whose observer groups are there) and the new options name
    the id among its own triggers, the call throws the self-trigger error
    out of the instance that [removeComputedValue] left: the observers of the
    old value's groups are cancelled, nothing is registered under the id,
    and the tree still holds the last value. *)
Theorem replacement_is_not_atomic call id o cv gs m :
  _computed m !! id = Some cv ->
  observerGroups cv = map Some gs ->
  distinct_observers m ->
  indexOf id (trigger_list o) <> None ->
  exists m',
    compute call id o m = Throw SelfTrigger m'
    /\ removeComputedValue id m = Ok tt m'
    /\ _computed m' !! id = None
    /\ (forall g ob, g ∈ gs -> ob ∈ members_of g m -> unsubscribed ob m')
    /\ _data m' = _data m.
Proof.
  intros Hc Hgs Hd Hself.
  destruct (remove_loop_spec id (rev gs) m Hd) as (m1 & Hloop & Hs & Hu & Hdata & _).
  assert (Hremove : removeComputedValue id m
                    = Ok tt (set_computed (delete id (_computed m1)) m1)).
  { unfold removeComputedValue. unfold bind, gets in Hloop |- *.
    rewrite Hc. cbv beta iota. rewrite Hgs, <- map_rev, Hloop. reflexivity. }
  exists (set_computed (delete id (_computed m1)) m1).
  split; [|split; [exact Hremove|split; [|split]]].
  - unfold compute, bind, gets. rewrite Hc. cbv beta iota. rewrite Hremove.
    destruct (indexOf id (trigger_list o)); [reflexivity | congruence].
  - simpl. apply lookup_delete_eq.
  - intros g ob Hg Hob l Hl. simpl in Hl.
    apply (Hu g ob); [|exact Hob | exact Hl].
    apply list_elem_of_In, in_rev, list_elem_of_In.
    rewrite rev_involutive. exact Hg.
  - exact Hdata.
Qed.

Lemma replacement_is_not_atomic_witness :
  exists m',
    compute (setter 2) "sum"
      {| opt_fn := add_numbers; opt_triggers := Triggers ["x"; "sum"];
         opt_trigger := NoTrigger; opt_cache := VUndef; opt_readonly := VUndef |}
      sum_model = Throw SelfTrigger m'
    /\ removeComputedValue "sum" sum_model = Ok tt m'
    /\ _computed m' !! "sum" = None
    /\ (forall g ob, g ∈ [0; 1] -> ob ∈ members_of g sum_model -> unsubscribed ob m')
    /\ _data m' = _data sum_model.
Proof.
  eapply (replacement_is_not_atomic (setter 2) "sum" _ _ [0; 1] sum_model).
  - vm_compute. reflexivity.
  - vm_compute. reflexivity.
  - apply (bool_decide_eq_true_1 (distinct_observers sum_model)).
    vm_compute. reflexivity.
  - vm_compute. discriminate.
Defined.

(* ===================================================================== *)
(** ** More on the keypath parser *)
(* ===================================================================== *)

Section NotationFacts.

Lemma concat_split_on sep s :
  String.concat (String sep EmptyString) (split_on sep s) = s.
Proof.
  induction s as [|x t IH]; [reflexivity|]. simpl.
  destruct (Ascii.eqb_spec x sep) as [->|Hne].
  - change (String.concat (String sep "") ("" :: split_on sep t))
      with (match split_on sep t with
            | [] => ""
            | _ :: _ => "" +:+ String sep "" +:+ String.concat (String sep "") (split_on sep t)
            end).
    pose proof (split_on_nonempty sep t).
    destruct (split_on sep t) eqn:E; [congruence|].
    rewrite IH. reflexivity.
  - pose proof (split_on_nonempty sep t).
    destruct (split_on sep t) as [|h r] eqn:E; [congruence|].
    rewrite <- IH. destruct r; reflexivity.
Qed.

Lemma split_on_keeps_out ch sep s :
  has_char ch s = false ->
  Forall (fun piece => has_char ch piece = false) (split_on sep s).
Proof.
  induction s as [|x t IH]; simpl; intros H.
  - repeat constructor.
  - apply orb_false_iff in H as [Hx Ht]. specialize (IH Ht).
    destruct (Ascii.eqb x sep).
    + constructor; [reflexivity | exact IH].
    + destruct (split_on sep t) as [|h r].
      * constructor; [simpl; rewrite Hx; reflexivity | constructor].
      * inversion IH; subst. constructor; [|assumption].
        simpl. rewrite Hx. assumption.
Qed.

Lemma break_at_first name rest :
  has_char "["%char name = false ->
  break_at "["%char (name +:+ String "["%char rest)
  = Some (name, String "["%char rest).
Proof.
  induction name as [|x t IH]; simpl; intros H; [reflexivity|].
  apply orb_false_iff in H as [Hx Ht].
  change (String x t +:+ String "[" rest) with (String x (t +:+ String "[" rest)).
  simpl. rewrite Hx, (IH Ht). reflexivity.
Qed.

Lemma span_digits_run d rest :
  all_digits d = true ->
  span_digits (d +:+ String "]"%char rest) = (d, String "]"%char rest).
Proof.
  induction d as [|x t IH]; simpl; intros H; [reflexivity|].
  apply andb_true_iff in H as [Hx Ht].
  change (String x t +:+ String "]" rest) with (String x (t +:+ String "]" rest)).
  simpl. rewrite Hx, (IH Ht). reflexivity.
Qed.

Lemma exec_at_head d rest :
  digits d ->
  arrayNotationPattern_exec (String "["%char (d +:+ String "]"%char rest)) = Some d.
Proof.
  intros [Hne Hd]. unfold arrayNotationPattern_exec, match_here.
  change (Ascii.eqb "[" "[") with true. cbv iota.
  rewrite (span_digits_run d rest Hd).
  destruct d; [congruence|]. reflexivity.
Qed.

Lemma string_drop_app d rest :
  string_drop (String.length d) (d +:+ rest) = rest.
Proof. induction d as [|x t IH]; [destruct rest; reflexivity | exact IH]. Qed.

Lemma string_drop_match d rest :
  string_drop (String.length d + 2) (String "["%char (d +:+ String "]"%char rest))
  = rest.
Proof.
  replace (String.length d + 2) with (S (String.length (d +:+ "]"))).
  - simpl. replace (d +:+ String "]" rest) with ((d +:+ "]") +:+ rest).
    + apply string_drop_app.
    + clear. induction d as [|x t IH]; [reflexivity|].
      change ((String x t +:+ "]") +:+ rest) with (String x ((t +:+ "]") +:+ rest)).
      rewrite IH. reflexivity.
  - clear. induction d as [|x t IH]; [reflexivity|].
    change (String x t +:+ "]") with (String x (t +:+ "]")). simpl in *. lia.
Qed.

Lemma pointer_loop_brackets ds : forall rounds result,
  Forall digits ds ->
  String.length (brackets ds) <= rounds ->
  pointer_loop rounds (brackets ds) result
  = result ++ map (fun d => KNum (digits_value 0 d)) ds.
Proof.
  induction ds as [|d rest IH]; intros rounds result Hall Hlen.
  - destruct rounds; simpl; rewrite app_nil_r; reflexivity.
  - inversion Hall as [|? ? Hd Hrest]; subst.
    destruct rounds as [|rounds]; [simpl in Hlen; lia|].
    cbn [pointer_loop brackets].
    rewrite (exec_at_head d (brackets rest) Hd), string_drop_match.
    rewrite IH; [rewrite <- app_assoc; reflexivity | exact Hrest |].
    cbn [brackets] in Hlen. simpl in Hlen.
    assert (String.length (brackets rest) <= String.length (d +:+ String "]" (brackets rest))).
    { clear. induction d as [|x t IH]; simpl; [lia|].
      change (String x t +:+ String "]" (brackets rest))
        with (String x (t +:+ String "]" (brackets rest))).
      simpl. lia. }
    lia.
Qed.

Lemma exec_needs_closing s :
  has_char "]"%char s = false -> arrayNotationPattern_exec s = None.
Proof.
  induction s as [|x t IH]; intros H; [reflexivity|].
  simpl in H. apply orb_false_iff in H as [Hx Ht].
  cbn [arrayNotationPattern_exec]. rewrite (IH Ht).
  assert (Hspan : forall u, has_char "]"%char u = false ->
            forall c' r, snd (span_digits u) <> String c' r \/ Ascii.eqb c' "]"%char = false).
  { clear. induction u as [|y u IH]; simpl; intros H c' r; [left; discriminate|].
    apply orb_false_iff in H as [Hy Hu].
    destruct (is_digit y).
    - destruct (span_digits u) as [d r'] eqn:E. simpl.
      specialize (IH Hu c' r). simpl in IH. exact IH.
    - simpl. destruct (Ascii.eqb_spec c' "]"%char) as [->|]; [|right; reflexivity].
      left. intros E. inversion E; subst. rewrite Ascii.eqb_refl in Hy. discriminate. }
  unfold match_here. destruct (Ascii.eqb x "["%char); [|reflexivity].
  destruct (span_digits t) as [d r] eqn:E.
  destruct d as [|dc ds]; [reflexivity|]. destruct r as [|c' r']; [reflexivity|].
  destruct (Hspan t Ht c' r') as [Hn|Hn]; [rewrite E in Hn; simpl in Hn; congruence|].
  rewrite Hn. reflexivity.
Qed.

Lemma standardise_bracket_free p :
  has_char "["%char p = false -> standardise p = p.
Proof.
  intros H. unfold standardise, splitKeypath, join_keys.
  pose proof (split_on_keeps_out "["%char "."%char p H) as Hall.
  rewrite <- (concat_split_on "."%char p) at 2.
  f_equal. induction Hall as [|x r Hx Hr IH]; [reflexivity|].
  simpl. rewrite (parseArrayNotation_plain x Hx). simpl. rewrite IH. reflexivity.
Qed.

End NotationFacts.

(** X1. A keypath written without brackets is in standard form already:
    [standardise] gives it back as it is, periods, empty segments and
    all. *)
Theorem standardise_dot_notation p :
  has_char "["%char p = false -> standardise p = p.
Proof. apply standardise_bracket_free. Qed.

Lemma standardise_dot_notation_witness : standardise "foo..bar.0" = "foo..bar.0".
Proof. apply standardise_dot_notation. reflexivity. Defined.

(** X2. A key in array notation, a name followed by bracketed runs of
    digits, is split into the name and one number per bracket pair, from
    left to right; the numbers are below 2^53, where [+match[1]] is the
    number its digits spell. *)
Theorem parseArrayNotation_brackets name ds :
  has_char "["%char name = false ->
  Forall digits ds ->
  Forall (fun d => (digits_value 0 d < 9007199254740992)%N) ds ->
  ds <> [] ->
  parseArrayNotation (name +:+ brackets ds)
  = KStr name :: map (fun d => KNum (digits_value 0 d)) ds.
Proof.
  intros Hname Hds _ Hne. destruct ds as [|d rest]; [congruence|].
  unfold parseArrayNotation. cbn [brackets].
  rewrite (break_at_first name _ Hname).
  change (String "[" (d +:+ String "]" (brackets rest))) with (brackets (d :: rest)).
  rewrite pointer_loop_brackets; [reflexivity | exact Hds | lia].
Qed.

Lemma parseArrayNotation_brackets_witness :
  parseArrayNotation ("baz" +:+ brackets ["0"; "12"; "007"])
  = KStr "baz" :: map (fun d => KNum (digits_value 0 d)) ["0"; "12"; "007"].
Proof.
  apply parseArrayNotation_brackets.
  - reflexivity.
  - repeat constructor; discriminate.
  - repeat constructor.
  - discriminate.
Defined.

(** X3. Array notation that is never closed degrades to the bare name: if
    no closing bracket follows the first opening one, the key is split into
    the name alone. *)
Theorem parseArrayNotation_unclosed name rest :
  has_char "["%char name = false ->
  has_char "]"%char rest = false ->
  parseArrayNotation (name +:+ String "["%char rest) = [KStr name].
Proof.
  intros Hname Hrest. unfold parseArrayNotation.
  rewrite (break_at_first name rest Hname).
  cbn [String.length pointer_loop].
  rewrite exec_needs_closing; [reflexivity|].
  simpl. exact Hrest.
Qed.

Lemma parseArrayNotation_unclosed_witness :
  parseArrayNotation ("foo" +:+ String "["%char "12") = [KStr "foo"].
Proof. apply parseArrayNotation_unclosed; reflexivity. Defined.

(** X4. [splitKeypath] always yields at least one segment, and no name
    among the segments has a period or an opening bracket left in it. *)
Theorem splitKeypath_segments p :
  splitKeypath p <> []
  /\ Forall (fun k => match k with KStr s => plain s | KNum _ => True end)
       (splitKeypath p).
Proof.
  split; [apply splitKeypath_nonempty|].
  eapply Forall_impl; [apply splitKeypath_keys|].
  intros [s|n] H; [exact H | exact I].
Qed.

(* ===================================================================== *)
(** ** More on the helpers and on the tree *)
(* ===================================================================== *)

(** X5. [indexOf] answers [-1] exactly when the needle is not in the
    haystack; otherwise it answers the first position that holds it. *)
Theorem indexOf_first needle haystack :
  (indexOf needle haystack = None <-> needle ∉ haystack)
  /\ forall i, indexOf needle haystack = Some i ->
       haystack !! i = Some needle
       /\ forall j, j < i -> haystack !! j <> Some needle.
Proof.
  induction haystack as [|x rest [IHnone IHsome]]; simpl.
  - split; [split; [intros _; apply not_elem_of_nil | reflexivity] | discriminate].
  - destruct (String.eqb_spec x needle) as [->|Hne].
    + split.
      * split; [discriminate|]. intros H. exfalso. apply H. apply list_elem_of_here.
      * intros i E. inversion E; subst. split; [reflexivity|]. intros j Hj. lia.
    + split.
      * destruct (indexOf needle rest) as [i|]; simpl.
        -- split; [discriminate|]. intros H. exfalso.
           apply not_elem_of_cons in H as [_ H]. apply IHnone in H. discriminate.
        -- split; [|reflexivity]. intros _. apply not_elem_of_cons.
           split; [congruence | apply IHnone; reflexivity].
      * intros i E. destruct (indexOf needle rest) as [i'|]; [|discriminate].
        inversion E; subst. destruct (IHsome i' eq_refl) as [H1 H2].
        split; [exact H1|]. intros [|j] Hj; simpl.
        -- congruence.
        -- apply H2. lia.
Qed.

Section BranchFacts.

Lemma assign_keeps_kind keys : forall kd props x d,
  assign (VObj kd props) keys x = Some d -> exists props', d = VObj kd props'.
Proof.
  intros kd props x d H. destruct keys as [|k [|next rest]].
  - simpl in H. inversion H. eauto.
  - simpl in H. inversion H. eauto.
  - rewrite assign_cons in H.
    destruct (getProp (VObj kd props) (key_to_string k)) as [child|]; [|discriminate].
    destruct (falsy child).
    + destruct (setProp (VObj kd props) (key_to_string k) (new_branch next));
        [|discriminate].
      destruct (assign (new_branch next) (next :: rest) x); [|discriminate].
      apply setProp_some in H as (kd' & props' & E & ->). inversion E. eauto.
    + destruct (assign child (next :: rest) x); [|discriminate].
      apply setProp_some in H as (kd' & props' & E & ->). inversion E. eauto.
Qed.

End BranchFacts.

(** X6. Where [set] has to create a branch, because the property is missing
    or holds a falsy value, the new branch is an array if the key that
    follows is numeric (a number, or a string of digits) and a hash
    otherwise.  The keys are ordinary ones. *)
Theorem branch_creation kd props k next rest x :
  forallb ordinary_key (k :: next :: rest) = true ->
  falsy (default VUndef (prop_lookup (key_to_string k) props)) = true ->
  exists d props',
    assign (VObj kd props) (k :: next :: rest) x = Some d
    /\ walk d [k] = VObj (if numeric_key next then Array else Hash) props'.
Proof.
  intros _ Hf. rewrite assign_cons.
  change (getProp (VObj kd props) (key_to_string k))
    with (Some (default VUndef (prop_lookup (key_to_string k) props))).
  cbv iota. rewrite Hf.
  change (setProp (VObj kd props) (key_to_string k) (new_branch next))
    with (Some (VObj kd (prop_update (key_to_string k) (new_branch next) props))).
  cbv iota.
  destruct (assign_below_new_branch next rest x) as [branch' Hb]. rewrite Hb.
  assert (Hk : exists props', branch' = VObj (if numeric_key next then Array else Hash) props').
  { unfold new_branch in Hb. destruct (numeric_key next);
      eapply assign_keeps_kind; exact Hb. }
  destruct Hk as [props' ->]. eexists. exists props'. split; [reflexivity|].
  rewrite walk_into_key. reflexivity.
Qed.

Lemma branch_creation_witness :
  exists d props',
    assign (VObj Hash [("foo", VNum 0)]) [KStr "foo"; KStr "007"; KStr "x"] (VStr "baz")
    = Some d
    /\ walk d [KStr "foo"]
       = VObj (if numeric_key (KStr "007") then Array else Hash) props'.
Proof. apply branch_creation; vm_compute; reflexivity. Defined.

Section KindFacts.

Lemma walk_falsy child pre kc cp :
  falsy child = true -> walk child pre <> VObj kc cp.
Proof.
  destruct child as [| |[]|[]|[]|]; try discriminate; intros _;
    destruct pre; simpl; discriminate.
Qed.

Lemma kind_kept_along pre : forall keys obj x d post kc cp,
  assign obj keys x = Some d ->
  keys = pre ++ post -> post <> [] ->
  walk obj pre = VObj kc cp ->
  exists cp', walk d pre = VObj kc cp'.
Proof.
  induction pre as [|k pre IH]; intros keys obj x d post kc cp H Hk Hpost Hw.
  - simpl in *. subst obj. eapply assign_keeps_kind. exact H.
  - subst keys. destruct (pre ++ post) as [|next more] eqn:E.
    { destruct pre; [simpl in E; congruence | discriminate E]. }
    simpl app in H. rewrite E in H. rewrite assign_cons in H.
    rewrite walk_step in Hw.
    destruct (getProp obj (key_to_string k)) as [child|] eqn:G;
      [|discriminate]. simpl default in Hw.
    destruct (falsy child) eqn:F.
    { exfalso. exact (walk_falsy child pre kc cp F Hw). }
    destruct (assign child (next :: more) x) as [child'|] eqn:A; [|discriminate].
    apply setProp_some in H as (kd & props & -> & ->).
    rewrite walk_into_key.
    eapply (IH (next :: more) child x child' post); eauto.
Qed.

End KindFacts.

(** X7. [set] never changes the kind of a container it goes through: an
    array met on the way to the place of the write is still an array
    afterwards, and a hash a hash, the root included. *)
Theorem kind_kept keys obj x d pre post kc cp :
  assign obj keys x = Some d ->
  keys = pre ++ post -> post <> [] ->
  walk obj pre = VObj kc cp ->
  exists cp', walk d pre = VObj kc cp'.
Proof. apply kind_kept_along. Qed.

Lemma kind_kept_witness :
  exists cp',
    walk (VObj Hash [("list", VObj Array [("0", VStr "a"); ("1", VStr "c")])])
      [KStr "list"]
    = VObj Array cp'.
Proof.
  assert (H := kind_kept [KStr "list"; KNum 1]
                 (VObj Hash [("list", VObj Array [("0", VStr "a")])])
                 (VStr "c")
                 (VObj Hash [("list", VObj Array [("0", VStr "a"); ("1", VStr "c")])])
                 [KStr "list"] [KNum 1] Array [("0", VStr "a")]
                 eq_refl eq_refl ltac:(discriminate) eq_refl).
  exact H.
Defined.

Section WriteFacts.

Lemma assign_beside_root keys : forall obj x d k more other rest,
  keys = k :: more ->
  assign obj keys x = Some d ->
  key_to_string k <> key_to_string other ->
  walk d (other :: rest) = walk obj (other :: rest).
Proof.
  intros obj x d k more other rest -> H Hne.
  assert (Hset : exists kd props c,
            obj = VObj kd props
            /\ d = VObj kd (prop_update (key_to_string k) c props)).
  { destruct more as [|next more].
    - simpl in H. apply setProp_some in H as (kd & props & -> & ->). eauto.
    - rewrite assign_cons in H.
      destruct (getProp obj (key_to_string k)) as [child|]; [|discriminate].
      destruct (falsy child).
      + destruct (setProp obj (key_to_string k) (new_branch next)); [|discriminate].
        destruct (assign (new_branch next) (next :: more) x); [|discriminate].
        apply setProp_some in H as (kd & props & -> & ->). eauto.
      + destruct (assign child (next :: more) x); [|discriminate].
        apply setProp_some in H as (kd & props & -> & ->). eauto. }
  destruct Hset as (kd & props & c & -> & ->).
  rewrite !walk_step. simpl. rewrite prop_lookup_update_ne by exact Hne.
  reflexivity.
Qed.

(** On an instance without computed values a [set] along a writable path
    returns; the tree is the old one with the value assigned, and only the
    log, the queue and the groups' last values may differ otherwise. *)
Lemma set_keypath_inert call keypath x silent force m d :
  inert m ->
  assign (_data m) (splitKeypath keypath) x = Some d ->
  exists m',
    set_keypath call keypath x silent force m = Ok RThis m'
    /\ _data m' = d /\ inert m' /\ _observers m' = _observers m
    /\ _referToCache m' = false.
Proof.
  intros Hm Hd. unfold set_keypath, bind, gets, modify.
  destruct Hm as [Hc Ho]. rewrite Hc, lookup_empty. unfold ret at 1.
  rewrite get_no_refresh
    by (unfold refreshes; simpl; rewrite andb_false_r; reflexivity).
  change (_data (set_referToCache false (set_referToCache true m)))
    with (_data m).
  rewrite Hd. unfold ret.
  set (m1 := set_data d (set_referToCache false (set_referToCache true m))).
  assert (Hm1 : inert m1) by (split; assumption).
  destruct (negb silent && (force || negb (isEqual _ x))).
  - destruct (notifyObservers_inert call (join_keys (splitKeypath keypath))
                x force m1 Hm1) as (m2 & -> & Hq).
    exists m2. split; [reflexivity|].
    destruct Hq as (Q1 & Q2 & Q3 & Q4).
    repeat split; [rewrite Q1 | rewrite Q3 | rewrite Q2 | rewrite Q2 | rewrite Q4];
      try reflexivity; assumption.
  - exists m1. repeat split; assumption.
Qed.

End WriteFacts.

(** X8. On an instance without computed values, a [set] of an ordinary
    root key leaves alone what lies under the other properties of the root:
    [get] on an ordinary keypath whose first segment differs from the key
    written, and whose walk reads no character of a string, reads
    afterwards what it read before. *)
Theorem set_leaves_siblings call p q x silent force m :
  inert m ->
  top_level p -> ordinary p -> ordinary q ->
  legible (_data m) (splitKeypath q) = true ->
  writable (_data m) (splitKeypath p) = true ->
  key_to_string <$> head (splitKeypath p) <> key_to_string <$> head (splitKeypath q) ->
  exists m',
    set_keypath call p x silent force m = Ok RThis m'
    /\ get call q m' = Ok (stored q m) m'.
Proof.
  intros Hm _ _ _ _ Hw Hne.
  apply (assign_writable _ _ x) in Hw as [d Hd].
  destruct (set_keypath_inert call p x silent force m d Hm Hd)
    as (m' & Hset & Hdata & Hm' & _ & _).
  exists m'. split; [exact Hset|].
  rewrite get_no_refresh by (apply refreshes_inert; exact Hm').
  f_equal. unfold stored. destruct (String.eqb q ""); [reflexivity|].
  rewrite Hdata.
  pose proof (splitKeypath_nonempty p) as Hp.
  pose proof (splitKeypath_nonempty q) as Hq.
  destruct (splitKeypath p) as [|k more] eqn:Ep; [congruence|].
  destruct (splitKeypath q) as [|other rest] eqn:Eq; [congruence|].
  eapply assign_beside_root; [reflexivity | exact Hd |].
  intros E. apply Hne. simpl. rewrite E. reflexivity.
Qed.

Lemma set_leaves_siblings_witness :
  exists m',
    set_keypath (setter 0) "bar" (VNum 3) false false foo_model = Ok RThis m'
    /\ get (setter 0) "foo" m' = Ok (stored "foo" foo_model) m'.
Proof.
  apply (set_leaves_siblings (setter 0) "bar" "foo" (VNum 3) false false foo_model).
  - split; [reflexivity|].
    apply (bool_decide_eq_true_1
             (map_Forall (fun _ l => Forall client_observer l)
                (_observers foo_model))).
    vm_compute. reflexivity.
  - split; [discriminate | split; reflexivity].
  - vm_compute. reflexivity.
  - vm_compute. reflexivity.
  - reflexivity.
  - reflexivity.
  - vm_compute. discriminate.
Defined.

(** X9. A silent [set] on an ordinary keypath that returns has written
    the value and told no one, even if [force] was asked for: no callback
    is made or queued, no group and no observer is touched.  (The values
    remembered and queued are primitives.) *)
Theorem silent_set call keypath x force m r m' :
  keypath <> "" ->
  ordinary keypath ->
  primitive_memory m ->
  set_keypath call keypath x true force m = Ok r m' ->
  stored keypath m' = x
  /\ log m' = log m /\ _queue m' = _queue m
  /\ groups m' = groups m /\ _observers m' = _observers m.
Proof.
  intros Hne _ _. unfold set_keypath. intros H. returned_inv.
  match goal with
  | H1 : _ m = Ok _ ?m1, H2 : get _ _ _ = Ok ?previous ?m2 |- _ =>
      assert (Hm : log m1 = log m /\ _queue m1 = _queue m
                   /\ groups m1 = groups m /\ _observers m1 = _observers m);
      [ destruct (_computed m !! keypath) as [cv|];
        [ returned_inv; destruct (computing m); [|destruct (readonly cv)];
          simpl in H1; returned_inv; simpl; auto
        | returned_inv; auto ]
      | clear H1; destruct Hm as (Hl & Hq & Hg & Ho);
        rewrite get_no_refresh in H2
          by (unfold refreshes; simpl; rewrite andb_false_r; reflexivity);
        ok_inv H2 ]
  end.
  match goal with
  | H : context [assign ?d ?k ?y] |- _ =>
      destruct (assign d k y) as [d'|] eqn:Hd; [|discriminate H]
  end.
  simpl in H. returned_inv. simpl. repeat split; try assumption.
  unfold stored. simpl. destruct (String.eqb_spec keypath ""); [congruence|].
  eapply walk_assign; [apply splitKeypath_nonempty | exact Hd].
Qed.

Lemma silent_set_witness :
  stored "foo" (state_of (set_keypath (setter 0) "foo" (VNum 2) true true foo_model))
    = VNum 2
  /\ log (state_of (set_keypath (setter 0) "foo" (VNum 2) true true foo_model))
     = log foo_model
  /\ _queue (state_of (set_keypath (setter 0) "foo" (VNum 2) true true foo_model))
     = _queue foo_model
  /\ groups (state_of (set_keypath (setter 0) "foo" (VNum 2) true true foo_model))
     = groups foo_model
  /\ _observers (state_of (set_keypath (setter 0) "foo" (VNum 2) true true foo_model))
     = _observers foo_model.
Proof.
  apply (silent_set (setter 0) "foo" (VNum 2) true foo_model RThis).
  - discriminate.
  - vm_compute. reflexivity.
  - split; vm_compute; repeat constructor.
  - vm_compute. reflexivity.
Defined.

(** X10. Where the ordinary keypath is not that of a computed value and
    crosses a primitive that is not falsy (or the root is no container),
    [set] throws a TypeError and has written nothing. *)
Theorem set_through_primitive call keypath x silent force m :
  ordinary keypath ->
  _computed m !! keypath = None ->
  writable (_data m) (splitKeypath keypath) = false ->
  set_keypath call keypath x silent force m
  = Throw TypeError (set_referToCache false m).
Proof.
  intros _ Hc Hw. unfold set_keypath, bind, gets, modify. rewrite Hc.
  unfold ret at 1.
  rewrite get_no_refresh
    by (unfold refreshes; simpl; rewrite andb_false_r; reflexivity).
  change (_data (set_referToCache false (set_referToCache true m)))
    with (_data m).
  destruct (assign (_data m) (splitKeypath keypath) x) as [d|] eqn:Hd.
  - assert (writable (_data m) (splitKeypath keypath) = true)
      by (apply (assign_writable _ _ x); eauto).
    congruence.
  - destruct m; reflexivity.
Qed.

Lemma set_through_primitive_witness :
  set_keypath (setter 0) "foo.bar" (VNum 2) false false foo_model
  = Throw TypeError (set_referToCache false foo_model).
Proof. apply set_through_primitive; vm_compute; reflexivity. Defined.

(* ===================================================================== *)
(** ** More on observing and cancelling *)
(* ===================================================================== *)

Section UpstreamFacts.

Lemma upstream_none s : has_char "."%char s = false -> upstream s = None.
Proof.
  induction s as [|x t IH]; [reflexivity|]. simpl. intros H.
  apply orb_false_iff in H as [Hx Ht]. rewrite (IH Ht), Hx. reflexivity.
Qed.

Lemma upstream_last a b :
  has_char "."%char b = false ->
  upstream (a +:+ String "."%char b) = Some a.
Proof.
  intros Hb. induction a as [|x t IH].
  - change ("" +:+ String "." b) with (String "."%char b). simpl.
    rewrite (upstream_none b Hb). reflexivity.
  - change (String x t +:+ String "." b) with (String x (t +:+ String "." b)).
    simpl. rewrite IH. reflexivity.
Qed.

Lemma concat_snoc (l : list string) x :
  l <> [] ->
  String.concat "." (l ++ [x]) = String.concat "." l +:+ String "."%char x.
Proof.
  induction l as [|y r IH]; [congruence|]. intros _.
  destruct r as [|z r'].
  - simpl. clear. induction y as [|c t IH]; [reflexivity|].
    change (String c t +:+ "." +:+ x) with (String c (t +:+ "." +:+ x)).
    change (String c t +:+ String "." x) with (String c (t +:+ String "." x)).
    rewrite IH. reflexivity.
  - change (String.concat "." ((y :: z :: r') ++ [x]))
      with (y +:+ "." +:+ String.concat "." ((z :: r') ++ [x])).
    rewrite IH by discriminate.
    change (String.concat "." (y :: z :: r'))
      with (y +:+ "." +:+ String.concat "." (z :: r')).
    generalize (String.concat "." (z :: r')). intros s. clear.
    induction y as [|c t IH].
    + reflexivity.
    + change (String c t +:+ "." +:+ s +:+ String "." x)
        with (String c (t +:+ "." +:+ s +:+ String "." x)).
      change ((String c t +:+ "." +:+ s) +:+ String "." x)
        with (String c ((t +:+ "." +:+ s) +:+ String "." x)).
      rewrite IH. reflexivity.
Qed.

Lemma concat_length_bound (l : list string) :
  length l <= S (String.length (String.concat "." l)).
Proof.
  induction l as [|y r IH]; [simpl; lia|].
  destruct r as [|z r']; [simpl; lia|].
  change (String.concat "." (y :: z :: r'))
    with (y +:+ "." +:+ String.concat "." (z :: r')).
  generalize dependent (String.concat "." (z :: r')). intros s IH.
  assert (String.length (y +:+ "." +:+ s) = String.length y + S (String.length s)).
  { clear. induction y as [|c t IH]; [reflexivity|].
    change (String c t +:+ "." +:+ s) with (String c (t +:+ "." +:+ s)).
    simpl. rewrite IH. reflexivity. }
  simpl length in *. lia.
Qed.

(** Going upstream from a keypath in standard form visits one keypath per
    segment but the last. *)
Lemma upstream_loop_length (l : list string) : forall rounds,
  Forall (fun s => has_char "."%char s = false) l ->
  length l <= S rounds ->
  length (upstream_loop rounds (String.concat "." l)) = length l - 1.
Proof.
  induction l as [|x l IH] using rev_ind; intros rounds Hall Hlen.
  - destruct rounds; reflexivity.
  - apply Forall_app in Hall as [Hl Hx]. inversion Hx as [|? ? Hx' _]; subst.
    destruct (decide (l = [])) as [->|Hne].
    + change (String.concat "." ([] ++ [x])) with x.
      destruct rounds; [reflexivity|]. cbn [upstream_loop].
      rewrite (upstream_none x Hx'). reflexivity.
    + rewrite concat_snoc by exact Hne.
      rewrite length_app in Hlen |- *. cbn [length] in Hlen |- *.
      destruct rounds as [|rounds].
      { destruct l; [congruence | cbn [length] in Hlen; lia]. }
      cbn [upstream_loop]. rewrite (upstream_last _ x Hx').
      cbn [length]. rewrite (IH rounds Hl) by lia.
      destruct l; [congruence | cbn [length]; lia].
Qed.

Lemma upstream_keeps_out ch s s' :
  upstream s = Some s' -> has_char ch s = false -> has_char ch s' = false.
Proof.
  revert s'. induction s as [|x t IH]; intros s' H Hs; [discriminate|].
  simpl in H, Hs. apply orb_false_iff in Hs as [Hx Ht].
  destruct (upstream t) as [t'|].
  - inversion H; subst. simpl. rewrite Hx. apply IH; [reflexivity | exact Ht].
  - destruct (Ascii.eqb x "."%char); inversion H. reflexivity.
Qed.

Lemma upstream_loop_keeps_out ch rounds : forall s,
  has_char ch s = false ->
  Forall (fun kp => has_char ch kp = false) (upstream_loop rounds s).
Proof.
  induction rounds as [|rounds IH]; intros s Hs; [constructor|].
  cbn [upstream_loop]. destruct (upstream s) as [up|] eqn:E; [|constructor].
  pose proof (upstream_keeps_out ch s up E Hs) as Hup.
  constructor; [exact Hup | apply IH; exact Hup].
Qed.

Lemma has_char_append ch u v :
  has_char ch (u +:+ v) = has_char ch u || has_char ch v.
Proof.
  induction u as [|c t IH]; [reflexivity|].
  change (String c t +:+ v) with (String c (t +:+ v)). simpl.
  rewrite IH, orb_assoc. reflexivity.
Qed.

Lemma standardise_no_bracket p : has_char "["%char (standardise p) = false.
Proof.
  unfold standardise, join_keys.
  pose proof (splitKeypath_keys p) as H.
  induction H as [|k r [_ Hk] Hr IH]; [reflexivity|].
  destruct r as [|k' r']; [exact Hk|].
  change (String.concat "." (map key_to_string (k :: k' :: r')))
    with (key_to_string k +:+ "." +:+ String.concat "." (map key_to_string (k' :: r'))).
  rewrite !has_char_append, Hk, IH. reflexivity.
Qed.

Lemma standardise_no_period_in_keys p :
  Forall (fun s => has_char "."%char s = false) (map key_to_string (splitKeypath p)).
Proof.
  apply Forall_map. eapply Forall_impl; [apply splitKeypath_keys|].
  intros k [H _]. exact H.
Qed.

End UpstreamFacts.

Section ObserveFacts.

Lemma bucket_insert k l m k' :
  bucket k' (set_observers (<[k := l]> (_observers m)) m)
  = if decide (k' = k) then l else bucket k' m.
Proof.
  unfold bucket. simpl. destruct (decide (k' = k)) as [->|Hne].
  - rewrite lookup_insert_eq. reflexivity.
  - rewrite lookup_insert_ne by congruence. reflexivity.
Qed.

Lemma members_of_alter gid f m :
  gid < length (groups m) ->
  members_of gid (update_group gid f m)
  = members (f (default {| members := []; __previousValue := VUndef |}
                  (groups m !! gid))).
Proof.
  intros Hlt. unfold members_of, update_group. simpl.
  rewrite list_lookup_alter_eq.
  destruct (lookup_lt_is_Some_2 (groups m) gid Hlt) as [grp Hg].
  rewrite Hg. reflexivity.
Qed.

(** What the loop of [observe] does: one new observer per keypath, at the
    end of its array and at the end of the group. *)
Lemma register_loop orig cb gid l : forall m,
  gid < length (groups m) ->
  exists m',
    for_each (register orig cb gid) l m = Ok tt m'
    /\ members_of gid m' = members_of gid m ++ map (new_observer orig cb gid) l
    /\ (forall k, bucket k m'
                  = bucket k m
                    ++ filter (fun o => observedKeypath o = k)
                         (map (new_observer orig cb gid) l))
    /\ same_store m m' /\ _referToCache m' = _referToCache m
    /\ _queue m' = _queue m
    /\ length (groups m') = length (groups m)
    /\ group_previousValue gid m' = group_previousValue gid m.
Proof.
  induction l as [|kp rest IH]; intros m Hlt.
  - exists m. split; [reflexivity|]. rewrite app_nil_r.
    repeat split; try reflexivity. intros k. simpl. rewrite app_nil_r. reflexivity.
  - cbn [for_each]. unfold bind at 1. unfold register at 1. unfold modify at 1.
    set (o := new_observer orig cb gid kp).
    set (m1 := update_group gid _ _).
    assert (Hlen1 : length (groups m1) = length (groups m)).
    { unfold m1, update_group. simpl. apply length_alter. }
    destruct (IH m1 ltac:(rewrite Hlen1; exact Hlt))
      as (m' & -> & Hmem & Hb & (S1 & S2 & S3) & Hr & Hq & Hlen & Hp).
    exists m'. split; [reflexivity|].
    assert (Hmem1 : members_of gid m1 = members_of gid m ++ [o]).
    { unfold m1. rewrite members_of_alter by exact Hlt.
      unfold members_of. simpl.
      destruct (lookup_lt_is_Some_2 (groups m) gid Hlt) as [grp ->]. reflexivity. }
    split; [|split; [|split; [|split; [|split; [|split]]]]].
    + rewrite Hmem, Hmem1, <- app_assoc. reflexivity.
    + intros k. rewrite Hb. unfold m1.
      change (bucket k (update_group gid _ ?x)) with (bucket k x).
      rewrite bucket_insert. cbn [map]. fold o.
      destruct (decide (k = kp)) as [->|Hne].
      * rewrite filter_cons_True by reflexivity.
        rewrite <- app_assoc. reflexivity.
      * rewrite filter_cons_False by (simpl; congruence). reflexivity.
    + repeat split; [rewrite S1 | rewrite S2 | rewrite S3]; reflexivity.
    + rewrite Hr. reflexivity.
    + rewrite Hq. reflexivity.
    + rewrite Hlen. exact Hlen1.
    + rewrite Hp. unfold m1, group_previousValue, update_group. simpl.
      rewrite list_lookup_alter_eq.
      destruct (groups m !! gid); reflexivity.
Qed.

(** [observe] where reading the keypath recomputes nothing. *)
Lemma observe_spec call keypath cb initialize m :
  keypath <> "" ->
  refreshes (standardise keypath) m = false ->
  (initialize = true -> exists n, cb = Client n) ->
  let orig := standardise keypath in
  let gid := length (groups m) in
  let os := map (new_observer orig cb gid) (orig :: upstream_keypaths orig) in
  exists m',
    observe call keypath cb initialize m = Ok (Some gid) m'
    /\ members_of gid m' = os
    /\ group_previousValue gid m' = stored orig m
    /\ (forall k, bucket k m'
                  = bucket k m ++ filter (fun o => observedKeypath o = k) os)
    /\ _data m' = _data m /\ _computed m' = _computed m
    /\ log m' = log m ++ (if initialize
                          then client_call cb (stored orig m) VUndef (_data m)
                          else [])
    /\ length (groups m') = S (length (groups m)).
Proof.
  intros Hne Hrf Hinit orig gid os. unfold observe.
  destruct (String.eqb_spec keypath "") as [|_]; [congruence|].
  unfold bind at 1. unfold gets at 1. unfold bind at 1. unfold modify at 1.
  set (m0 := set_groups _ m).
  assert (Hlt : gid < length (groups m0)).
  { unfold m0, gid. simpl. rewrite length_app. simpl. lia. }
  destruct (register_loop orig cb gid (orig :: upstream_keypaths orig) m0 Hlt)
    as (m1 & Hloop & Hmem & Hb & (S1 & S2 & S3) & Hr & Hq & Hlen & Hp).
  fold orig. fold gid. unfold bind at 1. rewrite Hloop.
  assert (Hrf1 : refreshes orig m1 = false).
  { unfold refreshes in *. rewrite Hr, S2. exact Hrf. }
  assert (Hst : stored orig m1 = stored orig m).
  { unfold stored. rewrite S1. reflexivity. }
  assert (Hmem0 : members_of gid m0 = []).
  { unfold members_of, m0, gid. simpl.
    rewrite lookup_app_r by lia. rewrite Nat.sub_diag. reflexivity. }
  assert (Hend : forall m2,
            _data m2 = _data m1 -> _computed m2 = _computed m1 ->
            groups m2 = groups m1 -> _observers m2 = _observers m1 ->
            _referToCache m2 = _referToCache m1 ->
            exists m',
              (let! x := get call orig in
               modify (update_group gid (with_previousValue x)) ;;
               ret (Some gid)) m2 = Ok (Some gid) m'
              /\ members_of gid m' = os
              /\ group_previousValue gid m' = stored orig m
              /\ (forall k, bucket k m'
                    = bucket k m ++ filter (fun o => observedKeypath o = k) os)
              /\ _data m' = _data m /\ _computed m' = _computed m
              /\ log m' = log m2
              /\ length (groups m') = S (length (groups m))).
  { intros m2 E1 E2 E3 E4 E5. unfold bind.
    rewrite get_no_refresh
      by (unfold refreshes in *; rewrite E5, E2; exact Hrf1).
    unfold modify, ret. eexists. split; [reflexivity|].
    assert (Hlt2 : gid < length (groups m2)).
    { rewrite E3, Hlen. exact Hlt. }
    split; [|split; [|split; [|split; [|split; [|split]]]]].
    - rewrite members_of_alter by exact Hlt2.
      destruct (lookup_lt_is_Some_2 (groups m2) gid Hlt2) as [grp Hg].
      rewrite Hg. simpl.
      assert (members grp = members_of gid m1).
      { unfold members_of. rewrite <- E3, Hg. reflexivity. }
      rewrite H, Hmem, Hmem0. reflexivity.
    - unfold group_previousValue, update_group. simpl.
      rewrite list_lookup_alter_eq.
      destruct (lookup_lt_is_Some_2 (groups m2) gid Hlt2) as [grp ->]. simpl.
      unfold stored. rewrite E1, S1. reflexivity.
    - intros k. change (bucket k (update_group gid _ ?x)) with (bucket k x).
      unfold bucket at 1. rewrite E4. fold (bucket k m1). rewrite Hb. reflexivity.
    - simpl. rewrite E1, S1. reflexivity.
    - simpl. rewrite E2, S2. reflexivity.
    - reflexivity.
    - unfold update_group. simpl. rewrite length_alter, E3, Hlen.
      unfold m0. simpl. rewrite length_app. simpl. lia. }
  destruct initialize.
  - destruct (Hinit eq_refl) as [n ->].
    set (m2 := set_log (log m1 ++ client_call (Client n) (stored orig m1) VUndef (_data m1)) m1).
    assert (HX : (let! x := get call orig in invoke call (Client n) x VUndef) m1
                 = Ok tt m2).
    { unfold bind. rewrite get_no_refresh by exact Hrf1. reflexivity. }
    rewrite (bind_ok _ _ _ _ _ HX).
    destruct (Hend m2 eq_refl eq_refl eq_refl eq_refl eq_refl)
      as (m' & Heq & A & B & C & D & E & F & G).
    exists m'. split; [exact Heq|]. repeat split; try assumption.
    rewrite F. unfold m2. simpl. rewrite S3, Hst, S1. reflexivity.
  - rewrite (bind_ok _ _ m1 tt m1 eq_refl).
    destruct (Hend m1 eq_refl eq_refl eq_refl eq_refl eq_refl)
      as (m' & Heq & A & B & C & D & E & F & G).
    exists m'. split; [exact Heq|]. repeat split; try assumption.
    rewrite F, S3, app_nil_r. reflexivity.
Qed.

End ObserveFacts.

(** X11. [observe] on an ordinary keypath that is not empty (and whose
    reading recomputes nothing and takes no character of a string) returns
    a new group with one observer per segment of the keypath, the first for
    the keypath itself and the others for the keypaths upstream, all
    carrying the callback and the standard form of the keypath.  The group
    remembers the value now stored there; the tree is not touched; and the
    callback is called, once, with that value and [undefined], only if
    [initialize] is set. *)
Theorem observe_registers call keypath cb initialize m :
  keypath <> "" ->
  ordinary keypath ->
  legible (_data m) (splitKeypath keypath) = true ->
  refreshes (standardise keypath) m = false ->
  (initialize = true -> exists n, cb = Client n) ->
  exists m' first others,
    observe call keypath cb initialize m = Ok (Some (length (groups m))) m'
    /\ members_of (length (groups m)) m' = first :: others
    /\ observedKeypath first = standardise keypath
    /\ length (first :: others) = length (splitKeypath keypath)
    /\ Forall (fun o => originalKeypath o = standardise keypath
                        /\ callback o = cb /\ group o = length (groups m))
         (first :: others)
    /\ group_previousValue (length (groups m)) m' = stored (standardise keypath) m
    /\ _data m' = _data m
    /\ log m' = log m ++ (if initialize
                          then client_call cb (stored (standardise keypath) m)
                                 VUndef (_data m)
                          else []).
Proof.
  intros Hne _ _ Hrf Hinit.
  destruct (observe_spec call keypath cb initialize m Hne Hrf Hinit)
    as (m' & Hobs & Hmem & Hprev & _ & Hdata & _ & Hlog & _).
  exists m',
    (new_observer (standardise keypath) cb (length (groups m)) (standardise keypath)),
    (map (new_observer (standardise keypath) cb (length (groups m)))
       (upstream_keypaths (standardise keypath))).
  split; [exact Hobs|].
  split; [exact Hmem|]. split; [reflexivity|].
  split; [|split; [|split; [exact Hprev | split; [exact Hdata | exact Hlog]]]].
  - cbn [length]. rewrite length_map. unfold upstream_keypaths, standardise, join_keys.
    rewrite upstream_loop_length.
    + rewrite length_map. pose proof (splitKeypath_nonempty keypath).
      destruct (splitKeypath keypath); [congruence | simpl; lia].
    + apply standardise_no_period_in_keys.
    + pose proof (concat_length_bound (map key_to_string (splitKeypath keypath))).
      lia.
  - change (new_observer (standardise keypath) cb (length (groups m)) (standardise keypath)
              :: map (new_observer (standardise keypath) cb (length (groups m)))
                   (upstream_keypaths (standardise keypath)))
      with (map (new_observer (standardise keypath) cb (length (groups m)))
              (standardise keypath :: upstream_keypaths (standardise keypath))).
    apply Forall_map. apply Forall_forall. intros kp _. repeat split.
Qed.

Lemma observe_registers_witness :
  exists m' first others,
    observe (setter 0) "a.b[0].c" (Client 3) true foo_model
    = Ok (Some (length (groups foo_model))) m'
    /\ members_of (length (groups foo_model)) m' = first :: others
    /\ observedKeypath first = standardise "a.b[0].c"
    /\ length (first :: others) = length (splitKeypath "a.b[0].c")
    /\ Forall (fun o => originalKeypath o = standardise "a.b[0].c"
                        /\ callback o = Client 3
                        /\ group o = length (groups foo_model))
         (first :: others)
    /\ group_previousValue (length (groups foo_model)) m'
       = stored (standardise "a.b[0].c") foo_model
    /\ _data m' = _data foo_model
    /\ log m' = log foo_model
                ++ (if true
                    then client_call (Client 3)
                           (stored (standardise "a.b[0].c") foo_model)
                           VUndef (_data foo_model)
                    else []).
Proof.
  apply (observe_registers (setter 0) "a.b[0].c" (Client 3) true foo_model).
  - discriminate.
  - vm_compute. reflexivity.
  - vm_compute. reflexivity.
  - reflexivity.
  - intros _. exists 3. reflexivity.
Defined.

Section CancelFacts.

Lemma remove_first_middle o (l r : list observer) :
  o ∉ l -> remove_first o (l ++ o :: r) = l ++ r.
Proof.
  induction l as [|x l IH]; intros H; simpl.
  - rewrite bool_decide_eq_true_2 by reflexivity. reflexivity.
  - apply not_elem_of_cons in H as [Hx Hl].
    rewrite bool_decide_eq_false_2 by congruence. rewrite IH by exact Hl.
    reflexivity.
Qed.

Lemma unobserve_one_bucket o m k :
  standardise (observedKeypath o) = observedKeypath o ->
  exists m',
    unobserve_one o m = Ok tt m'
    /\ bucket k m' = (if decide (k = observedKeypath o)
                      then remove_first o (bucket k m) else bucket k m)
    /\ groups m' = groups m /\ same_store m m' /\ _queue m' = _queue m.
Proof.
  intros Hst. unfold unobserve_one, modify. rewrite Hst.
  eexists. split; [reflexivity|]. unfold bucket.
  destruct (_observers m !! observedKeypath o) as [l|] eqn:E.
  - destruct (decide (o ∈ l)) as [Hin|Hout].
    + rewrite bool_decide_eq_true_2 by exact Hin.
      destruct (remove_first o l) as [|x rest] eqn:R.
      * repeat split. simpl. destruct (decide (k = observedKeypath o)) as [->|Hne].
        -- rewrite lookup_delete_eq, E. simpl. rewrite R. reflexivity.
        -- rewrite lookup_delete_ne by congruence. reflexivity.
      * repeat split. simpl. destruct (decide (k = observedKeypath o)) as [->|Hne].
        -- rewrite lookup_insert_eq, E. simpl. rewrite R. reflexivity.
        -- rewrite lookup_insert_ne by congruence. reflexivity.
    + rewrite bool_decide_eq_false_2 by exact Hout. repeat split.
      destruct (decide (k = observedKeypath o)) as [->|Hne]; [|reflexivity].
      rewrite E. simpl. clear - Hout.
      induction l as [|x l IH]; [reflexivity|]. simpl.
      apply not_elem_of_cons in Hout as [Hx Hl].
      rewrite bool_decide_eq_false_2 by congruence. rewrite <- IH by exact Hl.
      reflexivity.
  - repeat split. destruct (decide (k = observedKeypath o)) as [->|Hne]; [|reflexivity].
    rewrite E. reflexivity.
Qed.

(** Cancelling, one after the other, observers that sit at the end of
    their arrays gives the arrays back as they were before. *)
Lemma unobserve_loop_buckets gid (before : string -> list observer) os : forall m,
  Forall (fun o => standardise (observedKeypath o) = observedKeypath o) os ->
  Forall (fun o => forall k, o ∉ before k) os ->
  (forall k, bucket k m
             = before k ++ filter (fun o => observedKeypath o = k) os) ->
  exists m',
    for_each (fun o =>
      modify (update_group gid (fun grp => with_members (tail (members grp)) grp)) ;;
      unobserve_one o) os m = Ok tt m'
    /\ (forall k, bucket k m' = before k)
    /\ same_store m m' /\ _queue m' = _queue m.
Proof.
  induction os as [|o rest IH]; intros m Hst Hfresh Hb.
  - exists m. split; [reflexivity|]. split; [|repeat split].
    intros k. rewrite Hb. simpl. apply app_nil_r.
  - inversion Hst as [|? ? Ho Hrest]; subst.
    inversion Hfresh as [|? ? Hof Hrestf]; subst.
    cbn [for_each]. unfold bind at 1. unfold bind at 1. unfold modify at 1.
    cbv beta iota.
    set (m0 := update_group gid _ m).
    assert (Hun : forall k, exists m1,
              unobserve_one o m0 = Ok tt m1
              /\ bucket k m1 = (if decide (k = observedKeypath o)
                                then remove_first o (bucket k m0) else bucket k m0)
              /\ groups m1 = groups m0 /\ same_store m0 m1
              /\ _queue m1 = _queue m0).
    { intros k. apply unobserve_one_bucket. exact Ho. }
    destruct (Hun "") as (m1 & Hone & _ & _ & (A1 & A2 & A3) & Hq1).
    rewrite Hone.
    destruct (IH m1 Hrest Hrestf) as (m' & -> & Hb' & (B1 & B2 & B3) & Hq').
    + intros k. destruct (Hun k) as (m1' & Hone' & Hk & _).
      rewrite Hone in Hone'. inversion Hone'; subst m1'. rewrite Hk.
      change (bucket k m0) with (bucket k m). rewrite Hb.
      destruct (decide (k = observedKeypath o)) as [->|Hne].
      * rewrite filter_cons_True by reflexivity.
        apply remove_first_middle. apply Hof.
      * rewrite filter_cons_False by congruence. reflexivity.
    + exists m'. split; [reflexivity|]. split; [exact Hb'|].
      split; [repeat split; [rewrite B1, A1 | rewrite B2, A2 | rewrite B3, A3];
              reflexivity|].
      rewrite Hq', Hq1. reflexivity.
Qed.

Lemma unobserve_loop_members gid os : forall m,
  exists m',
    for_each (fun o =>
      modify (update_group gid (fun grp => with_members (tail (members grp)) grp)) ;;
      unobserve_one o) os m = Ok tt m'
    /\ members_of gid m' = drop (length os) (members_of gid m).
Proof.
  induction os as [|o rest IH]; intros m.
  - exists m. split; reflexivity.
  - cbn [for_each]. unfold bind at 1. unfold bind at 1. unfold modify at 1.
    set (m0 := update_group gid _ m).
    assert (Hm0 : members_of gid m0 = tail (members_of gid m)).
    { unfold m0, members_of, update_group. simpl. rewrite list_lookup_alter_eq.
      destruct (groups m !! gid); reflexivity. }
    assert (Hone : exists m1, unobserve_one o m0 = Ok tt m1 /\ groups m1 = groups m0).
    { unfold unobserve_one, modify. eexists. split; [reflexivity|].
      destruct (_observers m0 !! standardise (observedKeypath o)) as [l|];
        [|reflexivity].
      destruct (bool_decide (o ∈ l)); [|reflexivity].
      destruct (remove_first o l); reflexivity. }
    destruct Hone as (m1 & -> & Hg1).
    destruct (IH m1) as (m' & -> & Hmem).
    exists m'. split; [reflexivity|].
    rewrite Hmem. unfold members_of at 1. rewrite Hg1.
    fold (members_of gid m0). rewrite Hm0.
    generalize (members_of gid m). intros [|x l]; simpl;
      [apply drop_nil | reflexivity].
Qed.

End CancelFacts.

(** X12. Observing an ordinary keypath and then cancelling with the group
    that [observe] returned gives back the registry: under every keypath
    the observers are those that were there before, in the same order.
    (The observers that were there belong to groups that exist, as
    [observe] makes them.) *)
Theorem observe_unobserve call keypath cb m :
  keypath <> "" ->
  ordinary keypath ->
  refreshes (standardise keypath) m = false ->
  grouped_observers m ->
  exists g m1 m2,
    observe call keypath cb false m = Ok (Some g) m1
    /\ unobserve (Some g) m1 = Ok tt m2
    /\ (forall k, bucket k m2 = bucket k m)
    /\ _data m2 = _data m /\ log m2 = log m.
Proof.
  intros Hne _ Hrf Hgr.
  destruct (observe_spec call keypath cb false m Hne Hrf ltac:(discriminate))
    as (m1 & Hobs & Hmem & _ & Hb & Hdata & _ & Hlog & _).
  exists (length (groups m)), m1.
  unfold unobserve, bind, gets. fold (members_of (length (groups m)) m1).
  rewrite Hmem.
  destruct (unobserve_loop_buckets (length (groups m)) (fun k => bucket k m)
              (map (new_observer (standardise keypath) cb (length (groups m)))
                 (standardise keypath :: upstream_keypaths (standardise keypath)))
              m1) as (m2 & Hloop & Hb2 & (S1 & _ & S3) & _).
  - apply Forall_map. apply Forall_forall. intros kp Hkp. simpl.
    apply standardise_bracket_free.
    apply elem_of_cons in Hkp as [->|Hkp]; [apply standardise_no_bracket|].
    pose proof (upstream_loop_keeps_out "["%char
                  (String.length (standardise keypath)) (standardise keypath)
                  (standardise_no_bracket keypath)) as Hall.
    rewrite Forall_forall in Hall. apply Hall. exact Hkp.
  - apply Forall_map. apply Forall_forall. intros kp _ k Hin. simpl in Hin.
    unfold bucket in Hin. destruct (_observers m !! k) as [l|] eqn:E;
      [|simpl in Hin; inversion Hin].
    simpl in Hin. pose proof (Hgr k l E) as Hall.
    rewrite Forall_forall in Hall. specialize (Hall _ Hin). simpl in Hall. lia.
  - exact Hb.
  - exists m2. split; [exact Hobs|]. split; [exact Hloop|].
    split; [exact Hb2|]. split; [rewrite S1; exact Hdata|].
    rewrite S3, Hlog. apply app_nil_r.
Qed.

Lemma observe_unobserve_witness :
  exists g m1 m2,
    observe (setter 0) "foo.bar[2]" (Client 5) false foo_model = Ok (Some g) m1
    /\ unobserve (Some g) m1 = Ok tt m2
    /\ (forall k, bucket k m2 = bucket k foo_model)
    /\ _data m2 = _data foo_model /\ log m2 = log foo_model.
Proof.
  apply (observe_unobserve (setter 0) "foo.bar[2]" (Client 5) foo_model).
  - discriminate.
  - vm_compute. reflexivity.
  - reflexivity.
  - apply (bool_decide_eq_true_1 (grouped_observers foo_model)).
    vm_compute. reflexivity.
Defined.

(** X13. Cancelling a group always returns, and cancelling it again
    changes nothing: the group is empty after the first time. *)
Theorem unobserve_idempotent g m :
  exists m',
    unobserve (Some g) m = Ok tt m'
    /\ members_of g m' = []
    /\ unobserve (Some g) m' = Ok tt m'.
Proof.
  destruct (unobserve_loop_members g (members_of g m) m) as (m' & Hloop & Hmem).
  rewrite drop_all in Hmem.
  exists m'. split; [exact Hloop|]. split; [exact Hmem|].
  unfold unobserve, bind, gets. fold (members_of g m'). rewrite Hmem. reflexivity.
Qed.

(** X14. After a group is cancelled none of its observers is registered
    any more, provided no observer object sat twice in an array; the tree,
    the computed values and the log are as before. *)
Theorem unobserve_cancels g m :
  distinct_observers m ->
  exists m',
    unobserve (Some g) m = Ok tt m'
    /\ (forall o, o ∈ members_of g m -> unsubscribed o m')
    /\ _data m' = _data m /\ _computed m' = _computed m /\ log m' = log m.
Proof.
  intros Hd. destruct (unobserve_spec g m Hd) as (m' & H & _ & Hu & Hs & _).
  exists m'. split; [exact H|]. split; [exact Hu | exact Hs].
Qed.

Lemma unobserve_cancels_witness :
  exists m',
    unobserve (Some 0) foo_model = Ok tt m'
    /\ (forall o, o ∈ members_of 0 foo_model -> unsubscribed o m')
    /\ _data m' = _data foo_model /\ _computed m' = _computed foo_model
    /\ log m' = log foo_model.
Proof.
  apply unobserve_cancels.
  apply (bool_decide_eq_true_1 (distinct_observers foo_model)).
  vm_compute. reflexivity.
Defined.

(* ===================================================================== *)
(** ** More on computed values *)
(* ===================================================================== *)

Section RemovalFacts.

Lemma unobserve_loop_returns g l : forall m,
  exists m',
    for_each (fun o =>
      modify (update_group g (fun grp => with_members (tail (members grp)) grp)) ;;
      unobserve_one o) l m = Ok tt m'
    /\ same_store m m'.
Proof.
  induction l as [|o rest IH]; intros m.
  - exists m. split; [reflexivity | repeat split].
  - cbn [for_each]. unfold bind at 1. unfold bind at 1. unfold modify at 1.
    cbv beta iota. set (m0 := update_group g _ m).
    assert (Hone : exists m1, unobserve_one o m0 = Ok tt m1 /\ same_store m0 m1).
    { unfold unobserve_one, modify. eexists. split; [reflexivity|].
      destruct (_observers m0 !! standardise (observedKeypath o)) as [l|];
        [|repeat split].
      destruct (bool_decide (o ∈ l)); [|repeat split].
      destruct (remove_first o l); repeat split. }
    destruct Hone as (m1 & -> & (A1 & A2 & A3)).
    destruct (IH m1) as (m' & -> & (B1 & B2 & B3)).
    exists m'. split; [reflexivity|].
    repeat split; [rewrite B1, A1 | rewrite B2, A2 | rewrite B3, A3]; reflexivity.
Qed.

Lemma unobserve_returns g m :
  exists m', unobserve (Some g) m = Ok tt m' /\ same_store m m'.
Proof.
  unfold unobserve. unfold bind at 1. unfold gets.
  apply unobserve_loop_returns.
Qed.



(** The loop of [removeComputedValue] over groups that are all there
    returns, and touches no other computed value. *)
Lemma remove_loop_returns id (l : list nat) : forall m,
  exists m',
    for_each (fun g =>
      modify (update_computed id (fun cv' =>
        with_observerGroups (removelast (observerGroups cv')) cv')) ;;
      unobserve g) (map Some l) m = Ok tt m'
    /\ _data m' = _data m /\ log m' = log m
    /\ delete id (_computed m') = delete id (_computed m).
Proof.
  induction l as [|g rest IH]; intros m.
  - exists m. repeat split; reflexivity.
  - cbn [for_each map]. unfold bind at 1. unfold bind at 1. unfold modify at 1.
    cbv beta iota. set (m0 := update_computed id _ m).
    destruct (unobserve_returns g m0) as (m1 & -> & (A1 & A2 & A3)).
    destruct (IH m1) as (m' & -> & B1 & B3 & B2).
    exists m'. split; [reflexivity|].
    split; [rewrite B1, A1; reflexivity|].
    split; [rewrite B3, A3; reflexivity|].
    rewrite B2, A2. unfold m0, update_computed. simpl.
    apply delete_alter_eq.
Qed.

End RemovalFacts.

(** X15. For an ordinary id that has no computed value yet, [compute] with
    the id among its own triggers throws the self-trigger error before
    anything is registered or written: the instance is left as it was. *)
Theorem compute_rejects_self_trigger call id o m :
  ordinary id ->
  _computed m !! id = None ->
  indexOf id (trigger_list o) <> None ->
  compute call id o m = Throw SelfTrigger m.
Proof.
  intros _ Hc Hself. unfold compute, bind, gets. rewrite Hc. unfold ret.
  destruct (indexOf id (trigger_list o)); [reflexivity | congruence].
Qed.

Lemma compute_rejects_self_trigger_witness :
  compute (setter 1) "foo"
    {| opt_fn := add_numbers; opt_triggers := NoTrigger;
       opt_trigger := OneTrigger "foo"; opt_cache := VUndef;
       opt_readonly := VUndef |} foo_model
  = Throw SelfTrigger foo_model.
Proof.
  apply compute_rejects_self_trigger;
    [vm_compute; reflexivity | reflexivity | vm_compute; discriminate].
Defined.

(** X16. [removeComputedValue] for a computed value all of whose observer
    groups are there returns: the id has no computed value any more and the
    other computed values are as before, the tree still holds the last
    value, nothing is logged, and removing the same id again throws a
    TypeError. *)
Theorem removeComputedValue_removes id cv gs m :
  _computed m !! id = Some cv ->
  observerGroups cv = map Some gs ->
  exists m',
    removeComputedValue id m = Ok tt m'
    /\ _computed m' = delete id (_computed m)
    /\ _data m' = _data m /\ log m' = log m
    /\ removeComputedValue id m' = Throw TypeError m'.
Proof.
  intros Hc Hgs. unfold removeComputedValue at 1. unfold bind at 1. unfold gets.
  rewrite Hc. cbv beta iota. rewrite Hgs, <- map_rev.
  destruct (remove_loop_returns id (rev gs) m) as (m1 & H1 & Hd & Hl & Hk).
  unfold bind at 1. rewrite H1. cbv beta iota. unfold modify.
  eexists. split; [reflexivity|]. cbn.
  split; [exact Hk|]. split; [exact Hd|]. split; [exact Hl|].
  unfold removeComputedValue, bind, gets. cbn.
  rewrite lookup_delete_eq. reflexivity.
Qed.

Lemma removeComputedValue_removes_witness :
  exists m',
    removeComputedValue "sum" sum_model = Ok tt m'
    /\ _computed m' = delete "sum" (_computed sum_model)
    /\ _data m' = _data sum_model /\ log m' = log sum_model
    /\ removeComputedValue "sum" m' = Throw TypeError m'.
Proof.
  eapply (removeComputedValue_removes "sum" _ [0; 1]); vm_compute; reflexivity.
Defined.



(* ===================================================================== *)
(** ** A computed value follows its triggers *)
(* ===================================================================== *)

Section RootKeys.

Lemma top_level_split s : top_level s -> splitKeypath s = [KStr s].
Proof.
  intros [Hne Hp].
  apply (splitKeypath_of_plain [s]); [discriminate | constructor; [exact Hp | constructor]].
Qed.

Lemma top_level_standard s : top_level s -> standardise s = s.
Proof. intros [_ [_ Hb]]. apply standardise_bracket_free. exact Hb. Qed.

Lemma top_level_upstream s : top_level s -> upstream_keypaths s = [].
Proof.
  intros [_ [Hd _]]. unfold upstream_keypaths.
  destruct (String.length s); [reflexivity|].
  simpl. rewrite (upstream_none s Hd). reflexivity.
Qed.

Lemma stored_root s m kd props :
  top_level s -> _data m = VObj kd props ->
  stored s m = default VUndef (prop_lookup s props).
Proof.
  intros Hs Hd. unfold stored.
  destruct (String.eqb_spec s "") as [->|_]; [destruct Hs as [H _]; congruence|].
  rewrite (top_level_split s Hs), Hd. simpl.
  destruct (default VUndef (prop_lookup s props)); reflexivity.
Qed.

Lemma assign_root kd props s x :
  assign (VObj kd props) [KStr s] x = Some (VObj kd (prop_update s x props)).
Proof. reflexivity. Qed.

Lemma isEqual_eq a b : isEqual a b = true -> a = b.
Proof.
  destruct a, b; simpl; intros H; try discriminate H; try reflexivity.
  - destruct b, b0; simpl in H; try discriminate H; reflexivity.
  - apply Z.eqb_eq in H. subst. reflexivity.
  - apply String.eqb_eq in H. subst. reflexivity.
Qed.

End RootKeys.

Section Hushed.

Lemma hushed_refl G m : hushed G m m.
Proof. split; [apply quiet_refl|]. repeat split; reflexivity. Qed.

Lemma hushed_trans G m1 m2 m3 : hushed G m1 m2 -> hushed G m2 m3 -> hushed G m1 m3.
Proof.
  intros (Q1 & A1 & L1 & B1) (Q2 & A2 & L2 & B2).
  split; [eapply quiet_trans; eassumption|].
  split; [congruence|]. split; [congruence|].
  intros g Hg. rewrite (B2 g Hg). apply (B1 g Hg).
Qed.

Lemma hushed_mono G G' m m' : G ⊆ G' -> hushed G m m' -> hushed G' m m'.
Proof.
  intros Hsub (Q & A & L & B). split; [exact Q|]. split; [exact A|].
  split; [exact L|]. intros g Hg. apply B. intros Hin. apply Hg, Hsub, Hin.
Qed.

Lemma refreshes_quiet k m m' :
  quiet m m' -> refreshes k m' = refreshes k m.
Proof. intros (_ & _ & Hc & Hr). unfold refreshes. rewrite Hc, Hr. reflexivity. Qed.

Lemma previousValue_other g g' x m :
  g <> g' ->
  group_previousValue g (update_group g' (with_previousValue x) m)
  = group_previousValue g m.
Proof.
  intros Hne. unfold group_previousValue, update_group. simpl.
  rewrite list_lookup_alter_ne by congruence. reflexivity.
Qed.

Variable call : string -> M unit.

Lemma deliver_client_hushed n x y m :
  exists m', deliver call (Client n) x y m = Ok tt m' /\ hushed [] m m'.
Proof.
  unfold deliver, bind, gets. destruct (queueing m).
  - eexists. split; [reflexivity|]. repeat split.
  - eexists. split; [reflexivity|]. repeat split.
Qed.

(** The round of the first loop for a client's observer, where reading
    recomputes nothing. *)
Lemma notify_client keypath x force o m :
  (forall k, refreshes k m = false) -> client_observer o ->
  exists m', notify_observer call keypath x force o m = Ok tt m'
             /\ hushed [group o] m m'.
Proof.
  intros Hm [n Hn]. unfold notify_observer, bind, gets, modify.
  assert (Hget : exists a,
    (if String.eqb keypath (originalKeypath o) then ret x
     else get call (originalKeypath o)) m = Ok a m).
  { destruct (String.eqb keypath (originalKeypath o)); [eexists; reflexivity|].
    eexists. apply get_no_refresh. apply Hm. }
  destruct Hget as [a ->].
  assert (Hup : hushed [group o] m (update_group (group o) (with_previousValue a) m)).
  { split; [repeat split|]. split; [reflexivity|].
    split; [unfold update_group; simpl; apply length_alter|].
    intros g Hg. apply previousValue_other. intros ->. apply Hg. left. }
  destruct (negb force && isEqual a (group_previousValue (group o) m)).
  - eexists. split; [reflexivity | exact Hup].
  - rewrite Hn. edestruct deliver_client_hushed as (m' & -> & Hq).
    eexists. split; [reflexivity|].
    eapply hushed_trans; [exact Hup|].
    eapply hushed_mono; [|exact Hq]. intros g Hg. inversion Hg.
Qed.

Lemma notify_clients_loop keypath x force l : forall m,
  (forall k, refreshes k m = false) -> Forall client_observer l ->
  exists m', for_each (notify_observer call keypath x force) l m = Ok tt m'
             /\ hushed (map group l) m m'.
Proof.
  induction l as [|o rest IH]; intros m Hm Hall.
  - eexists. split; [reflexivity | apply hushed_refl].
  - inversion Hall as [|? ? Ho Hrest]; subst. cbn [for_each]. unfold bind.
    destruct (notify_client keypath x force o m Hm Ho) as (m1 & -> & H1).
    destruct (IH m1) as (m2 & -> & H2); [|exact Hrest|].
    { intros k. destruct H1 as (Q & _). rewrite (refreshes_quiet k _ _ Q). apply Hm. }
    eexists. split; [reflexivity|].
    eapply hushed_trans.
    + eapply hushed_mono; [|exact H1]. intros g Hg. apply list_elem_of_singleton in Hg.
      subst. simpl. left.
    + eapply hushed_mono; [|exact H2]. intros g Hg. simpl. right. exact Hg.
Qed.

(** [_notifyObservers] for a root key under which clients observe only. *)
Lemma notify_clients k x force m :
  (forall k, refreshes k m = false) -> top_level k ->
  Forall client_observer (bucket k m) ->
  exists m', _notifyObservers call k x force m = Ok tt m'
             /\ hushed (map group (bucket k m)) m m'.
Proof.
  intros Hm Hk Hall. unfold _notifyObservers. unfold bind at 1. unfold gets at 1.
  fold (bucket k m).
  destruct (notify_clients_loop k x force (bucket k m) m Hm Hall) as (m1 & H1 & Hh).
  unfold bind. rewrite H1. rewrite (top_level_upstream k Hk).
  exists m1. split; [reflexivity | exact Hh].
Qed.

Lemma trigger_values_stored l : forall m,
  (forall k, refreshes k m = false) ->
  trigger_values call l m = Ok (map (fun t => stored t m) l) m.
Proof.
  induction l as [|t rest IH]; intros m Hm; [reflexivity|].
  cbn [trigger_values map]. unfold bind. rewrite (IH m Hm).
  rewrite (get_no_refresh call t m (Hm t)). reflexivity.
Qed.

(** [set] of a root key that is no computed value: the write, then the
    notifications unless the call is silent, if the value changed or
    [force] is set. *)
Lemma set_root k x silent force m kd props :
  top_level k -> _computed m !! k = None -> _data m = VObj kd props ->
  set_keypath call k x silent force m
  = let m1 := set_data (VObj kd (prop_update k x props))
                (set_referToCache false (set_referToCache true m)) in
    if negb silent && (force || negb (isEqual (stored k m) x))
    then (_notifyObservers call k x force ;; ret RThis) m1
    else Ok RThis m1.
Proof.
  intros Hk Hc Hd. unfold set_keypath. unfold bind at 1. unfold gets at 1.
  rewrite Hc. unfold ret at 1. cbv beta iota.
  unfold bind at 1. unfold modify at 1. cbv beta iota.
  unfold bind at 1. unfold bind at 1.
  rewrite get_no_refresh by (unfold refreshes; simpl; rewrite andb_false_r; reflexivity).
  cbv beta iota. unfold bind at 1. unfold modify at 1. cbv beta iota.
  unfold bind at 1. unfold gets at 1. cbv beta iota.
  rewrite (top_level_split k Hk).
  match goal with |- context [assign ?d _ _] => change d with (_data m) end.
  rewrite Hd, assign_root.
  unfold bind at 1. unfold modify at 1. cbv beta iota.
  change (stored k (set_referToCache true m)) with (stored k m).
  change (join_keys [KStr k]) with k.
  destruct (negb silent && (force || negb (isEqual (stored k m) x))); reflexivity.
Qed.

(** The same inside the setter of the computed value [k]. *)
Lemma set_root_computing k x force m cv kd props :
  top_level k -> _computed m !! k = Some cv -> computing m = true ->
  _data m = VObj kd props ->
  set_keypath call k x false force m
  = let m1 := set_data (VObj kd (prop_update k x props))
                (set_referToCache false (set_referToCache true
                   (set_computing false
                      (update_computed k (with_override false) m)))) in
    if force || negb (isEqual (stored k m) x)
    then (_notifyObservers call k x force ;; ret RThis) m1
    else Ok RThis m1.
Proof.
  intros Hk Hc Hcomp Hd. unfold set_keypath. unfold bind at 1. unfold gets at 1.
  rewrite Hc. cbv beta iota. unfold bind at 1. unfold bind at 1. unfold gets at 1.
  rewrite Hcomp. cbv beta iota. change (negb true) with false. cbv iota.
  unfold bind at 1. unfold modify at 1. unfold modify at 1. cbv beta iota.
  set (m0 := set_computing false (update_computed k (with_override false) m)).
  unfold bind at 1. unfold modify at 1. cbv beta iota.
  unfold bind at 1.
  rewrite get_no_refresh by (unfold refreshes; simpl; rewrite andb_false_r; reflexivity).
  cbv beta iota. unfold bind at 1. unfold modify at 1. cbv beta iota.
  unfold bind at 1. unfold gets at 1. cbv beta iota.
  rewrite (top_level_split k Hk).
  match goal with |- context [assign ?d _ _] => change d with (_data m) end.
  rewrite Hd, assign_root.
  unfold bind at 1. unfold modify at 1. cbv beta iota.
  change (stored k (set_referToCache true m0)) with (stored k m).
  change (join_keys [KStr k]) with k.
  simpl negb. simpl andb.
  destruct (force || negb (isEqual (stored k m) x)); reflexivity.
Qed.

End Hushed.

Section SetterRun.

Lemma calm_of m :
  (forall k cv, _computed m !! k = Some cv ->
     cache cv = true \/ override cv = true) ->
  forall k, refreshes k m = false.
Proof.
  intros H k. unfold refreshes.
  destruct (_computed m !! k) as [cv|] eqn:E; [|apply andb_false_r].
  destruct (H k cv E) as [-> | ->]; simpl; rewrite ?andb_false_r; reflexivity.
Qed.

(** A run of the setter of the computed value [id], a root key that
    clients observe only, where the other computed values are cached or
    overridden: the triggers are read, the tree gets the value of the
    function at [id], the clients are told, and the cache flag is what the
    options said. *)
Lemma setter_run n id m cv kd props :
  _computed m !! id = Some cv ->
  others_settled id m ->
  top_level id -> _data m = VObj kd props ->
  Forall client_observer (bucket id m) ->
  let v := fn cv (map (fun t => stored t m) (triggers cv)) in
  exists m',
    setter (S n) id m = Ok tt m'
    /\ _observers m' = _observers m /\ queueing m' = queueing m
    /\ length (groups m') = length (groups m)
    /\ (forall g, g ∉ map group (bucket id m) ->
          group_previousValue g m' = group_previousValue g m)
    /\ _data m' = VObj kd (prop_update id v props)
    /\ _computed m' !! id
       = Some (with_cache (cache_option cv)
                 (with_override false (with_last_value v (with_cache true cv))))
    /\ (forall k, k <> id -> _computed m' !! k = _computed m !! k)
    /\ _referToCache m' = false.
Proof.
  intros Hc Hother Hid Hd Hcl v.
  cbn [setter]. unfold setter_body. unfold bind at 1. unfold gets at 1.
  rewrite Hc. cbv beta iota.
  unfold bind at 1. unfold modify at 1. cbv beta iota.
  set (m1 := update_computed id (with_cache true) m).
  unfold bind at 1. unfold modify at 1. cbv beta iota.
  set (m2 := set_computing true m1).
  assert (Hc2 : _computed m2 !! id = Some (with_cache true cv)).
  { change (_computed m2) with (alter (with_cache true) id (_computed m)).
    rewrite lookup_alter_eq, Hc. reflexivity. }
  assert (Hother2 : forall k, k <> id -> _computed m2 !! k = _computed m !! k).
  { intros k Hk.
    change (_computed m2) with (alter (with_cache true) id (_computed m)).
    rewrite lookup_alter_ne by congruence. reflexivity. }
  assert (Hcalm2 : forall k, refreshes k m2 = false).
  { apply calm_of. intros k cv' Hk. destruct (decide (k = id)) as [->|Hne].
    - rewrite Hc2 in Hk. inversion Hk. left. reflexivity.
    - rewrite (Hother2 k Hne) in Hk. apply (Hother k cv' Hk Hne). }
  unfold bind at 1. unfold getter. unfold bind at 1.
  rewrite (trigger_values_stored (setter n) (triggers cv) m2 Hcalm2).
  cbv beta iota. unfold bind at 1. unfold modify at 1. cbv beta iota.
  unfold ret at 1. cbv beta iota.
  change (fn cv (map (fun t => stored t m2) (triggers cv))) with v.
  set (m3 := update_computed id (with_last_value v) m2).
  assert (Hc3 : _computed m3 !! id = Some (with_last_value v (with_cache true cv))).
  { change (_computed m3) with (alter (with_last_value v) id (_computed m2)).
    rewrite lookup_alter_eq, Hc2. reflexivity. }
  unfold bind at 1.
  rewrite (set_root_computing (setter n) id v false m3 _ kd props Hid Hc3 eq_refl Hd).
  cbv zeta.
  set (m4 := set_data _ _).
  assert (Hc4 : _computed m4 !! id
                = Some (with_override false (with_last_value v (with_cache true cv)))).
  { change (_computed m4) with (alter (with_override false) id (_computed m3)).
    rewrite lookup_alter_eq, Hc3. reflexivity. }
  assert (Hother4 : forall k, k <> id -> _computed m4 !! k = _computed m !! k).
  { intros k Hk.
    change (_computed m4)
      with (alter (with_override false) id
              (alter (with_last_value v) id (_computed m2))).
    rewrite !lookup_alter_ne by congruence. apply Hother2, Hk. }
  assert (Hcalm4 : forall k, refreshes k m4 = false).
  { apply calm_of. intros k cv' Hk. destruct (decide (k = id)) as [->|Hne].
    - rewrite Hc4 in Hk. inversion Hk. left. reflexivity.
    - rewrite (Hother4 k Hne) in Hk. apply (Hother k cv' Hk Hne). }
  assert (Hnote : exists m5,
    (if false || negb (isEqual (stored id m3) v)
     then (_notifyObservers (setter n) id v false ;; ret RThis) m4
     else Ok RThis m4) = Ok RThis m5
    /\ hushed (map group (bucket id m)) m4 m5).
  { destruct (false || negb (isEqual (stored id m3) v)).
    - destruct (notify_clients (setter n) id v false m4 Hcalm4 Hid Hcl)
        as (m5 & H5 & Hh).
      exists m5. unfold bind. rewrite H5. split; [reflexivity | exact Hh].
    - exists m4. split; [reflexivity | apply hushed_refl]. }
  destruct Hnote as (m5 & -> & ((Q1 & Q2 & Q3 & Q4) & Hq5 & Hl5 & Hg5)).
  unfold modify. eexists. split; [reflexivity|].
  split; [simpl; rewrite Q2; reflexivity|].
  split; [simpl; rewrite Hq5; reflexivity|].
  split; [simpl; rewrite Hl5; reflexivity|].
  split.
  { intros g Hg. change (group_previousValue g (update_computed id _ m5))
      with (group_previousValue g m5). rewrite (Hg5 g Hg). reflexivity. }
  split; [simpl; rewrite Q1; reflexivity|].
  split.
  { unfold update_computed. simpl. rewrite lookup_alter_eq, Q3, Hc4. reflexivity. }
  split.
  { intros k Hk. unfold update_computed. simpl.
    rewrite lookup_alter_ne by congruence. rewrite Q3. apply Hother4, Hk. }
  simpl. rewrite Q4. reflexivity.
Qed.

End SetterRun.

Section Tracking.

Variables (id : string) (f : list value -> value) (ts : list string).

Lemma wired_calm m : wired id f ts m -> forall k, refreshes k m = false.
Proof.
  intros (cv & kd & props & Hc & Hother & _ & _ & Hcache & _). apply calm_of.
  intros k cv' Hk. destruct (decide (k = id)) as [->|Hne].
  - rewrite Hc in Hk. inversion Hk; subst. left. exact Hcache.
  - rewrite (Hother k Hne) in Hk. discriminate Hk.
Qed.

(** What being wired depends on. *)
Lemma wired_keep m m' :
  wired id f ts m ->
  _observers m' = _observers m -> queueing m' = queueing m ->
  length (groups m') = length (groups m) ->
  (exists kd props, _data m' = VObj kd props) ->
  (exists cv, _computed m' !! id = Some cv /\ fn cv = f /\ triggers cv = ts
              /\ cache cv = true /\ cache_option cv = true) ->
  (forall k, k <> id -> _computed m' !! k = None) ->
  wired id f ts m'.
Proof.
  intros (cv & kd & props & Hc & Hother & Hf & Ht & Hcache & Hco & Hid & Hts
          & Hnin & Hd & Hq & Hreg) Ho Hq' Hlen (kd' & props' & Hd')
         (cv' & Hc' & Hf' & Ht' & Hcache' & Hco') Hother'.
  exists cv', kd', props'.
  assert (Hb : forall k, bucket k m' = bucket k m).
  { intros k. unfold bucket. rewrite Ho. reflexivity. }
  repeat (split; [assumption || congruence|]).
  intros k o Hin. rewrite Hb in Hin.
  destruct (Hreg k o Hin) as [Hcl|[Hk (H1 & H2 & Hlt & H3)]]; [left; exact Hcl|].
  right. split; [exact Hk|]. split; [exact H1|]. split; [exact H2|].
  split; [rewrite Hlen; exact Hlt|].
  intros k' o' Hin'. rewrite Hb in Hin'. apply (H3 k' o' Hin').
Qed.

Lemma wired_hushed G m m' : wired id f ts m -> hushed G m m' -> wired id f ts m'.
Proof.
  intros Hw ((Hd & Ho & Hc & _) & Hq & Hlen & _).
  pose proof Hw as (cv & kd & props & Hcv & Hother & Hf & Ht & Hcache & Hco & _
                    & _ & _ & Hdata & _).
  apply (wired_keep m m' Hw Ho Hq Hlen).
  - exists kd, props. rewrite Hd. exact Hdata.
  - exists cv. rewrite Hc. auto.
  - intros k Hk. rewrite Hc. apply Hother, Hk.
Qed.

Lemma wired_clients m o :
  wired id f ts m -> o ∈ bucket id m -> client_observer o.
Proof.
  intros (cv & kd & props & _ & _ & _ & _ & _ & _ & _ & _ & Hnin & _ & _ & Hreg) Hin.
  destruct (Hreg id o Hin) as [H|[H _]]; [exact H | contradiction].
Qed.

(** A run of the setter of [id]: the tree gets the value of [f] at [id],
    the clients that observe [id] hear of it. *)
Lemma setter_recomputes n m :
  wired id f ts m ->
  exists m',
    setter (S n) id m = Ok tt m'
    /\ wired id f ts m' /\ _observers m' = _observers m
    /\ length (groups m') = length (groups m)
    /\ (forall g, g ∉ map group (bucket id m) ->
          group_previousValue g m' = group_previousValue g m)
    /\ (forall k, top_level k -> k <> id -> stored k m' = stored k m)
    /\ stored id m' = f (map (fun t => stored t m) ts)
    /\ exists cv', _computed m' !! id = Some cv'
                   /\ last_value cv' = f (map (fun t => stored t m) ts).
Proof.
  intros Hw.
  pose proof Hw as (cv & kd & props & Hc & Hother & Hf & Ht & Hcache & Hco & Hid
                    & Hts & Hnin & Hd & Hq & Hreg).
  destruct (setter_run n id m cv kd props Hc) as
    (m' & Hrun & Ho & Hq' & Hl & Hg & Hd' & Hc' & Hother' & _);
    [|exact Hid|exact Hd| |].
  { intros k cv' Hk Hne. rewrite (Hother k Hne) in Hk. discriminate Hk. }
  { apply Forall_forall. intros o Ho. apply (wired_clients m o Hw Ho). }
  rewrite Hf, Ht in Hd', Hc'.
  exists m'. split; [exact Hrun|].
  split; [|split; [exact Ho|split; [exact Hl|split; [exact Hg|split; [|split]]]]].
  - apply (wired_keep m m' Hw Ho Hq' Hl).
    + eexists _, _. exact Hd'.
    + eexists. split; [exact Hc'|]. simpl. rewrite Hco. auto.
    + intros k Hk. rewrite (Hother' k Hk). apply Hother, Hk.
  - intros k Hk Hne. rewrite (stored_root k m' kd _ Hk Hd').
    rewrite (stored_root k m kd props Hk Hd).
    rewrite prop_lookup_update_ne by congruence. reflexivity.
  - rewrite (stored_root id m' kd _ Hid Hd'). rewrite prop_lookup_update.
    reflexivity.
  - eexists. split; [exact Hc' | reflexivity].
Qed.

Lemma wired_setter m k o :
  wired id f ts m -> o ∈ bucket k m -> callback o = Setter id ->
  k ∈ ts /\ trigger_observer id k m o.
Proof.
  intros (cv & kd & props & _ & _ & _ & _ & _ & _ & _ & _ & _ & _ & _ & Hreg) Hin Hcb.
  destruct (Hreg k o Hin) as [[c Hc]|H]; [congruence | exact H].
Qed.

(** The group of a setter's observer is no group of an observer of [id]. *)
Lemma setter_group_apart m k o :
  wired id f ts m -> o ∈ bucket k m -> callback o = Setter id ->
  group o ∉ map group (bucket id m).
Proof.
  intros Hw Hin Hcb Hg. apply list_elem_of_fmap in Hg as (o' & Hgo & Hin').
  destruct (wired_setter m k o Hw Hin Hcb) as (_ & _ & _ & _ & Hpriv).
  assert (o' = o) by (apply (Hpriv id o' Hin'); congruence). subst o'.
  destruct (wired_clients m o Hw Hin') as [c Hc]. congruence.
Qed.

Lemma follows_same m m' :
  stored id m' = stored id m ->
  (forall t, t ∈ ts -> stored t m' = stored t m) ->
  follows id f ts m -> follows id f ts m'.
Proof.
  intros Hi Hs Hf. unfold follows in *. rewrite Hi, Hf. f_equal.
  apply map_ext_in. intros t Ht. symmetry. apply Hs.
  apply list_elem_of_In. exact Ht.
Qed.

Lemma previousValue_set g x m :
  g < length (groups m) ->
  group_previousValue g (update_group g (with_previousValue x) m) = x.
Proof.
  intros Hlt. unfold group_previousValue, update_group. simpl.
  rewrite list_lookup_alter_eq.
  destruct (lookup_lt_is_Some_2 (groups m) g Hlt) as [grp ->]. reflexivity.
Qed.

(** One round of the first loop of [_notifyObservers] for the root key
    [k], which has just been given the value [x]. *)
Lemma notify_step n k x force o m :
  wired id f ts m -> top_level k -> k <> id -> o ∈ bucket k m ->
  exists m',
    notify_observer (setter (S n)) k x force o m = Ok tt m'
    /\ wired id f ts m' /\ _observers m' = _observers m
    /\ (forall q, top_level q -> q <> id -> stored q m' = stored q m)
    /\ (forall g, g <> group o -> g ∉ map group (bucket id m) ->
          group_previousValue g m' = group_previousValue g m)
    /\ (follows id f ts m -> follows id f ts m')
    /\ (callback o = Setter id ->
          group_previousValue (group o) m' = x
          /\ (force || negb (isEqual x (group_previousValue (group o) m)) = true ->
              follows id f ts m')).
Proof.
  intros Hw Hk Hne Hin.
  pose proof Hw as (cv & kd & props & Hc & Hother & Hf & Ht & Hcache & Hco & Hid
                    & Hts & Hnin & Hd & Hq & Hreg).
  destruct (Hreg k o Hin) as [Hcl|(Hkts & Hcb & Horig & Hlt & Hpriv)].
  - destruct (notify_client (setter (S n)) k x force o m (wired_calm m Hw) Hcl)
      as (m' & Hrun & Hh).
    pose proof Hh as ((Q1 & Q2 & Q3 & Q4) & Hq' & Hl' & Hg').
    assert (Hs : forall q, stored q m' = stored q m).
    { intros q. unfold stored. rewrite Q1. reflexivity. }
    exists m'. split; [exact Hrun|]. split; [apply (wired_hushed _ m m' Hw Hh)|].
    split; [exact Q2|]. split; [intros q _ _; apply Hs|].
    split; [|split].
    + intros g Hg _. apply Hg'. intros Hg1. apply list_elem_of_singleton in Hg1.
      congruence.
    + apply (follows_same m m'); [apply Hs | intros q _; apply Hs].
    + intros Hcb. destruct Hcl as [c Hcl]. congruence.
  - unfold notify_observer. unfold bind at 1. unfold gets at 1. cbv beta iota.
    rewrite <- Horig, String.eqb_refl. unfold bind at 1. unfold ret at 1.
    cbv beta iota. unfold bind at 1. unfold modify at 1. cbv beta iota.
    set (m1 := update_group (group o) (with_previousValue x) m).
    assert (Hw1 : wired id f ts m1).
    { apply (wired_keep m m1 Hw); try reflexivity.
      - unfold m1, update_group. simpl. apply length_alter.
      - exists kd, props. exact Hd.
      - exists cv. auto.
      - exact Hother. }
    assert (Hp1 : group_previousValue (group o) m1 = x).
    { apply previousValue_set. exact Hlt. }
    assert (Hg1 : forall g, g <> group o ->
                    group_previousValue g m1 = group_previousValue g m).
    { intros g Hg. apply previousValue_other. exact Hg. }
    assert (Hapart : group o ∉ map group (bucket id m)).
    { apply (setter_group_apart m k o Hw Hin Hcb). }
    destruct (negb force && isEqual x (group_previousValue (group o) m)) eqn:E.
    + exists m1. split; [reflexivity|]. split; [exact Hw1|].
      split; [reflexivity|]. split; [reflexivity|].
      split; [intros g Hg _; apply Hg1, Hg|].
      split; [intros H; exact H|].
      intros _. split; [exact Hp1|]. intros Hfire. exfalso.
      destruct force; simpl in *; [discriminate E|]. rewrite E in Hfire.
      discriminate Hfire.
    + unfold deliver. unfold bind at 1. unfold gets at 1.
      change (queueing m1) with (queueing m). rewrite Hq. cbv beta iota.
      rewrite Hcb. cbn [invoke].
      destruct (setter_recomputes n m1 Hw1)
        as (m' & Hrun & Hw' & Ho' & Hl' & Hg' & Hs' & Hv' & _).
      assert (Hfol : follows id f ts m').
      { unfold follows. rewrite Hv'. f_equal. apply map_ext_in. intros t Hin_t.
        symmetry. apply list_elem_of_In in Hin_t. apply Hs'.
        - rewrite Forall_forall in Hts. apply Hts, Hin_t.
        - intros ->. contradiction. }
      exists m'. split; [exact Hrun|]. split; [exact Hw'|].
      split; [exact Ho'|]. split; [exact Hs'|].
      split; [|split].
      * intros g Hg Hg2. rewrite (Hg' g Hg2). apply Hg1, Hg.
      * intros _. exact Hfol.
      * intros _. split; [|intros _; exact Hfol].
        rewrite (Hg' _ Hapart). exact Hp1.
Qed.

(** The first loop of [_notifyObservers] for the root key [k], over
    observers registered under it. *)
Lemma notify_pass n k x force l : forall m,
  wired id f ts m -> top_level k -> k <> id ->
  (forall o, o ∈ l -> o ∈ bucket k m) ->
  exists m',
    for_each (notify_observer (setter (S n)) k x force) l m = Ok tt m'
    /\ wired id f ts m' /\ _observers m' = _observers m
    /\ (forall q, top_level q -> q <> id -> stored q m' = stored q m)
    /\ (forall g, g ∉ map group l -> g ∉ map group (bucket id m) ->
          group_previousValue g m' = group_previousValue g m)
    /\ (follows id f ts m -> follows id f ts m')
    /\ (forall o, o ∈ l -> callback o = Setter id ->
          group_previousValue (group o) m' = x
          /\ (force || negb (isEqual x (group_previousValue (group o) m)) = true ->
              follows id f ts m')).
Proof.
  induction l as [|b rest IH]; intros m Hw Hk Hne Hl.
  - exists m. split; [reflexivity|]. split; [exact Hw|].
    split; [reflexivity|]. split; [reflexivity|]. split; [reflexivity|].
    split; [auto|]. intros o Ho. inversion Ho.
  - cbn [for_each]. unfold bind at 1.
    assert (Hb : b ∈ bucket k m) by (apply Hl; left).
    destruct (notify_step n k x force b m Hw Hk Hne Hb)
      as (m1 & -> & Hw1 & Ho1 & Hs1 & Hg1 & Hf1 & Hb1).
    assert (Hbk : forall q, bucket q m1 = bucket q m).
    { intros q. unfold bucket. rewrite Ho1. reflexivity. }
    destruct (IH m1 Hw1 Hk Hne) as (m2 & -> & Hw2 & Ho2 & Hs2 & Hg2 & Hf2 & Hr2).
    { intros o Ho. rewrite Hbk. apply Hl. right. exact Ho. }
    exists m2. split; [reflexivity|]. split; [exact Hw2|].
    split; [congruence|].
    split; [intros q Hq1 Hq2; rewrite (Hs2 q Hq1 Hq2); apply (Hs1 q Hq1 Hq2)|].
    split; [|split].
    + intros g Hg Hgid. rewrite Hg2.
      * apply Hg1; [|exact Hgid]. intros ->. apply Hg. simpl. left.
      * intros Hin. apply Hg. simpl. right. exact Hin.
      * rewrite Hbk. exact Hgid.
    + intros H. apply Hf2, Hf1, H.
    + assert (Hhead : callback b = Setter id ->
                group_previousValue (group b) m2 = x).
      { intros Hcb. destruct (Hb1 Hcb) as [Hp _].
        destruct (decide (group b ∈ map group rest)) as [Hin|Hout].
        - apply list_elem_of_fmap in Hin as (o' & Hgo & Hin').
          destruct (wired_setter m k b Hw Hb Hcb) as (_ & _ & _ & _ & Hpriv).
          assert (o' = b).
          { apply (Hpriv k o'); [apply Hl; right; exact Hin' | congruence]. }
          subst o'. apply (Hr2 b Hin' Hcb).
        - rewrite (Hg2 _ Hout); [exact Hp|]. rewrite Hbk.
          apply (setter_group_apart m k b Hw Hb Hcb). }
      intros o Ho Hcb. apply elem_of_cons in Ho as [->|Ho].
      * split; [apply Hhead, Hcb|]. intros Hfire.
        apply Hf2. apply (Hb1 Hcb). exact Hfire.
      * split; [apply (Hr2 o Ho Hcb)|]. intros Hfire.
        destruct (decide (group o = group b)) as [Heq|Hdiff].
        -- assert (o = b).
           { assert (Hob : o ∈ bucket k m) by (apply Hl; right; exact Ho).
             destruct (wired_setter m k o Hw Hob Hcb) as (_ & _ & _ & _ & Hpriv).
             symmetry. apply (Hpriv k b Hb). congruence. }
           subst o. apply Hf2. apply (Hb1 Hcb). exact Hfire.
        -- apply (Hr2 o Ho Hcb). rewrite Hg1; [exact Hfire | exact Hdiff |].
           apply (setter_group_apart m k o Hw); [apply Hl; right; exact Ho | exact Hcb].
Qed.

(** [set] of a root key other than [id], not silent. *)
Lemma set_tracked n k x force m :
  tracked id f ts m -> top_level k -> k <> id ->
  exists m',
    set_keypath (setter (S n)) k x false force m = Ok RThis m'
    /\ tracked id f ts m' /\ stored k m' = x
    /\ (forall q, top_level q -> q <> k -> q <> id -> stored q m' = stored q m).
Proof.
  intros (Hw & Hpres & Hsync & Hfol) Hk Hne.
  pose proof Hw as (cv & kd & props & Hc & Hother & Hf & Ht & Hcache & Hco & Hid
                    & Hts & Hnin & Hd & Hq & Hreg).
  rewrite Forall_forall in Hts.
  rewrite (set_root (setter (S n)) k x false force m kd props Hk (Hother k Hne) Hd).
  cbv zeta. change (negb false) with true. cbv beta iota.
  change (true && (force || negb (isEqual (stored k m) x)))
    with (force || negb (isEqual (stored k m) x)).
  set (m1 := set_data _ _).
  assert (Hd1 : _data m1 = VObj kd (prop_update k x props)) by reflexivity.
  assert (Hw1 : wired id f ts m1).
  { apply (wired_keep m m1 Hw); try reflexivity.
    - exists kd, (prop_update k x props). exact Hd1.
    - exists cv. auto.
    - exact Hother. }
  assert (Hs1k : stored k m1 = x).
  { rewrite (stored_root k m1 kd _ Hk Hd1), prop_lookup_update. reflexivity. }
  assert (Hs1q : forall q, top_level q -> q <> k -> stored q m1 = stored q m).
  { intros q Hq1 Hq2. rewrite (stored_root q m1 kd _ Hq1 Hd1).
    rewrite (stored_root q m kd props Hq1 Hd).
    rewrite prop_lookup_update_ne by congruence. reflexivity. }
  assert (Hts_ne : forall t, t ∈ ts -> t <> id) by (intros t Hin ->; contradiction).
  destruct (force || negb (isEqual (stored k m) x)) eqn:E.
  - unfold bind at 1. unfold _notifyObservers. unfold bind at 1. unfold gets at 1.
    cbv beta iota. fold (bucket k m1).
    destruct (notify_pass n k x force (bucket k m1) m1 Hw1 Hk Hne (fun o H => H))
      as (m2 & Hrun & Hw2 & Ho2 & Hs2 & Hg2 & Hf2 & Hr2).
    unfold bind at 1. rewrite Hrun. cbv beta iota.
    rewrite (top_level_upstream k Hk). cbn [for_each]. unfold ret.
    assert (Hbk : forall q, bucket q m2 = bucket q m).
    { intros q. unfold bucket. rewrite Ho2. reflexivity. }
    exists m2. split; [reflexivity|].
    split; [|split].
    + split; [exact Hw2|]. split; [|split].
      * intros t Hin. rewrite Hbk. apply Hpres, Hin.
      * intros q o Hin Hcb. rewrite Hbk in Hin.
        destruct (wired_setter m q o Hw Hin Hcb) as (Hqts & _ & Horig & _ & Hpriv).
        destruct (decide (q = k)) as [->|Hqk].
        -- rewrite (Hs2 k Hk Hne), Hs1k. apply (Hr2 o Hin Hcb).
        -- rewrite (Hs2 q (Hts q Hqts) (Hts_ne q Hqts)).
           rewrite (Hs1q q (Hts q Hqts) Hqk).
           rewrite Hg2.
           ++ apply (Hsync q o Hin Hcb).
           ++ intros Hg. apply list_elem_of_fmap in Hg as (o' & Hgo & Hin').
              assert (o' = o) by (apply (Hpriv k o' Hin'); congruence). subst o'.
              destruct (wired_setter m k o Hw Hin' Hcb) as (_ & _ & Horig' & _).
              congruence.
           ++ apply (setter_group_apart m q o Hw Hin Hcb).
      * destruct (decide (k ∈ ts)) as [Hin|Hout].
        -- destruct (Hpres k Hin) as (o & Ho & Hcb).
           apply (Hr2 o Ho Hcb).
           change (group_previousValue (group o) m1)
             with (group_previousValue (group o) m).
           rewrite (Hsync k o Ho Hcb), isEqual_sym. exact E.
        -- apply Hf2. apply (follows_same m m1); [| |exact Hfol].
           ++ apply Hs1q; [exact Hid | congruence].
           ++ intros t Hin. apply Hs1q; [apply Hts, Hin|]. intros ->. contradiction.
    + rewrite (Hs2 k Hk Hne). exact Hs1k.
    + intros q Hq1 Hq2 Hq3. rewrite (Hs2 q Hq1 Hq3). apply Hs1q; assumption.
  - apply orb_false_elim in E as [-> E]. apply negb_false_iff, isEqual_eq in E.
    assert (Hs1 : forall q, top_level q -> stored q m1 = stored q m).
    { intros q Hq1. destruct (decide (q = k)) as [->|Hqk]; [congruence|].
      apply Hs1q; assumption. }
    exists m1. split; [reflexivity|]. split; [|split].
    + split; [exact Hw1|]. split; [exact Hpres|]. split.
      * intros q o Hin Hcb.
        destruct (wired_setter m q o Hw Hin Hcb) as (Hqts & _).
        rewrite (Hs1 q (Hts q Hqts)). apply (Hsync q o Hin Hcb).
      * apply (follows_same m m1); [| |exact Hfol].
        -- apply Hs1, Hid.
        -- intros t Hin. apply Hs1, Hts, Hin.
    + exact Hs1k.
    + intros q Hq1 Hq2 _. apply Hs1q; assumption.
Qed.

Lemma indexOf_absent needle l : needle ∉ l -> indexOf needle l = None.
Proof.
  induction l as [|a rest IH]; intros Hn; [reflexivity|]. simpl.
  destruct (String.eqb_spec a needle) as [->|_]; [exfalso; apply Hn; left|].
  rewrite IH; [reflexivity|]. intros Hin. apply Hn. right. exact Hin.
Qed.

(** [observe] for a root key registers one observer. *)
Lemma observe_root call t cb m :
  top_level t -> refreshes t m = false ->
  observe call t cb false m
  = Ok (Some (length (groups m)))
      (update_group (length (groups m)) (with_previousValue (stored t m))
         (update_group (length (groups m))
            (fun grp => with_members
               (members grp ++ [new_observer t cb (length (groups m)) t]) grp)
            (set_observers
               (<[t := bucket t m ++ [new_observer t cb (length (groups m)) t]]>
                  (_observers m))
               (set_groups
                  (groups m ++ [{| members := []; __previousValue := VUndef |}])
                  m)))).
Proof.
  intros Ht Hrf. unfold observe.
  destruct (String.eqb_spec t "") as [->|_]; [destruct Ht as [H _]; congruence|].
  rewrite (top_level_standard t Ht), (top_level_upstream t Ht).
  unfold bind at 1. unfold gets at 1. cbv beta iota.
  unfold bind at 1. unfold modify at 1. cbv beta iota.
  unfold bind at 1. cbn [for_each]. unfold bind at 1. unfold register at 1.
  unfold modify at 1. cbv beta iota. unfold ret at 1. cbv beta iota.
  unfold bind at 1. unfold ret at 1. cbv beta iota.
  unfold bind at 1. rewrite get_no_refresh by exact Hrf.
  cbv beta iota. unfold bind at 1. unfold modify at 1. cbv beta iota.
  reflexivity.
Qed.

(** One round of the loop of [compute] over the triggers. *)
Lemma observe_trigger call t m :
  wired id f ts m -> t ∈ ts ->
  (forall k o, o ∈ bucket k m -> group o < length (groups m)) ->
  (forall k o, o ∈ bucket k m -> callback o = Setter id ->
     group_previousValue (group o) m = stored k m) ->
  exists m',
    (let! g := observe call t (Setter id) false in
     modify (update_computed id (fun cv =>
       with_observerGroups (observerGroups cv ++ [g]) cv))) m = Ok tt m'
    /\ wired id f ts m'
    /\ (forall k o, o ∈ bucket k m' -> group o < length (groups m'))
    /\ (forall k o, o ∈ bucket k m' -> callback o = Setter id ->
          group_previousValue (group o) m' = stored k m')
    /\ _data m' = _data m
    /\ (forall k o, o ∈ bucket k m -> o ∈ bucket k m')
    /\ (exists o, o ∈ bucket t m' /\ callback o = Setter id)
    /\ (forall cv, _computed m !! id = Some cv ->
          exists cv', _computed m' !! id = Some cv'
                      /\ last_value cv' = last_value cv).
Proof.
  intros Hw Hin Hgr Hsy.
  pose proof Hw as (cv & kd & props & Hc & Hother & Hf & Ht & Hcache & Hco & Hid
                    & Hts & Hnin & Hd & Hq & Hreg).
  rewrite Forall_forall in Hts.
  unfold bind at 1.
  rewrite (observe_root call t (Setter id) m (Hts t Hin) (wired_calm m Hw t)).
  cbv beta iota. unfold modify.
  set (gid := length (groups m)). set (o := new_observer t (Setter id) gid t).
  eexists. split; [reflexivity|].
  set (m' := update_computed id _ _).
  assert (Hbk : forall q, bucket q m'
                  = if decide (q = t) then bucket t m ++ [o] else bucket q m).
  { intros q. unfold bucket at 1.
    change (_observers m') with (<[t := bucket t m ++ [o]]> (_observers m)).
    destruct (decide (q = t)) as [->|Hne].
    - rewrite lookup_insert_eq. reflexivity.
    - rewrite lookup_insert_ne by congruence. reflexivity. }
  assert (Hmem : forall q o', o' ∈ bucket q m'
                   <-> o' ∈ bucket q m \/ (q = t /\ o' = o)).
  { intros q o'. rewrite Hbk. destruct (decide (q = t)) as [->|Hne].
    - rewrite elem_of_app, list_elem_of_singleton. tauto.
    - tauto. }
  assert (Hlen : length (groups m') = S gid).
  { unfold m', update_computed, update_group. simpl.
    rewrite !length_alter, length_app. simpl. unfold gid. lia. }
  assert (Hold : forall g, g < gid ->
            group_previousValue g m' = group_previousValue g m).
  { intros g Hg. unfold group_previousValue, m', update_computed, update_group.
    simpl. rewrite !list_lookup_alter_ne by lia.
    rewrite lookup_app_l by exact Hg. reflexivity. }
  assert (Hnew : group_previousValue gid m' = stored t m).
  { unfold group_previousValue, m', update_computed, update_group. simpl.
    rewrite !list_lookup_alter_eq. rewrite lookup_app_r by (unfold gid; lia).
    unfold gid. rewrite Nat.sub_diag. reflexivity. }
  assert (Hc' : _computed m' !! id
                = Some (with_observerGroups (observerGroups cv ++ [Some gid]) cv)).
  { change (_computed m')
      with (alter (fun cv => with_observerGroups (observerGroups cv ++ [Some gid]) cv)
              id (_computed m)).
    rewrite lookup_alter_eq, Hc. reflexivity. }
  split; [|split; [|split; [|split; [|split; [|split]]]]].
  - exists (with_observerGroups (observerGroups cv ++ [Some gid]) cv), kd, props.
    split; [exact Hc'|]. split.
    { intros k Hk.
      change (_computed m')
        with (alter (fun cv => with_observerGroups (observerGroups cv ++ [Some gid]) cv)
                id (_computed m)).
      rewrite lookup_alter_ne by congruence. apply Hother, Hk. }
    split; [exact Hf|]. split; [exact Ht|]. split; [exact Hcache|].
    split; [exact Hco|]. split; [exact Hid|].
    split; [apply Forall_forall; exact Hts|]. split; [exact Hnin|].
    split; [exact Hd|]. split; [exact Hq|].
    intros k o' Ho'. apply Hmem in Ho' as [Ho'|[-> ->]].
    + destruct (Hreg k o' Ho') as [Hcl|(Hk & Hcb & Horig & Hlt & Hpriv)];
        [left; exact Hcl|].
      right. split; [exact Hk|]. split; [exact Hcb|]. split; [exact Horig|].
      split; [rewrite Hlen; fold gid in Hlt; lia|].
      intros k' o'' Ho'' Hg. apply Hmem in Ho'' as [Ho''|[-> ->]].
      * apply (Hpriv k' o'' Ho'' Hg).
      * exfalso. simpl in Hg. fold gid in Hlt. lia.
    + right. split; [exact Hin|]. split; [reflexivity|]. split; [reflexivity|].
      split; [rewrite Hlen; simpl; lia|].
      intros k' o'' Ho'' Hg. apply Hmem in Ho'' as [Ho''|[-> ->]]; [|reflexivity].
      exfalso. pose proof (Hgr k' o'' Ho'') as Hlt. fold gid in Hlt.
      simpl in Hg. lia.
  - intros k o' Ho'. rewrite Hlen. apply Hmem in Ho' as [Ho'|[-> ->]].
    + pose proof (Hgr k o' Ho') as Hlt. fold gid in Hlt. lia.
    + simpl. lia.
  - intros k o' Ho' Hcb. change (stored k m') with (stored k m).
    apply Hmem in Ho' as [Ho'|[-> ->]].
    + rewrite Hold; [apply (Hsy k o' Ho' Hcb)|]. apply (Hgr k o' Ho').
    + exact Hnew.
  - reflexivity.
  - intros k o' Ho'. apply Hmem. left. exact Ho'.
  - exists o. split; [apply Hmem; right; split; reflexivity | reflexivity].
  - intros cv0 Hc0. rewrite Hc in Hc0. inversion Hc0; subst cv0.
    eexists. split; [exact Hc' | reflexivity].
Qed.

(** The loop of [compute] over the triggers. *)
Lemma observe_triggers call l : forall m,
  wired id f ts m -> (forall t, t ∈ l -> t ∈ ts) ->
  (forall k o, o ∈ bucket k m -> group o < length (groups m)) ->
  (forall k o, o ∈ bucket k m -> callback o = Setter id ->
     group_previousValue (group o) m = stored k m) ->
  exists m',
    for_each (fun t =>
      let! g := observe call t (Setter id) false in
      modify (update_computed id (fun cv =>
        with_observerGroups (observerGroups cv ++ [g]) cv))) l m = Ok tt m'
    /\ wired id f ts m'
    /\ (forall k o, o ∈ bucket k m' -> callback o = Setter id ->
          group_previousValue (group o) m' = stored k m')
    /\ _data m' = _data m
    /\ (forall k o, o ∈ bucket k m -> o ∈ bucket k m')
    /\ (forall t, t ∈ l -> exists o, o ∈ bucket t m' /\ callback o = Setter id)
    /\ (forall cv, _computed m !! id = Some cv ->
          exists cv', _computed m' !! id = Some cv'
                      /\ last_value cv' = last_value cv).
Proof.
  induction l as [|t rest IH]; intros m Hw Hl Hgr Hsy.
  - exists m. split; [reflexivity|]. split; [exact Hw|]. split; [exact Hsy|].
    split; [reflexivity|]. split; [auto|].
    split; [intros t Ht; inversion Ht|]. intros cv Hc. exists cv. auto.
  - cbn [for_each]. unfold bind at 1.
    destruct (observe_trigger call t m Hw (Hl t ltac:(left)) Hgr Hsy)
      as (m1 & -> & Hw1 & Hgr1 & Hsy1 & Hd1 & Hk1 & Hp1 & Hv1).
    destruct (IH m1 Hw1 (fun t' H => Hl t' ltac:(right; exact H)) Hgr1 Hsy1)
      as (m2 & -> & Hw2 & Hsy2 & Hd2 & Hk2 & Hp2 & Hv2).
    exists m2. split; [reflexivity|]. split; [exact Hw2|]. split; [exact Hsy2|].
    split; [congruence|]. split; [intros k o Ho; apply Hk2, Hk1, Ho|].
    split.
    + intros t' Ht'. apply elem_of_cons in Ht' as [->|Ht'].
      * destruct Hp1 as (o & Ho & Hcb). exists o. split; [apply Hk2, Ho | exact Hcb].
      * apply Hp2, Ht'.
    + intros cv Hc. destruct (Hv1 cv Hc) as (cv1 & Hc1 & E1).
      destruct (Hv2 cv1 Hc1) as (cv2 & Hc2 & E2). exists cv2.
      split; [exact Hc2 | congruence].
Qed.

Lemma cache_setting_triggers o (l : list string) :
  cache_setting o l = true -> Nat.eqb (length l) 0 = false.
Proof. destruct l; [discriminate | reflexivity]. Qed.

(** [compute] on an instance without computed values, where clients
    observe only. *)
Lemma compute_tracked n o m kd props :
  opt_fn o = f -> trigger_list o = ts ->
  inert m -> grouped_observers m ->
  _data m = VObj kd props -> queueing m = false ->
  top_level id -> Forall top_level ts -> id ∉ ts ->
  cache_setting o ts = true ->
  exists m',
    compute (setter (S n)) id o m = Ok (f (map (fun t => stored t m) ts)) m'
    /\ tracked id f ts m'
    /\ (forall q, top_level q -> q <> id -> stored q m' = stored q m).
Proof.
  intros Hf Ht [Hcomp Hobs] Hgr Hd Hq Hid Hts Hnin Hcs.
  assert (Hclient : forall k o', o' ∈ bucket k m -> client_observer o').
  { intros k o' Hin. unfold bucket in Hin.
    destruct (_observers m !! k) as [l|] eqn:E; [|inversion Hin].
    pose proof (Hobs k l E) as Hall. rewrite Forall_forall in Hall.
    apply Hall, Hin. }
  assert (Hgroup : forall k o', o' ∈ bucket k m -> group o' < length (groups m)).
  { intros k o' Hin. unfold bucket in Hin.
    destruct (_observers m !! k) as [l|] eqn:E; [|inversion Hin].
    pose proof (Hgr k l E) as Hall. rewrite Forall_forall in Hall.
    apply Hall, Hin. }
  unfold compute. unfold bind at 1. unfold gets at 1.
  rewrite Hcomp, lookup_empty. cbv beta iota.
  unfold bind at 1. unfold ret at 1. cbv beta iota.
  rewrite Ht, (indexOf_absent id ts Hnin), Hf, Hcs.
  unfold bind at 1. unfold modify at 1. cbv beta iota.
  set (m1 := set_computed _ m).
  assert (Hw1 : wired id f ts m1).
  { eexists _, kd, props. split.
    { unfold m1. simpl. apply lookup_insert_eq. }
    split.
    { intros k Hk. unfold m1. simpl. rewrite lookup_insert_ne by congruence.
      rewrite Hcomp. apply lookup_empty. }
    repeat (split; [reflexivity || assumption|]).
    intros k o' Hin. left. apply (Hclient k o' Hin). }
  destruct (setter_recomputes n m1 Hw1)
    as (m2 & Hrun & Hw2 & Ho2 & Hl2 & Hg2 & Hs2 & Hv2 & (cv2 & Hc2 & Hlv2)).
  unfold bind at 1. rewrite Hrun. cbv beta iota.
  unfold bind at 1. rewrite (cache_setting_triggers o ts Hcs).
  change (false && true) with false. unfold ret at 1. cbv beta iota.
  assert (Hbk : forall k, bucket k m2 = bucket k m).
  { intros k. unfold bucket. rewrite Ho2. reflexivity. }
  destruct (observe_triggers (setter (S n)) (rev ts) m2 Hw2)
    as (m3 & Hloop & Hw3 & Hsy3 & Hd3 & Hk3 & Hp3 & Hv3).
  { intros t Hin. apply list_elem_of_In. apply in_rev.
    apply list_elem_of_In. exact Hin. }
  { intros k o' Hin. rewrite Hbk in Hin. rewrite Hl2. apply (Hgroup k o' Hin). }
  { intros k o' Hin Hcb. rewrite Hbk in Hin.
    destruct (Hclient k o' Hin) as [c Hc]. congruence. }
  unfold bind at 1. rewrite Hloop. cbv beta iota. unfold gets.
  destruct (Hv3 cv2 Hc2) as (cv3 & Hc3 & Hlv3). rewrite Hc3.
  assert (Hst3 : forall q, stored q m3 = stored q m2).
  { intros q. unfold stored. rewrite Hd3. reflexivity. }
  assert (Hts_ne : forall t, t ∈ ts -> t <> id) by (intros t Hin ->; contradiction).
  rewrite Forall_forall in Hts.
  exists m3. split; [|split].
  - f_equal. rewrite Hlv3. exact Hlv2.
  - split; [exact Hw3|]. split; [|split; [exact Hsy3|]].
    + intros t Hin. apply Hp3. apply list_elem_of_In. rewrite <- in_rev.
      apply list_elem_of_In. exact Hin.
    + unfold follows. rewrite Hst3, Hv2. f_equal. apply map_ext_in.
      intros t Hin. apply list_elem_of_In in Hin.
      rewrite Hst3. symmetry. apply Hs2; [apply Hts, Hin | apply Hts_ne, Hin].
  - intros q Hq1 Hq2. rewrite Hst3. apply Hs2; assumption.
Qed.

End Tracking.

(** X18. [compute] with a cached function of root keys, on an instance
    without computed values whose observers are clients', returns the value
    of the function at the values stored under the triggers and writes it at
    the id; the other root keys are as before, and the instance is tracking
    the computed value from then on.  The id and the triggers are ordinary
    keypaths. *)
Theorem compute_follows n id o m kd props :
  inert m -> grouped_observers m ->
  _data m = VObj kd props -> queueing m = false ->
  top_level id -> Forall top_level (trigger_list o) -> id ∉ trigger_list o ->
  Forall ordinary (id :: trigger_list o) ->
  cache_setting o (trigger_list o) = true ->
  let v := opt_fn o (map (fun t => stored t m) (trigger_list o)) in
  exists m',
    compute (setter (S n)) id o m = Ok v m'
    /\ stored id m' = v
    /\ (forall q, top_level q -> q <> id -> stored q m' = stored q m)
    /\ tracked id (opt_fn o) (trigger_list o) m'.
Proof.
  intros Hi Hg Hd Hq Hid Hts Hnin _ Hcs v.
  destruct (compute_tracked id (opt_fn o) (trigger_list o) n o m kd props
              eq_refl eq_refl Hi Hg Hd Hq Hid Hts Hnin Hcs)
    as (m' & Hrun & Htr & Hs).
  exists m'. split; [exact Hrun|]. split; [|split; [exact Hs | exact Htr]].
  destruct Htr as (_ & _ & _ & Hfol). unfold follows in Hfol. rewrite Hfol.
  unfold v. f_equal. apply map_ext_in. intros t Hin. apply Hs.
  - rewrite Forall_forall in Hts. apply Hts. apply list_elem_of_In. exact Hin.
  - intros ->. apply Hnin. apply list_elem_of_In. exact Hin.
Qed.

Lemma compute_follows_witness :
  exists m',
    compute (setter 1) "sum" sum_options
      (Supermodel (VObj Hash [("x", VNum 1); ("y", VNum 2)])) = Ok (VNum 3) m'
    /\ stored "sum" m' = VNum 3
    /\ (forall q, top_level q -> q <> "sum" ->
          stored q m'
          = stored q (Supermodel (VObj Hash [("x", VNum 1); ("y", VNum 2)])))
    /\ tracked "sum" add_numbers ["x"; "y"] m'.
Proof.
  apply (compute_follows 0 "sum" sum_options
           (Supermodel (VObj Hash [("x", VNum 1); ("y", VNum 2)]))
           Hash [("x", VNum 1); ("y", VNum 2)]).
  - split; [reflexivity | apply map_Forall_empty].
  - apply map_Forall_empty.
  - reflexivity.
  - reflexivity.
  - split; [discriminate | split; reflexivity].
  - repeat constructor; discriminate.
  - apply (bool_decide_eq_true_1 ("sum" ∉ ["x"; "y"])). vm_compute. reflexivity.
  - repeat (apply Forall_cons_2; [vm_compute; reflexivity|]). apply Forall_nil_2.
  - reflexivity.
Defined.

(** X19. While a computed value is tracked, a [set] that is not silent of a
    root key other than its id returns, stores the value, and leaves the
    computed value equal to its function of the values now stored under its
    triggers: of the new value where the key is a trigger, of the old ones
    elsewhere; and the computed value is still tracked.  The key, the id
    and the triggers are ordinary keypaths. *)
Theorem trigger_recomputes n id f ts k x force m :
  tracked id f ts m -> top_level k -> k <> id ->
  Forall ordinary (k :: id :: ts) ->
  exists m',
    set_keypath (setter (S n)) k x false force m = Ok RThis m'
    /\ stored k m' = x
    /\ stored id m' = f (map (fun t => stored t m') ts)
    /\ stored id m'
       = f (map (fun t => if String.eqb t k then x else stored t m) ts)
    /\ tracked id f ts m'.
Proof.
  intros Htr Hk Hne _.
  destruct (set_tracked id f ts n k x force m Htr Hk Hne)
    as (m' & Hrun & Htr' & Hsk & Hsq).
  exists m'. split; [exact Hrun|]. split; [exact Hsk|].
  pose proof Htr' as ((cv & kd & props & _ & _ & _ & _ & _ & _ & _ & Hts & Hnin & _)
                      & _ & _ & Hfol).
  split; [exact Hfol|]. split; [|exact Htr'].
  unfold follows in Hfol. rewrite Hfol. f_equal. apply map_ext_in.
  intros t Hin. apply list_elem_of_In in Hin.
  destruct (String.eqb_spec t k) as [->|Htk]; [exact Hsk|].
  apply Hsq; [|exact Htk|].
  - rewrite Forall_forall in Hts. apply Hts, Hin.
  - intros ->. contradiction.
Qed.

Lemma trigger_recomputes_witness :
  exists m',
    set_keypath (setter 1) "x" (VNum 5) false false
      (state_of (compute (setter 1) "sum" sum_options
                   (Supermodel (VObj Hash [("x", VNum 1); ("y", VNum 2)]))))
    = Ok RThis m'
    /\ stored "x" m' = VNum 5
    /\ stored "sum" m' = add_numbers (map (fun t => stored t m') ["x"; "y"])
    /\ stored "sum" m' = VNum 7
    /\ tracked "sum" add_numbers ["x"; "y"] m'.
Proof.
  apply (trigger_recomputes 0 "sum" add_numbers ["x"; "y"] "x" (VNum 5) false).
  - destruct (compute_tracked "sum" add_numbers ["x"; "y"] 0 sum_options
                (Supermodel (VObj Hash [("x", VNum 1); ("y", VNum 2)]))
                Hash [("x", VNum 1); ("y", VNum 2)]) as (m' & Hrun & Htr & _);
      try reflexivity.
    + split; [reflexivity | apply map_Forall_empty].
    + apply map_Forall_empty.
    + split; [discriminate | split; reflexivity].
    + repeat constructor; discriminate.
    + apply (bool_decide_eq_true_1 ("sum" ∉ ["x"; "y"])). vm_compute. reflexivity.
    + rewrite Hrun. exact Htr.
  - split; [discriminate | split; reflexivity].
  - discriminate.
  - repeat (apply Forall_cons_2; [vm_compute; reflexivity|]). apply Forall_nil_2.
Defined.

Section Override.

Variable call : string -> M unit.

(** [set] of a root key that is a computed value, called from outside its
    setter, where the value is not readonly. *)
Lemma set_root_manual k x silent force m cv kd props :
  top_level k -> _computed m !! k = Some cv -> computing m = false ->
  readonly cv = false -> _data m = VObj kd props ->
  set_keypath call k x silent force m
  = let m1 := set_data (VObj kd (prop_update k x props))
                (set_referToCache false (set_referToCache true
                   (update_computed k (with_override true) m))) in
    if negb silent && (force || negb (isEqual (stored k m) x))
    then (_notifyObservers call k x force ;; ret RThis) m1
    else Ok RThis m1.
Proof.
  intros Hk Hc Hcomp Hro Hd. unfold set_keypath. unfold bind at 1. unfold gets at 1.
  rewrite Hc. cbv beta iota. unfold bind at 1. unfold bind at 1. unfold gets at 1.
  rewrite Hcomp. cbv beta iota. change (negb false) with true. cbv iota.
  rewrite Hro. unfold modify at 1. cbv beta iota.
  set (m0 := update_computed k (with_override true) m).
  unfold bind at 1. unfold modify at 1. cbv beta iota.
  unfold bind at 1.
  rewrite get_no_refresh by (unfold refreshes; simpl; rewrite andb_false_r; reflexivity).
  cbv beta iota. unfold bind at 1. unfold modify at 1. cbv beta iota.
  unfold bind at 1. unfold gets at 1. cbv beta iota.
  rewrite (top_level_split k Hk).
  match goal with |- context [assign ?d _ _] => change d with (_data m) end.
  rewrite Hd, assign_root.
  unfold bind at 1. unfold modify at 1. cbv beta iota.
  change (stored k (set_referToCache true m0)) with (stored k m).
  change (join_keys [KStr k]) with k.
  destruct (negb silent && (force || negb (isEqual (stored k m) x))); reflexivity.
Qed.

End Override.

(** X20. [get] of an uncached computed value that has not been overridden
    runs its setter first: it returns the value of the function at the
    values now stored under the triggers, whatever the tree held at the id,
    and the tree holds that value afterwards; the other root keys are as
    before. *)
Theorem get_recomputes n id cv m kd props :
  _computed m !! id = Some cv -> cache cv = false -> override cv = false ->
  _referToCache m = false -> others_settled id m ->
  top_level id -> _data m = VObj kd props ->
  Forall client_observer (bucket id m) ->
  let v := fn cv (map (fun t => stored t m) (triggers cv)) in
  exists m',
    get (setter (S n)) id m = Ok v m'
    /\ stored id m' = v
    /\ (forall q, top_level q -> q <> id -> stored q m' = stored q m).
Proof.
  intros Hc Hcache Hov Hrefer Hothers Hid Hd Hcl v.
  destruct (setter_run n id m cv kd props Hc Hothers Hid Hd Hcl)
    as (m' & Hrun & _ & _ & _ & _ & Hd' & _).
  fold v in Hd'.
  assert (Hv : stored id m' = v).
  { rewrite (stored_root id m' kd _ Hid Hd'), prop_lookup_update. reflexivity. }
  exists m'. split; [|split; [exact Hv|]].
  - unfold get. destruct (String.eqb_spec id "") as [->|_];
      [destruct Hid as [H _]; congruence|].
    unfold bind at 1. unfold gets at 1. rewrite Hrefer. cbv beta iota.
    unfold bind at 1. unfold bind at 1. unfold gets at 1. rewrite Hc, Hcache, Hov.
    cbv beta iota. change (negb false && negb false) with true. cbv iota.
    rewrite Hrun. cbv beta iota. unfold bind, gets, ret.
    f_equal. rewrite <- Hv. unfold stored.
    destruct (String.eqb_spec id "") as [->|_];
      [destruct Hid as [H _]; congruence | reflexivity].
  - intros q Hq Hne. rewrite (stored_root q m' kd _ Hq Hd').
    rewrite (stored_root q m kd props Hq Hd).
    rewrite prop_lookup_update_ne by congruence. reflexivity.
Qed.

Lemma get_recomputes_witness :
  stored "sum" stale_model = VNum 3
  /\ exists m',
       get (setter 1) "sum" stale_model = Ok (VNum 7) m'
       /\ stored "sum" m' = VNum 7
       /\ (forall q, top_level q -> q <> "sum" ->
             stored q m' = stored q stale_model).
Proof.
  split; [reflexivity|].
  apply (get_recomputes 0 "sum"
           {| fn := add_numbers; triggers := ["x"; "y"]; cache_option := false;
              last_value := VNum 3; cache := false; readonly := false;
              override := false; observerGroups := [Some 0; Some 1] |}
           stale_model Hash [("x", VNum 5); ("y", VNum 2); ("sum", VNum 3)]).
  - vm_compute. reflexivity.
  - reflexivity.
  - reflexivity.
  - reflexivity.
  - apply (bool_decide_eq_true_1 (others_settled "sum" stale_model)).
    vm_compute. reflexivity.
  - split; [discriminate | split; reflexivity].
  - reflexivity.
  - apply (bool_decide_eq_true_1
             (Forall client_observer (bucket "sum" stale_model))).
    vm_compute. reflexivity.
Defined.

(** X21. A [set] from outside on a computed root key that is not readonly
    overrides it: the call returns, the value is stored and the computed
    value is flagged as overridden, so that [get] hands the value back
    without running the setter, also where the computed value is uncached. *)
Theorem set_overrides call id cv x silent force m kd props :
  _computed m !! id = Some cv -> readonly cv = false -> computing m = false ->
  others_settled id m -> top_level id -> _data m = VObj kd props ->
  Forall client_observer (bucket id m) ->
  exists m',
    set_keypath call id x silent force m = Ok RThis m'
    /\ _computed m' !! id = Some (with_override true cv)
    /\ stored id m' = x
    /\ get call id m' = Ok x m'.
Proof.
  intros Hc Hro Hcomp Hothers Hid Hd Hcl.
  rewrite (set_root_manual call id x silent force m cv kd props Hid Hc Hcomp Hro Hd).
  cbv zeta. set (m1 := set_data _ _).
  assert (Hc1 : _computed m1 !! id = Some (with_override true cv)).
  { change (_computed m1) with (alter (with_override true) id (_computed m)).
    rewrite lookup_alter_eq, Hc. reflexivity. }
  assert (Hcalm1 : forall k, refreshes k m1 = false).
  { apply calm_of. intros k cv' Hk. destruct (decide (k = id)) as [->|Hne].
    - rewrite Hc1 in Hk. inversion Hk. right. reflexivity.
    - change (_computed m1) with (alter (with_override true) id (_computed m)) in Hk.
      rewrite lookup_alter_ne in Hk by congruence. apply (Hothers k cv' Hk Hne). }
  assert (Hnote : exists m2,
    (if negb silent && (force || negb (isEqual (stored id m) x))
     then (_notifyObservers call id x force ;; ret RThis) m1
     else Ok RThis m1) = Ok RThis m2
    /\ hushed (map group (bucket id m)) m1 m2).
  { destruct (negb silent && (force || negb (isEqual (stored id m) x))).
    - destruct (notify_clients call id x force m1 Hcalm1 Hid Hcl) as (m2 & H2 & Hh).
      exists m2. unfold bind. rewrite H2. split; [reflexivity | exact Hh].
    - exists m1. split; [reflexivity | apply hushed_refl]. }
  destruct Hnote as (m2 & -> & (Q & _)).
  pose proof Q as (Q1 & Q2 & Q3 & Q4).
  assert (Hs : stored id m2 = x).
  { rewrite (stored_root id m2 kd (prop_update id x props) Hid)
      by (rewrite Q1; reflexivity).
    rewrite prop_lookup_update. reflexivity. }
  exists m2. split; [reflexivity|]. split; [rewrite Q3; exact Hc1|].
  split; [exact Hs|].
  rewrite get_no_refresh by (rewrite (refreshes_quiet id m1 m2 Q); apply Hcalm1).
  rewrite Hs. reflexivity.
Qed.

Lemma set_overrides_witness :
  exists m',
    set_keypath (setter 0) "sum" (VNum 100) false false stale_model = Ok RThis m'
    /\ _computed m' !! "sum"
       = Some {| fn := add_numbers; triggers := ["x"; "y"]; cache_option := false;
                 last_value := VNum 3; cache := false; readonly := false;
                 override := true; observerGroups := [Some 0; Some 1] |}
    /\ stored "sum" m' = VNum 100
    /\ get (setter 0) "sum" m' = Ok (VNum 100) m'.
Proof.
  apply (set_overrides (setter 0) "sum"
           {| fn := add_numbers; triggers := ["x"; "y"]; cache_option := false;
              last_value := VNum 3; cache := false; readonly := false;
              override := false; observerGroups := [Some 0; Some 1] |}
           (VNum 100) false false stale_model
           Hash [("x", VNum 5); ("y", VNum 2); ("sum", VNum 3)]).
  - vm_compute. reflexivity.
  - reflexivity.
  - reflexivity.
  - apply (bool_decide_eq_true_1 (others_settled "sum" stale_model)).
    vm_compute. reflexivity.
  - split; [discriminate | split; reflexivity].
  - reflexivity.
  - apply (bool_decide_eq_true_1
             (Forall client_observer (bucket "sum" stale_model))).
    vm_compute. reflexivity.
Defined.

(** X25. A silent [set] of a root key leaves a tracked computed value as it
    was: the value is stored at the key, and [get] of the computed value
    still hands back what the tree held before, whether the key is one of
    its triggers or not.  The key, the id and the triggers are ordinary
    keypaths. *)
Theorem silent_set_stale call id f ts k x force m :
  tracked id f ts m -> top_level k -> k <> id ->
  Forall ordinary (k :: id :: ts) ->
  exists m',
    set_keypath call k x true force m = Ok RThis m'
    /\ stored k m' = x
    /\ get call id m' = Ok (stored id m) m'.
Proof.
  intros (Hw & _) Hk Hne _.
  pose proof Hw as (cv & kd & props & Hc & Hother & Hf & Ht & Hcache & Hco & Hid
                    & Hts & Hnin & Hd & Hq & Hreg).
  rewrite (set_root call k x true force m kd props Hk (Hother k Hne) Hd).
  cbv zeta. change (negb true) with false. cbv beta iota.
  change (false && (force || negb (isEqual (stored k m) x))) with false. cbv iota.
  set (m1 := set_data _ _).
  assert (Hd1 : _data m1 = VObj kd (prop_update k x props)) by reflexivity.
  exists m1. split; [reflexivity|]. split.
  - rewrite (stored_root k m1 kd _ Hk Hd1), prop_lookup_update. reflexivity.
  - rewrite get_no_refresh.
    + f_equal. rewrite (stored_root id m1 kd _ Hid Hd1).
      rewrite (stored_root id m kd props Hid Hd).
      rewrite prop_lookup_update_ne by congruence. reflexivity.
    + unfold refreshes. change (_computed m1) with (_computed m).
      rewrite Hc, Hcache. simpl. apply andb_false_r.
Qed.

Lemma silent_set_stale_witness :
  exists m',
    set_keypath (setter 0) "x" (VNum 5) true false
      (state_of (compute (setter 1) "sum" sum_options
                   (Supermodel (VObj Hash [("x", VNum 1); ("y", VNum 2)]))))
    = Ok RThis m'
    /\ stored "x" m' = VNum 5
    /\ get (setter 0) "sum" m' = Ok (VNum 3) m'.
Proof.
  apply (silent_set_stale (setter 0) "sum" add_numbers ["x"; "y"] "x" (VNum 5) false).
  - destruct (compute_tracked "sum" add_numbers ["x"; "y"] 0 sum_options
                (Supermodel (VObj Hash [("x", VNum 1); ("y", VNum 2)]))
                Hash [("x", VNum 1); ("y", VNum 2)]) as (m' & Hrun & Htr & _);
      try reflexivity.
    + split; [reflexivity | apply map_Forall_empty].
    + apply map_Forall_empty.
    + split; [discriminate | split; reflexivity].
    + repeat constructor; discriminate.
    + apply (bool_decide_eq_true_1 ("sum" ∉ ["x"; "y"])). vm_compute. reflexivity.
    + rewrite Hrun. exact Htr.
  - split; [discriminate | split; reflexivity].
  - discriminate.
  - repeat (apply Forall_cons_2; [vm_compute; reflexivity|]). apply Forall_nil_2.
Defined.

(* ===================================================================== *)
(** ** Who is told of a write *)
(* ===================================================================== *)

Section Heard.

Lemma heard_same P m m' :
  _data m' = _data m -> _observers m' = _observers m ->
  _computed m' = _computed m -> _referToCache m' = _referToCache m ->
  queueing m' = queueing m -> _queue m' = _queue m -> log m' = log m ->
  heard P 0 m m'.
Proof.
  intros H1 H2 H3 H4 H5 H6 H7. repeat (split; [assumption|]).
  destruct (queueing m).
  - split; [exact H7|]. rewrite H6. split; [|split; [auto | lia]].
    apply Forall_forall. intros item Hin. right. exact Hin.
  - split; [exact H6|]. exists []. rewrite app_nil_r.
    split; [exact H7|]. split; [simpl; lia | constructor].
Qed.

Lemma heard_trans P n1 n2 m1 m2 m3 :
  heard P n1 m1 m2 -> heard P n2 m2 m3 -> heard P (n1 + n2) m1 m3.
Proof.
  intros (A1 & A2 & A3 & A4 & A5 & A6) (B1 & B2 & B3 & B4 & B5 & B6).
  repeat (split; [congruence|]).
  rewrite A5 in B6. destruct (queueing m1).
  - destruct A6 as (L1 & F1 & N1 & Len1). destruct B6 as (L2 & F2 & N2 & Len2).
    split; [congruence|]. split; [|split; [auto | lia]].
    rewrite Forall_forall in *. intros item Hin.
    destruct (F2 item Hin) as [H|H]; [left; exact H | apply F1, H].
  - destruct A6 as (Q1 & new1 & L1 & Len1 & F1).
    destruct B6 as (Q2 & new2 & L2 & Len2 & F2).
    split; [congruence|]. exists (new1 ++ new2).
    split; [rewrite L2, L1, app_assoc; reflexivity|].
    split; [rewrite length_app; lia|].
    apply Forall_app. split; [exact F1|].
    rewrite A1 in F2. exact F2.
Qed.

Lemma heard_mono (P Q : closure -> Prop) n n' m m' :
  (forall cb, P cb -> Q cb) -> n <= n' -> heard P n m m' -> heard Q n' m m'.
Proof.
  intros HPQ Hn (A1 & A2 & A3 & A4 & A5 & A6).
  repeat (split; [assumption|]).
  destruct (queueing m).
  - destruct A6 as (L & F & N & Len). split; [exact L|].
    split; [|split; [exact N | lia]].
    eapply Forall_impl; [exact F|]. intros item [H|H]; [left; apply HPQ, H | right; exact H].
  - destruct A6 as (Q1 & new & L & Len & F). split; [exact Q1|]. exists new.
    split; [exact L|]. split; [lia|]. eapply Forall_impl; [exact F|].
    intros e [H1 H2]. split; [apply HPQ, H1 | exact H2].
Qed.

Lemma heard_calm P n m m' :
  heard P n m m' -> (forall k, refreshes k m = false) ->
  forall k, refreshes k m' = false.
Proof.
  intros (_ & _ & A3 & A4 & _) H k. unfold refreshes. rewrite A3, A4. apply H.
Qed.

Lemma remove_queued_sub cb q item : item ∈ remove_queued cb q -> item ∈ q.
Proof.
  induction q as [|a rest IH]; simpl; [auto|].
  destruct (bool_decide (c a = cb)).
  - intros H. right. exact H.
  - intros H. apply elem_of_cons in H as [->|H]; [left | right; apply IH, H].
Qed.

Lemma remove_queued_length cb q : length (remove_queued cb q) <= length q.
Proof.
  induction q as [|a rest IH]; simpl; [lia|].
  destruct (bool_decide (c a = cb)); simpl; lia.
Qed.

Lemma addToQueue_distinct cb x y q :
  NoDup (map c q) ->
  NoDup (map c (remove_queued cb q ++ [{| c := cb; v := x; p := y |}])).
Proof.
  intros Hnd. rewrite (remove_queued_filter cb q Hnd). rewrite map_app.
  apply NoDup_app. split; [|split].
  - eapply sublist_NoDup; [exact Hnd|]. apply (fmap_sublist c).
    apply sublist_filter.
  - intros cb' Hin Hin'. apply list_elem_of_singleton in Hin'. simpl in Hin'. subst cb'.
    apply list_elem_of_fmap in Hin as (item & Hc & Hitem).
    apply list_elem_of_filter in Hitem as [Hne _]. congruence.
  - simpl. apply NoDup_singleton.
Qed.

Variable call : string -> M unit.

Lemma deliver_heard n x y m :
  exists m', deliver call (Client n) x y m = Ok tt m'
             /\ heard (eq (Client n)) 1 m m'.
Proof.
  unfold deliver, bind, gets. destruct (queueing m) eqn:Eq.
  - unfold _addToQueue, modify. eexists. split; [reflexivity|].
    repeat (split; [reflexivity|]). rewrite Eq. simpl.
    split; [reflexivity|]. split; [|split].
    + apply Forall_app. split.
      * apply Forall_forall. intros item Hin. right.
        apply (remove_queued_sub _ _ _ Hin).
      * constructor; [left; reflexivity | constructor].
    + apply addToQueue_distinct.
    + rewrite length_app. simpl. pose proof (remove_queued_length (Client n) (_queue m)). lia.
  - unfold invoke, modify. eexists. split; [reflexivity|].
    repeat (split; [reflexivity|]). rewrite Eq. simpl.
    split; [reflexivity|]. eexists. split; [reflexivity|].
    split; [simpl; lia|].
    constructor; [split; reflexivity | constructor].
Qed.

Lemma notify_observer_heard keypath x force o m :
  (forall k, refreshes k m = false) -> client_observer o ->
  exists m', notify_observer call keypath x force o m = Ok tt m'
             /\ heard (eq (callback o)) 1 m m'.
Proof.
  intros Hm [n Hn]. unfold notify_observer, bind, gets, modify.
  assert (Hget : exists a,
    (if String.eqb keypath (originalKeypath o) then ret x
     else get call (originalKeypath o)) m = Ok a m).
  { destruct (String.eqb keypath (originalKeypath o)); [eexists; reflexivity|].
    eexists. apply get_no_refresh. apply Hm. }
  destruct Hget as [a ->].
  assert (Hup : heard (eq (callback o)) 0 m
                  (update_group (group o) (with_previousValue a) m)).
  { apply heard_same; reflexivity. }
  destruct (negb force && isEqual a (group_previousValue (group o) m)).
  - eexists. split; [reflexivity|].
    eapply heard_mono; [| |exact Hup]; [auto | lia].
  - rewrite Hn. edestruct deliver_heard as (m' & -> & Hq).
    eexists. split; [reflexivity|].
    rewrite Hn in Hup. apply (heard_trans _ 0 1 _ _ _ Hup Hq).
Qed.

Lemma heard_loop {A} (f : A -> M unit) (P : A -> closure -> Prop) l : forall m,
  (forall k, refreshes k m = false) ->
  (forall a m, a ∈ l -> (forall k, refreshes k m = false) ->
     exists m', f a m = Ok tt m' /\ heard (P a) 1 m m') ->
  exists m', for_each f l m = Ok tt m'
             /\ heard (fun cb => exists a, a ∈ l /\ P a cb) (length l) m m'.
Proof.
  induction l as [|a rest IH]; intros m Hm Hf.
  - eexists. split; [reflexivity|]. apply heard_same; reflexivity.
  - cbn [for_each]. unfold bind.
    destruct (Hf a m ltac:(left) Hm) as (m1 & -> & H1).
    destruct (IH m1 (heard_calm _ _ _ _ H1 Hm)) as (m2 & -> & H2).
    { intros a' m0 Hin. apply Hf. right. exact Hin. }
    eexists. split; [reflexivity|].
    apply (heard_trans _ 1 (length rest) m m1 m2).
    + eapply heard_mono; [| |exact H1]; [|lia].
      intros cb Hcb. exists a. split; [left | exact Hcb].
    + eapply heard_mono; [| |exact H2]; [|lia].
      intros cb (a' & Hin & Hcb). exists a'. split; [right; exact Hin | exact Hcb].
Qed.

Lemma notify_upstream_heard keypath m :
  (forall k, refreshes k m = false) ->
  Forall client_observer (bucket keypath m) ->
  exists m', notify_upstream call keypath m = Ok tt m'
             /\ heard (fun cb => exists o, o ∈ bucket keypath m /\ callback o = cb)
                  (length (bucket keypath m)) m m'.
Proof.
  intros Hm Hcl. unfold notify_upstream. unfold bind at 1. unfold gets at 1.
  unfold bucket in *. destruct (_observers m !! keypath) as [l|] eqn:E; simpl in *.
  - destruct (heard_loop
                (fun o =>
                   if String.eqb (observedKeypath o) (originalKeypath o)
                   then let! value := get call keypath in
                        deliver call (callback o) value value
                   else ret tt)
                (fun o cb => callback o = cb) (rev l) m Hm) as (m' & Hrun & Hh).
    + intros o m0 Hin Hm0.
      destruct (String.eqb (observedKeypath o) (originalKeypath o)).
      * unfold bind. rewrite get_no_refresh by apply Hm0.
        assert (Ho : client_observer o).
        { rewrite Forall_forall in Hcl. apply Hcl.
          apply list_elem_of_In. apply in_rev. apply list_elem_of_In. exact Hin. }
        destruct Ho as [n Hn]. rewrite Hn. apply deliver_heard.
      * eexists. split; [reflexivity|].
        eapply heard_mono; [| |apply heard_same; reflexivity]; [|lia].
        intros cb H. exact H.
    + exists m'. split; [exact Hrun|].
      eapply heard_mono; [| |exact Hh]; [|rewrite length_rev; lia].
      intros cb (o & Hin & Hcb). exists o. split; [|exact Hcb].
      apply list_elem_of_In. apply in_rev. apply list_elem_of_In. exact Hin.
  - eexists. split; [reflexivity|].
    eapply heard_mono; [| |apply heard_same; reflexivity]; [|lia].
    intros cb H. exact H.
Qed.

Lemma heard_bucket P n m m' k : heard P n m m' -> bucket k m' = bucket k m.
Proof. intros (_ & H & _). unfold bucket. rewrite H. reflexivity. Qed.

Lemma audience_same m m' l :
  (forall k, bucket k m' = bucket k m) ->
  sum_list_with (fun k => length (bucket k m')) l
  = sum_list_with (fun k => length (bucket k m)) l.
Proof.
  intros H. induction l as [|k rest IH]; [reflexivity|].
  simpl. rewrite H, IH. reflexivity.
Qed.

Lemma notify_upstream_loop l : forall m,
  (forall k, refreshes k m = false) ->
  (forall k, k ∈ l -> Forall client_observer (bucket k m)) ->
  exists m', for_each (notify_upstream call) l m = Ok tt m'
             /\ heard (fun cb => exists k o, k ∈ l /\ o ∈ bucket k m /\ callback o = cb)
                  (sum_list_with (fun k => length (bucket k m)) l) m m'.
Proof.
  induction l as [|k rest IH]; intros m Hm Hcl.
  - eexists. split; [reflexivity|]. apply heard_same; reflexivity.
  - cbn [for_each sum_list_with]. unfold bind.
    destruct (notify_upstream_heard k m Hm (Hcl k ltac:(left))) as (m1 & -> & H1).
    destruct (IH m1 (heard_calm _ _ _ _ H1 Hm)) as (m2 & -> & H2).
    { intros k' Hin. rewrite (heard_bucket _ _ _ _ k' H1). apply Hcl. right. exact Hin. }
    eexists. split; [reflexivity|].
    eapply heard_trans.
    + eapply heard_mono; [| |exact H1]; [|lia].
      intros cb (o & Hin & Hcb). exists k, o. split; [left | split; assumption].
    + eapply heard_mono; [| |exact H2].
      * intros cb (k' & o & Hin & Ho & Hcb). exists k', o.
        rewrite (heard_bucket _ _ _ _ k' H1) in Ho.
        split; [right; exact Hin | split; assumption].
      * apply Nat.eq_le_incl. apply audience_same.
        intros k'. apply (heard_bucket _ _ _ _ k' H1).
Qed.

(** [_notifyObservers] where clients observe only and reading recomputes
    nothing. *)
Lemma notifyObservers_heard keypath x force m :
  (forall k, refreshes k m = false) ->
  (forall k o, o ∈ bucket k m -> client_observer o) ->
  exists m', _notifyObservers call keypath x force m = Ok tt m'
             /\ heard (listening keypath m) (audience keypath m) m m'.
Proof.
  intros Hm Hcl. unfold _notifyObservers. unfold bind at 1. unfold gets at 1.
  fold (bucket keypath m).
  destruct (heard_loop (notify_observer call keypath x force)
              (fun o cb => callback o = cb) (bucket keypath m) m Hm)
    as (m1 & H1 & Hh1).
  { intros o m0 Hin Hm0. apply notify_observer_heard; [exact Hm0|].
    apply (Hcl keypath o Hin). }
  unfold bind. rewrite H1.
  destruct (notify_upstream_loop (upstream_keypaths keypath) m1
              (heard_calm _ _ _ _ Hh1 Hm)) as (m2 & H2 & Hh2).
  { intros k _. apply Forall_forall. intros o Ho.
    rewrite (heard_bucket _ _ _ _ k Hh1) in Ho. apply (Hcl k o Ho). }
  exists m2. split; [exact H2|]. unfold audience.
  eapply heard_trans.
  - eapply heard_mono; [| |exact Hh1]; [|lia].
    intros cb (o & Hin & Hcb). exists keypath, o. auto.
  - eapply heard_mono; [| |exact Hh2].
    + intros cb (k & o & Hin & Ho & Hcb). exists k, o.
      rewrite (heard_bucket _ _ _ _ k Hh1) in Ho. auto.
    + apply Nat.eq_le_incl. apply audience_same.
      intros k'. apply (heard_bucket _ _ _ _ k' Hh1).
Qed.

Lemma inert_clients m k o : inert m -> o ∈ bucket k m -> client_observer o.
Proof.
  intros [_ Hobs] Hin. unfold bucket in Hin.
  destruct (_observers m !! k) as [l|] eqn:E; [|inversion Hin].
  pose proof (Hobs k l E) as Hall. rewrite Forall_forall in Hall. apply Hall, Hin.
Qed.

(** [set] on an instance without computed values whose observers are
    clients': the write, then what [_notifyObservers] delivers. *)
Lemma set_keypath_heard keypath x silent force m d :
  inert m ->
  assign (_data m) (splitKeypath keypath) x = Some d ->
  exists m',
    set_keypath call keypath x silent force m = Ok RThis m'
    /\ inert m'
    /\ heard (listening (standardise keypath) m)
         (audience (standardise keypath) m)
         (set_data d (set_referToCache false m)) m'.
Proof.
  intros Hm Hd. unfold set_keypath, bind, gets, modify.
  pose proof Hm as [Hc Ho]. rewrite Hc, lookup_empty. unfold ret at 1.
  rewrite get_no_refresh
    by (unfold refreshes; simpl; rewrite andb_false_r; reflexivity).
  change (_data (set_referToCache false (set_referToCache true m)))
    with (_data m).
  rewrite Hd. unfold ret.
  set (m1 := set_data d (set_referToCache false (set_referToCache true m))).
  change (set_data d (set_referToCache false m)) with m1.
  assert (Hm1 : inert m1) by (split; assumption).
  fold (standardise keypath).
  destruct (negb silent && (force || negb (isEqual _ x))).
  - destruct (notifyObservers_heard (standardise keypath) x force m1)
      as (m2 & -> & Hh).
    + intros k. apply refreshes_inert. exact Hm1.
    + intros k o Hin. apply (inert_clients m1 k o Hm1 Hin).
    + exists m2. split; [reflexivity|].
      split; [|exact Hh].
      destruct Hh as (_ & Q2 & Q3 & _). split; [rewrite Q3; exact Hc|].
      rewrite Q2. exact Ho.
  - exists m1. split; [reflexivity|]. split; [exact Hm1|].
    eapply heard_mono; [| |apply heard_same; reflexivity]; [|lia].
    intros cb H. exact H.
Qed.

End Heard.

(** X22. On an instance without computed values, outside a batch, a [set]
    along a writable path returns and calls at most as many callbacks as
    there are observers registered under the (standardised) keypath and
    above it; each callback called is one of theirs, and sees the tree with
    the write applied.  Nothing is queued.  The keypath is an ordinary one,
    and the tree and the value share no node. *)
Theorem set_tells_listeners call keypath x silent force m :
  inert m -> queueing m = false ->
  ordinary keypath -> unshared [_data m; x] ->
  writable (_data m) (splitKeypath keypath) = true ->
  exists m' new,
    set_keypath call keypath x silent force m = Ok RThis m'
    /\ log m' = log m ++ new /\ _queue m' = _queue m
    /\ length new <= audience (standardise keypath) m
    /\ Forall (fun e =>
         listening (standardise keypath) m (Client (ev_callback e))
         /\ ev_data e = _data m') new.
Proof.
  intros Hm Hq _ _ Hw.
  destruct (proj1 (assign_writable _ _ x) Hw) as [d Hd].
  destruct (set_keypath_heard call keypath x silent force m d Hm Hd)
    as (m' & Hrun & _ & (A1 & _ & _ & _ & _ & A6)).
  simpl queueing in A6. rewrite Hq in A6.
  destruct A6 as (Q & new & L & Len & F).
  exists m', new. split; [exact Hrun|]. split; [exact L|]. split; [exact Q|].
  split; [exact Len|].
  eapply Forall_impl; [exact F|]. intros e [H1 H2]. split; [exact H1|].
  rewrite A1. exact H2.
Qed.

Lemma set_tells_listeners_witness :
  exists m' new,
    set_keypath (setter 0) "foo" (VNum 2) false false foo_model = Ok RThis m'
    /\ log m' = log foo_model ++ new /\ _queue m' = _queue foo_model
    /\ length new <= audience (standardise "foo") foo_model
    /\ Forall (fun e =>
         listening (standardise "foo") foo_model (Client (ev_callback e))
         /\ ev_data e = _data m') new.
Proof.
  apply (set_tells_listeners (setter 0) "foo" (VNum 2) false false foo_model).
  - split; [reflexivity|].
    apply (bool_decide_eq_true_1
             (map_Forall (fun _ l => Forall client_observer l)
                (_observers foo_model))).
    vm_compute. reflexivity.
  - reflexivity.
  - vm_compute. reflexivity.
  - apply NoDup_singleton.
  - reflexivity.
Defined.

Section Batch.

Variable call : string -> M unit.

Lemma listening_same keypath m m' cb :
  _observers m' = _observers m ->
  listening keypath m' cb <-> listening keypath m cb.
Proof.
  intros Ho. unfold listening, bucket. rewrite Ho. reflexivity.
Qed.

Lemma audience_of_same keypath m m' :
  _observers m' = _observers m -> audience keypath m' = audience keypath m.
Proof. intros Ho. unfold audience, bucket. rewrite Ho. reflexivity. Qed.

(** The writes of a batch: callbacks are queued, none is called. *)
Lemma batch_writes silent items : forall m d,
  inert m -> queueing m = true ->
  assign_all (_data m) items = Some d ->
  exists m',
    for_each (fun kv => set_keypath call kv.1 kv.2 silent false ;; ret tt) items m
    = Ok tt m'
    /\ inert m' /\ _data m' = d /\ _observers m' = _observers m
    /\ queueing m' = true /\ log m' = log m
    /\ Forall (fun item =>
         (exists kv, kv ∈ items /\ listening (standardise kv.1) m (c item))
         \/ item ∈ _queue m) (_queue m')
    /\ (NoDup (map c (_queue m)) -> NoDup (map c (_queue m')))
    /\ length (_queue m')
       <= length (_queue m)
          + sum_list_with (fun kv => audience (standardise kv.1) m) items.
Proof.
  induction items as [|kv rest IH]; intros m d Hm Hq Hd.
  - simpl in Hd. inversion Hd; subst. exists m. split; [reflexivity|].
    repeat (split; [assumption || reflexivity|]).
    split; [|split; [auto | simpl; lia]].
    apply Forall_forall. intros item Hin. right. exact Hin.
  - simpl in Hd. destruct (assign (_data m) (splitKeypath kv.1) kv.2) as [d1|] eqn:E;
      [|discriminate Hd].
    destruct (set_keypath_heard call kv.1 kv.2 silent false m d1 Hm E)
      as (m1 & Hrun & Hm1 & (A1 & A2 & A3 & A4 & A5 & A6)).
    simpl in A1, A2, A5, A6. rewrite Hq in A6, A5.
    destruct A6 as (L1 & F1 & N1 & Len1).
    destruct (IH m1 d Hm1 A5) as (m2 & Hloop & Hm2 & D2 & O2 & Q2 & L2 & F2 & N2 & Len2).
    { rewrite A1. exact Hd. }
    exists m2. split.
    { cbn [for_each]. unfold bind at 1. unfold bind at 1. rewrite Hrun.
      unfold ret at 1. cbv beta iota. exact Hloop. }
    split; [exact Hm2|]. split; [exact D2|]. split; [congruence|].
    split; [exact Q2|]. split; [congruence|].
    split; [|split].
    + rewrite Forall_forall in *. intros item Hin.
      destruct (F2 item Hin) as [(kv' & Hkv & Hl)|Hin1].
      * left. exists kv'. split; [right; exact Hkv|].
        apply (listening_same _ m m1 _ A2). exact Hl.
      * destruct (F1 item Hin1) as [Hl|Hin0]; [|right; exact Hin0].
        left. exists kv. split; [left | exact Hl].
    + auto.
    + cbn [sum_list_with].
      assert (Hsum : sum_list_with (fun kv => audience (standardise kv.1) m1) rest
                     = sum_list_with (fun kv => audience (standardise kv.1) m) rest).
      { clear -A2. induction rest as [|kv' rest IH]; [reflexivity|].
        simpl. rewrite (audience_of_same _ m m1 A2), IH. reflexivity. }
      rewrite Hsum in Len2. simpl in Len1. lia.
Qed.

Lemma calls_of_clients d q :
  Forall client_item q ->
  map (fun e => Client (ev_callback e)) (calls_of d q) = map c q
  /\ Forall (fun e => ev_data e = d) (calls_of d q).
Proof.
  induction q as [|item rest IH]; intros Hall; [split; [reflexivity | constructor]|].
  inversion Hall as [|? ? [n Hn] Hrest]; subst.
  destruct (IH Hrest) as [IH1 IH2].
  unfold calls_of in *. simpl. unfold call_of at 1. unfold call_of at 2.
  rewrite Hn. simpl. rewrite IH1. split; [reflexivity|].
  constructor; [reflexivity | exact IH2].
Qed.

End Batch.

(** X23. A batch [set] on an instance without computed values and with an
    empty queue, all of whose writes succeed one after the other, returns,
    given a budget of at least the number of observers registered under the
    keypaths written and above them: the tree is the result of the writes,
    the queue is empty and queueing is off again; no callback is called
    twice, every callback called belongs to an observer registered under one
    of the keypaths or above it, and all of them see the final tree.  The
    keypaths are ordinary ones, and the tree and the values share no
    node. *)
Theorem batch_once call rounds items silent m d :
  inert m -> _queue m = [] ->
  Forall (fun kv => ordinary kv.1) items ->
  unshared (_data m :: map snd items) ->
  assign_all (_data m) items = Some d ->
  sum_list_with (fun kv => audience (standardise kv.1) m) items <= rounds ->
  exists m' new,
    set_batch call rounds items silent m = Ok RThis m'
    /\ _data m' = d /\ _queue m' = [] /\ queueing m' = false
    /\ log m' = log m ++ new
    /\ NoDup (map ev_callback new)
    /\ Forall (fun e =>
         ev_data e = d
         /\ exists kv, kv ∈ items
              /\ listening (standardise kv.1) m (Client (ev_callback e))) new.
Proof.
  intros Hm Hq _ _ Hd Hrounds.
  set (m0 := set_queueing true m).
  assert (Hm0 : inert m0) by exact Hm.
  destruct (batch_writes call silent items m0 d Hm0 eq_refl Hd)
    as (m1 & Hloop & Hm1 & D1 & O1 & Q1 & L1 & F1 & N1 & Len1).
  change (_queue m0) with (_queue m) in F1, N1, Len1. rewrite Hq in F1, N1, Len1.
  assert (Hitems : Forall (fun item =>
            exists kv, kv ∈ items /\ listening (standardise kv.1) m (c item))
            (_queue m1)).
  { eapply Forall_impl; [exact F1|]. intros item [H|H]; [exact H | inversion H]. }
  assert (Hclients : Forall client_item (_queue m1)).
  { eapply Forall_impl; [exact Hitems|].
    intros item (kv & _ & (k & o & _ & Ho & Hcb)).
    destruct (inert_clients m k o Hm Ho) as [n Hn]. exists n. congruence. }
  assert (Hlen : length (_queue m1) <= rounds).
  { simpl in Len1.
    assert (Hsum : sum_list_with (fun kv => audience (standardise kv.1) m0) items
              = sum_list_with (fun kv => audience (standardise kv.1) m) items)
      by reflexivity.
    lia. }
  destruct (calls_of_clients (_data m1) (_queue m1) Hclients) as [Hcalls Hdata].
  exists (set_queueing false
            (set_log (log m1 ++ calls_of (_data m1) (_queue m1)) (set_queue [] m1))),
         (calls_of (_data m1) (_queue m1)).
  split.
  { unfold set_batch. unfold bind at 1. unfold modify at 1. cbv beta iota.
    fold m0. unfold bind at 1. rewrite Hloop. cbv beta iota.
    unfold bind at 1. rewrite (dispatchQueue_clients call rounds m1 Hclients Hlen).
    cbv beta iota. reflexivity. }
  split; [exact D1|]. split; [reflexivity|]. split; [reflexivity|].
  split; [simpl; rewrite L1; reflexivity|].
  split.
  - apply (NoDup_fmap_1 Client).
    assert (E : Client <$> map ev_callback (calls_of (_data m1) (_queue m1))
                = map c (_queue m1)).
    { rewrite <- Hcalls. rewrite <- list_fmap_compose. reflexivity. }
    rewrite E. apply N1. constructor.
  - apply Forall_forall. intros e He. split.
    + rewrite Forall_forall in Hdata. rewrite <- D1. apply Hdata, He.
    + assert (Hin : Client (ev_callback e) ∈ map c (_queue m1)).
      { rewrite <- Hcalls. apply list_elem_of_fmap. exists e. auto. }
      apply list_elem_of_fmap in Hin as (item & Hc & Hitem).
      rewrite Forall_forall in Hitems. destruct (Hitems item Hitem) as (kv & Hkv & Hl).
      exists kv. split; [exact Hkv|]. rewrite Hc. exact Hl.
Qed.

Lemma batch_once_witness :
  exists m' new,
    set_batch (setter 0) 2 [("foo", VNum 2); ("baz.x", VNum 1); ("baz.y", VNum 3)]
      false foo_model = Ok RThis m'
    /\ _data m' = VObj Hash [("foo", VNum 2);
                             ("baz", VObj Hash [("x", VNum 1); ("y", VNum 3)])]
    /\ _queue m' = [] /\ queueing m' = false
    /\ log m' = log foo_model ++ new
    /\ NoDup (map ev_callback new)
    /\ Forall (fun e =>
         ev_data e = VObj Hash [("foo", VNum 2);
                                ("baz", VObj Hash [("x", VNum 1); ("y", VNum 3)])]
         /\ exists kv, kv ∈ [("foo", VNum 2); ("baz.x", VNum 1); ("baz.y", VNum 3)]
              /\ listening (standardise kv.1) foo_model (Client (ev_callback e)))
         new.
Proof.
  apply (batch_once (setter 0) 2
           [("foo", VNum 2); ("baz.x", VNum 1); ("baz.y", VNum 3)] false foo_model).
  - split; [reflexivity|].
    apply (bool_decide_eq_true_1
             (map_Forall (fun _ l => Forall client_observer l)
                (_observers foo_model))).
    vm_compute. reflexivity.
  - reflexivity.
  - repeat (apply Forall_cons_2; [vm_compute; reflexivity|]). apply Forall_nil_2.
  - apply NoDup_singleton.
  - reflexivity.
  - vm_compute. lia.
Defined.

(* ===================================================================== *)
(** ** A cancelled group hears nothing *)
(* ===================================================================== *)

Section Silenced.

Lemma unobserve_loop_queueing g l : forall m,
  exists m',
    for_each (fun o =>
      modify (update_group g (fun grp => with_members (tail (members grp)) grp)) ;;
      unobserve_one o) l m = Ok tt m'
    /\ queueing m' = queueing m.
Proof.
  induction l as [|o rest IH]; intros m.
  - exists m. split; reflexivity.
  - cbn [for_each]. unfold bind at 1. unfold bind at 1. unfold modify at 1.
    cbv beta iota. set (m0 := update_group g _ m).
    assert (Hone : exists m1, unobserve_one o m0 = Ok tt m1
                              /\ queueing m1 = queueing m0).
    { unfold unobserve_one, modify. eexists. split; [reflexivity|].
      destruct (_observers m0 !! standardise (observedKeypath o)) as [l|];
        [|reflexivity].
      destruct (bool_decide (o ∈ l)); [|reflexivity].
      destruct (remove_first o l); reflexivity. }
    destruct Hone as (m1 & -> & A).
    destruct (IH m1) as (m' & -> & B).
    exists m'. split; [reflexivity|]. rewrite B, A. reflexivity.
Qed.

Lemma unobserve_queueing g m m' :
  unobserve (Some g) m = Ok tt m' -> queueing m' = queueing m.
Proof.
  unfold unobserve. unfold bind at 1. unfold gets. intros H.
  destruct (unobserve_loop_queueing g
              (match groups m !! g with Some grp => members grp | None => [] end) m)
    as (m1 & H1 & Hq).
  rewrite H1 in H. inversion H; subst. exact Hq.
Qed.

Lemma shrinks_inert m m' :
  shrinks m m' -> _computed m' = _computed m -> inert m -> inert m'.
Proof.
  intros Hs Hc [H1 H2]. split; [rewrite Hc; exact H1|].
  intros k l' Hl'. destruct (Hs k l' Hl') as (l & Hl & Hsub).
  pose proof (H2 k l Hl) as Hall. rewrite Forall_forall in *.
  intros o Ho. apply Hall. apply (elem_of_sublist _ _ _ Ho Hsub).
Qed.

End Silenced.

(** X24. Once a group is cancelled its observers hear of no write: on an
    instance without computed values, outside a batch, every callback that a
    [set] after [unobserve] calls belongs to an observer that was registered
    before and is of another group.  The keypath written and those of the
    observers cancelled are ordinary ones. *)
Theorem cancelled_group_silent call g keypath x silent force m :
  inert m -> distinct_observers m -> well_filed m -> queueing m = false ->
  ordinary keypath ->
  Forall (fun o => ordinary (observedKeypath o)) (members_of g m) ->
  writable (_data m) (splitKeypath keypath) = true ->
  exists m1 m2 new,
    unobserve (Some g) m = Ok tt m1
    /\ set_keypath call keypath x silent force m1 = Ok RThis m2
    /\ log m2 = log m ++ new
    /\ Forall (fun e => exists k o,
         o ∈ bucket k m /\ callback o = Client (ev_callback e) /\ group o <> g)
         new.
Proof.
  intros Hm Hd Hwf Hq _ _ Hw.
  destruct (unobserve_spec g m Hd) as (m1 & Hrun & Hs & Hu & (A1 & A2 & A3) & _).
  pose proof (unobserve_queueing g m m1 Hrun) as Hq1.
  pose proof (shrinks_inert m m1 Hs A2 Hm) as Hm1.
  rewrite <- A1 in Hw.
  destruct (proj1 (assign_writable _ _ x) Hw) as [d Hassign].
  destruct (set_keypath_heard call keypath x silent force m1 d Hm1 Hassign)
    as (m2 & Hset & _ & (_ & _ & _ & _ & _ & B6)).
  simpl queueing in B6. rewrite Hq1, Hq in B6.
  destruct B6 as (_ & new & L & _ & F).
  exists m1, m2, new. split; [exact Hrun|]. split; [exact Hset|].
  split; [rewrite L; simpl; rewrite A3; reflexivity|].
  eapply Forall_impl; [exact F|]. intros e [(k & o & _ & Ho & Hcb) _].
  exists k, o. unfold bucket in Ho.
  destruct (_observers m1 !! k) as [l'|] eqn:E1; [|inversion Ho]. simpl in Ho.
  destruct (Hs k l' E1) as (l & El & Hsub).
  assert (Hin : o ∈ bucket k m).
  { unfold bucket. rewrite El. simpl. apply (elem_of_sublist _ _ _ Ho Hsub). }
  split; [exact Hin|]. split; [exact Hcb|]. intros Hg.
  pose proof (Hwf k l El) as Hall. rewrite Forall_forall in Hall.
  destruct (Hall o (elem_of_sublist _ _ _ Ho Hsub)) as [Hk Hmem].
  rewrite Hg in Hmem. apply (Hu o Hmem l'); [rewrite Hk; exact E1 | exact Ho].
Qed.

Lemma cancelled_group_silent_witness :
  (exists m1 m2 new,
     unobserve (Some 0) pair_model = Ok tt m1
     /\ set_keypath (setter 0) "foo" (VNum 2) false false m1 = Ok RThis m2
     /\ log m2 = log pair_model ++ new
     /\ Forall (fun e => exists k o,
          o ∈ bucket k pair_model /\ callback o = Client (ev_callback e)
          /\ group o <> 0) new)
  /\ log (state_of ((unobserve (Some 0) ;;
                     set_keypath (setter 0) "foo" (VNum 2) false false) pair_model))
     = [{| ev_callback := 1; ev_value := VNum 2; ev_previous := VNum 1;
           ev_data := VObj Hash [("foo", VNum 2)] |}].
Proof.
  split; [|vm_compute; reflexivity].
  apply (cancelled_group_silent (setter 0) 0 "foo" (VNum 2) false false pair_model).
  - split; [reflexivity|].
    apply (bool_decide_eq_true_1
             (map_Forall (fun _ l => Forall client_observer l)
                (_observers pair_model))).
    vm_compute. reflexivity.
  - apply (bool_decide_eq_true_1 (distinct_observers pair_model)).
    vm_compute. reflexivity.
  - apply (bool_decide_eq_true_1 (well_filed pair_model)).
    vm_compute. reflexivity.
  - reflexivity.
  - vm_compute. reflexivity.
  - repeat (apply Forall_cons_2; [vm_compute; reflexivity|]). apply Forall_nil_2.
  - reflexivity.
Defined.

(* ===================================================================== *)
(** ** Observing beside a computed value *)
(* ===================================================================== *)

Section ObserveFrame.

Variable call : string -> M unit.

Lemma previousValue_members g g' (l : observerGroup -> list observer) m :
  group_previousValue g
    (update_group g' (fun grp => with_members (l grp) grp) m)
  = group_previousValue g m.
Proof.
  unfold group_previousValue, update_group. simpl.
  destruct (decide (g = g')) as [->|Hne].
  - rewrite list_lookup_alter_eq. destruct (groups m !! g'); reflexivity.
  - rewrite list_lookup_alter_ne by congruence. reflexivity.
Qed.

(** The loop of [observe] leaves alone what the groups remember. *)
Lemma register_loop_frame orig cb gid l : forall m,
  exists m',
    for_each (register orig cb gid) l m = Ok tt m'
    /\ queueing m' = queueing m /\ _computed m' = _computed m
    /\ _referToCache m' = _referToCache m /\ _data m' = _data m
    /\ forall g, group_previousValue g m' = group_previousValue g m.
Proof.
  induction l as [|k rest IH]; intros m.
  - exists m. repeat split.
  - cbn [for_each]. unfold bind at 1. unfold register at 1. unfold modify at 1.
    cbv beta iota.
    match goal with |- context [for_each _ rest ?m0] => set (m1 := m0) end.
    destruct (IH m1) as (m' & -> & Hq & Hc & Hr & Hd & Hg).
    exists m'. split; [reflexivity|].
    split; [rewrite Hq; reflexivity|]. split; [rewrite Hc; reflexivity|].
    split; [rewrite Hr; reflexivity|]. split; [rewrite Hd; reflexivity|].
    intros g. rewrite Hg. unfold m1.
    rewrite (previousValue_members g gid (fun grp => members grp ++ [_])).
    reflexivity.
Qed.

(** [observe] by a client leaves alone what the older groups remember. *)
Lemma observe_frame keypath n initialize m :
  keypath <> "" ->
  refreshes (standardise keypath) m = false ->
  exists m',
    observe call keypath (Client n) initialize m = Ok (Some (length (groups m))) m'
    /\ queueing m' = queueing m
    /\ forall g, g < length (groups m) ->
         group_previousValue g m' = group_previousValue g m.
Proof.
  intros Hne Hrf. unfold observe.
  destruct (String.eqb_spec keypath "") as [|_]; [congruence|].
  unfold bind at 1. unfold gets at 1. cbv beta iota.
  unfold bind at 1. unfold modify at 1. cbv beta iota.
  set (gid := length (groups m)).
  set (m0 := set_groups _ m).
  assert (H0 : forall g, g < gid ->
            group_previousValue g m0 = group_previousValue g m).
  { intros g Hg. unfold group_previousValue, m0. simpl.
    rewrite lookup_app_l by exact Hg. reflexivity. }
  destruct (register_loop_frame (standardise keypath) (Client n) gid
              (standardise keypath :: upstream_keypaths (standardise keypath)) m0)
    as (m1 & Hloop & Hq1 & Hc1 & Hr1 & Hd1 & Hg1).
  unfold bind at 1. rewrite Hloop. cbv beta iota.
  assert (Hrf1 : refreshes (standardise keypath) m1 = false).
  { unfold refreshes in *. rewrite Hr1, Hc1. exact Hrf. }
  assert (Hend : forall m2,
            queueing m2 = queueing m1 -> _computed m2 = _computed m1 ->
            _referToCache m2 = _referToCache m1 ->
            (forall g, group_previousValue g m2 = group_previousValue g m1) ->
            exists m',
              (let! value := get call (standardise keypath) in
               modify (update_group gid (with_previousValue value)) ;;
               ret (Some gid)) m2 = Ok (Some gid) m'
              /\ queueing m' = queueing m
              /\ forall g, g < gid ->
                   group_previousValue g m' = group_previousValue g m).
  { intros m2 Hq2 Hc2 Hr2 Hg2. unfold bind at 1.
    rewrite get_no_refresh by (unfold refreshes in *; rewrite Hr2, Hc2; exact Hrf1).
    unfold bind, modify, ret. eexists. split; [reflexivity|].
    split; [simpl; rewrite Hq2, Hq1; reflexivity|].
    intros g Hg. rewrite previousValue_other by lia.
    rewrite Hg2, Hg1. apply H0, Hg. }
  destruct initialize.
  - unfold bind at 1. unfold bind at 1. rewrite get_no_refresh by exact Hrf1.
    cbn [invoke]. unfold modify at 1. cbv beta iota.
    apply Hend; reflexivity.
  - unfold bind at 1. unfold ret at 1. cbv beta iota.
    apply Hend; reflexivity.
Qed.

End ObserveFrame.

(** X26. Registering a client's observer, on any ordinary keypath, keeps a
    computed value tracked: [observe] returns a group and leaves the tree
    alone, and writes to root keys go on updating the computed value. *)
Theorem observe_keeps_tracked call id f ts keypath n initialize m :
  tracked id f ts m -> keypath <> "" ->
  ordinary keypath -> Forall ordinary (id :: ts) ->
  exists g m',
    observe call keypath (Client n) initialize m = Ok (Some g) m'
    /\ tracked id f ts m' /\ _data m' = _data m.
Proof.
  intros (Hw & Hpres & Hsync & Hfol) Hne _ _.
  pose proof (wired_calm id f ts m Hw (standardise keypath)) as Hrf.
  destruct (observe_spec call keypath (Client n) initialize m Hne Hrf)
    as (m' & Hrun & _ & _ & Hbk & Hd & Hc & _ & Hlen).
  { intros _. exists n. reflexivity. }
  destruct (observe_frame call keypath n initialize m Hne Hrf) as (m'' & Hrun' & Hq & Hg).
  rewrite Hrun in Hrun'. inversion Hrun'; subst m''. clear Hrun'.
  exists (length (groups m)), m'. split; [exact Hrun|]. split; [|exact Hd].
  set (gid := length (groups m)) in *.
  assert (Hmem : forall k o, o ∈ bucket k m' ->
            o ∈ bucket k m \/ (callback o = Client n /\ group o = gid)).
  { intros k o Ho. rewrite Hbk in Ho. apply elem_of_app in Ho as [Ho|Ho];
      [left; exact Ho|]. right.
    apply list_elem_of_filter in Ho as [_ Ho].
    apply list_elem_of_fmap in Ho as (k' & -> & _). split; reflexivity. }
  assert (Hold : forall k o, o ∈ bucket k m -> o ∈ bucket k m').
  { intros k o Ho. rewrite Hbk. apply elem_of_app. left. exact Ho. }
  assert (Hst : forall q, stored q m' = stored q m).
  { intros q. unfold stored. rewrite Hd. reflexivity. }
  pose proof Hw as (cv & kd & props & Hcv & Hother & Hf & Ht & Hcache & Hco & Hid
                    & Hts & Hnin & Hdata & Hqueue & Hreg).
  split; [|split; [|split]].
  - exists cv, kd, props. rewrite Hc, Hd, Hq.
    repeat (split; [assumption|]).
    intros k o Ho. destruct (Hmem k o Ho) as [Ho'|[Hcb _]];
      [|left; exists n; exact Hcb].
    destruct (Hreg k o Ho') as [Hcl|(Hk & Hcb & Horig & Hlt & Hpriv)];
      [left; exact Hcl|].
    right. split; [exact Hk|]. split; [exact Hcb|]. split; [exact Horig|].
    split; [rewrite Hlen; lia|].
    intros k' o' Ho'' Hgo. destruct (Hmem k' o' Ho'') as [Hin|[_ Hgid]].
    + apply (Hpriv k' o' Hin Hgo).
    + exfalso. fold gid in Hlt. lia.
  - intros t Ht'. destruct (Hpres t Ht') as (o & Ho & Hcb).
    exists o. split; [apply Hold, Ho | exact Hcb].
  - intros k o Ho Hcb. rewrite Hst. destruct (Hmem k o Ho) as [Ho'|[Hcb' _]];
      [|congruence].
    destruct (Hreg k o Ho') as [[c Hcl]|(_ & _ & _ & Hlt & _)]; [congruence|].
    rewrite (Hg _ Hlt). apply (Hsync k o Ho' Hcb).
  - unfold follows in *. rewrite Hst, Hfol. f_equal. apply map_ext_in.
    intros t _. symmetry. apply Hst.
Qed.

Lemma observe_keeps_tracked_witness :
  exists g m',
    observe (setter 0) "sum" (Client 7) true
      (state_of (compute (setter 1) "sum" sum_options
                   (Supermodel (VObj Hash [("x", VNum 1); ("y", VNum 2)]))))
    = Ok (Some g) m'
    /\ tracked "sum" add_numbers ["x"; "y"] m'
    /\ _data m'
       = _data (state_of (compute (setter 1) "sum" sum_options
                   (Supermodel (VObj Hash [("x", VNum 1); ("y", VNum 2)])))).
Proof.
  apply (observe_keeps_tracked (setter 0) "sum" add_numbers ["x"; "y"] "sum" 7 true).
  - destruct (compute_tracked "sum" add_numbers ["x"; "y"] 0 sum_options
                (Supermodel (VObj Hash [("x", VNum 1); ("y", VNum 2)]))
                Hash [("x", VNum 1); ("y", VNum 2)]) as (m' & Hrun & Htr & _);
      try reflexivity.
    + split; [reflexivity | apply map_Forall_empty].
    + apply map_Forall_empty.
    + split; [discriminate | split; reflexivity].
    + repeat constructor; discriminate.
    + apply (bool_decide_eq_true_1 ("sum" ∉ ["x"; "y"])). vm_compute. reflexivity.
    + rewrite Hrun. exact Htr.
  - discriminate.
  - vm_compute. reflexivity.
  - repeat (apply Forall_cons_2; [vm_compute; reflexivity|]). apply Forall_nil_2.
Defined.

(* ===================================================================== *)
(** ** The calls a write makes, one by one *)
(* ===================================================================== *)

Section Calls_made.

Lemma flat_map_same {A B} (f g : A -> list B) l :
  (forall a, a ∈ l -> f a = g a) -> flat_map f l = flat_map g l.
Proof.
  induction l as [|a rest IH]; intros H; [reflexivity|]. simpl.
  rewrite (H a) by left. rewrite IH; [reflexivity|].
  intros a' Ha'. apply H. right. exact Ha'.
Qed.

Variable call : string -> M unit.

(** What the notification loops leave alone when clients are called at
    once. *)
Lemma observer_call_same keypath x force m1 m2 m1' m2' o :
  groups m1' = groups m1 -> _data m2' = _data m2 ->
  observer_call keypath x force m1' m2' o = observer_call keypath x force m1 m2 o.
Proof.
  intros Hg Hd. unfold observer_call, group_previousValue, stored.
  rewrite Hg, Hd. reflexivity.
Qed.

Lemma notify_observer_log keypath x force o m :
  (forall k, refreshes k m = false) -> client_observer o -> queueing m = false ->
  exists m',
    notify_observer call keypath x force o m = Ok tt m'
    /\ quiet m m' /\ queueing m' = false
    /\ log m' = log m ++ observer_call keypath x force m m o
    /\ forall g, g <> group o ->
         group_previousValue g m' = group_previousValue g m.
Proof.
  intros Hm [n Hn] Hq. unfold notify_observer, observer_call.
  unfold bind at 1. unfold gets at 1. cbv beta iota.
  assert (Hget :
    (if String.eqb keypath (originalKeypath o) then ret x
     else get call (originalKeypath o)) m
    = Ok (if String.eqb keypath (originalKeypath o) then x
          else stored (originalKeypath o) m) m).
  { destruct (String.eqb keypath (originalKeypath o)); [reflexivity|].
    apply get_no_refresh. apply Hm. }
  unfold bind at 1. rewrite Hget. cbv beta iota.
  set (a := if String.eqb keypath (originalKeypath o) then x
            else stored (originalKeypath o) m).
  unfold bind at 1. unfold modify at 1. cbv beta iota.
  destruct (negb force && isEqual a (group_previousValue (group o) m)).
  - eexists. split; [reflexivity|]. split; [repeat split|]. split; [exact Hq|].
    split; [simpl; rewrite app_nil_r; reflexivity|].
    intros g Hg. apply previousValue_other. exact Hg.
  - unfold deliver. unfold bind at 1. unfold gets at 1.
    change (queueing (update_group (group o) (with_previousValue a) m))
      with (queueing m). rewrite Hq. cbv beta iota.
    rewrite Hn. cbn [invoke client_call]. unfold modify.
    eexists. split; [reflexivity|]. split; [repeat split|]. split; [exact Hq|].
    split; [reflexivity|].
    intros g Hg. apply (previousValue_other g (group o) a m Hg).
Qed.

Lemma refreshes_same k m m' :
  quiet m m' -> (forall k, refreshes k m = false) -> refreshes k m' = false.
Proof. intros Q H. rewrite (refreshes_quiet k m m' Q). apply H. Qed.

(** The first loop, over observers of distinct groups. *)
Lemma exact_pass_log keypath x force l : forall m,
  (forall k, refreshes k m = false) -> Forall client_observer l ->
  queueing m = false -> NoDup (map group l) ->
  exists m',
    for_each (notify_observer call keypath x force) l m = Ok tt m'
    /\ quiet m m' /\ queueing m' = false
    /\ log m' = log m ++ flat_map (observer_call keypath x force m m) l.
Proof.
  induction l as [|o rest IH]; intros m Hm Hcl Hq Hnd.
  - exists m. split; [reflexivity|]. split; [apply quiet_refl|].
    split; [exact Hq|]. simpl. rewrite app_nil_r. reflexivity.
  - inversion Hcl as [|? ? Ho Hrest]; subst.
    cbn [map] in Hnd. apply NoDup_cons in Hnd as [Hfresh Hnd].
    destruct (notify_observer_log keypath x force o m Hm Ho Hq)
      as (m1 & H1 & Q1 & Hq1 & L1 & G1).
    destruct (IH m1 (fun k => refreshes_same k m m1 Q1 Hm) Hrest Hq1 Hnd)
      as (m2 & H2 & Q2 & Hq2 & L2).
    exists m2. split; [cbn [for_each]; rewrite (bind_ok _ _ _ _ _ H1); exact H2|].
    split; [eapply quiet_trans; eassumption|]. split; [exact Hq2|].
    rewrite L2, L1. cbn [flat_map]. rewrite <- app_assoc. f_equal. f_equal.
    apply flat_map_same. intros o' Ho'.
    unfold observer_call, stored.
    destruct Q1 as (D1 & _).
    rewrite D1.
    assert (Hg : group_previousValue (group o') m1 = group_previousValue (group o') m).
    { apply G1. intros E. apply Hfresh. rewrite <- E.
      apply list_elem_of_fmap. exists o'. split; [reflexivity | exact Ho']. }
    rewrite Hg. reflexivity.
Qed.

(** The second loop for one keypath upstream. *)
Lemma upstream_inner_log keypath l : forall m,
  (forall k, refreshes k m = false) -> Forall client_observer l ->
  queueing m = false ->
  exists m',
    for_each (fun o =>
      if String.eqb (observedKeypath o) (originalKeypath o) then
        let! value := get call keypath in
        deliver call (callback o) value value
      else ret tt) l m = Ok tt m'
    /\ quiet m m' /\ queueing m' = false /\ groups m' = groups m
    /\ log m' = log m ++ flat_map (fun o =>
         if String.eqb (observedKeypath o) (originalKeypath o)
         then client_call (callback o) (stored keypath m) (stored keypath m)
                (_data m)
         else []) l.
Proof.
  induction l as [|o rest IH]; intros m Hm Hcl Hq.
  - exists m. split; [reflexivity|]. split; [apply quiet_refl|].
    split; [exact Hq|]. split; [reflexivity|]. simpl. rewrite app_nil_r. reflexivity.
  - inversion Hcl as [|? ? [n Hn] Hrest]; subst.
    assert (Hstep : exists m1,
      (if String.eqb (observedKeypath o) (originalKeypath o) then
         let! value := get call keypath in
         deliver call (callback o) value value
       else ret tt) m = Ok tt m1
      /\ quiet m m1 /\ queueing m1 = false /\ groups m1 = groups m
      /\ log m1 = log m ++
           (if String.eqb (observedKeypath o) (originalKeypath o)
            then client_call (callback o) (stored keypath m) (stored keypath m)
                   (_data m)
            else [])).
    { destruct (String.eqb (observedKeypath o) (originalKeypath o)).
      - unfold bind. rewrite get_no_refresh by apply Hm.
        unfold deliver, bind, gets. rewrite Hq, Hn. cbn [invoke client_call].
        unfold modify. eexists. split; [reflexivity|].
        split; [repeat split|]. split; [exact Hq|]. split; reflexivity.
      - exists m. split; [reflexivity|]. split; [apply quiet_refl|].
        split; [exact Hq|]. split; [reflexivity|]. rewrite app_nil_r. reflexivity. }
    destruct Hstep as (m1 & H1 & Q1 & Hq1 & G1 & L1).
    destruct (IH m1 (fun k => refreshes_same k m m1 Q1 Hm) Hrest Hq1)
      as (m2 & H2 & Q2 & Hq2 & G2 & L2).
    exists m2. split; [cbn [for_each]; rewrite (bind_ok _ _ _ _ _ H1); exact H2|].
    split; [eapply quiet_trans; eassumption|]. split; [exact Hq2|].
    split; [congruence|].
    rewrite L2, L1. cbn [flat_map]. rewrite <- app_assoc. f_equal. f_equal.
    destruct Q1 as (D1 & _). unfold stored. rewrite D1. reflexivity.
Qed.

Lemma upstream_calls_same m m' keypath :
  quiet m m' -> upstream_calls m' keypath = upstream_calls m keypath.
Proof.
  intros (D & O & _). unfold upstream_calls, bucket, stored. rewrite D, O.
  reflexivity.
Qed.

Lemma notify_upstream_log keypath m :
  (forall k, refreshes k m = false) ->
  Forall client_observer (bucket keypath m) -> queueing m = false ->
  exists m',
    notify_upstream call keypath m = Ok tt m'
    /\ quiet m m' /\ queueing m' = false /\ groups m' = groups m
    /\ log m' = log m ++ upstream_calls m keypath.
Proof.
  intros Hm Hcl Hq. unfold notify_upstream, upstream_calls.
  unfold bind at 1. unfold gets at 1. unfold bucket in *.
  destruct (_observers m !! keypath) as [l|]; simpl in *.
  - apply upstream_inner_log; [exact Hm | | exact Hq].
    apply Forall_rev. exact Hcl.
  - exists m. split; [reflexivity|]. split; [apply quiet_refl|].
    split; [exact Hq|]. split; [reflexivity|]. rewrite app_nil_r. reflexivity.
Qed.

Lemma upstream_pass_log l : forall m,
  (forall k, refreshes k m = false) ->
  (forall k o, o ∈ bucket k m -> client_observer o) -> queueing m = false ->
  exists m',
    for_each (notify_upstream call) l m = Ok tt m'
    /\ quiet m m' /\ queueing m' = false /\ groups m' = groups m
    /\ log m' = log m ++ flat_map (upstream_calls m) l.
Proof.
  induction l as [|k rest IH]; intros m Hm Hcl Hq.
  - exists m. split; [reflexivity|]. split; [apply quiet_refl|].
    split; [exact Hq|]. split; [reflexivity|]. simpl. rewrite app_nil_r. reflexivity.
  - destruct (notify_upstream_log k m Hm) as (m1 & H1 & Q1 & Hq1 & G1 & L1);
      [|exact Hq|].
    { apply Forall_forall. intros o Ho. apply (Hcl k o Ho). }
    destruct (IH m1 (fun k => refreshes_same k m m1 Q1 Hm)) as
      (m2 & H2 & Q2 & Hq2 & G2 & L2); [|exact Hq1|].
    { intros k' o Ho. apply (Hcl k' o). destruct Q1 as (_ & O1 & _).
      unfold bucket in *. rewrite <- O1. exact Ho. }
    exists m2. split; [cbn [for_each]; rewrite (bind_ok _ _ _ _ _ H1); exact H2|].
    split; [eapply quiet_trans; eassumption|]. split; [exact Hq2|].
    split; [congruence|].
    rewrite L2, L1. cbn [flat_map]. rewrite <- app_assoc. f_equal. f_equal.
    apply flat_map_ext. intros k'. apply upstream_calls_same. exact Q1.
Qed.

(** [_notifyObservers] call by call. *)
Lemma notifyObservers_log keypath x force m :
  (forall k, refreshes k m = false) ->
  (forall k o, o ∈ bucket k m -> client_observer o) -> queueing m = false ->
  NoDup (map group (bucket keypath m)) ->
  exists m',
    _notifyObservers call keypath x force m = Ok tt m'
    /\ quiet m m' /\ log m' = log m ++ notifications keypath x force m m.
Proof.
  intros Hm Hcl Hq Hnd. unfold _notifyObservers, notifications.
  unfold bind at 1. unfold gets at 1. fold (bucket keypath m).
  destruct (exact_pass_log keypath x force (bucket keypath m) m Hm)
    as (m1 & H1 & Q1 & Hq1 & L1); [|exact Hq|exact Hnd|].
  { apply Forall_forall. intros o Ho. apply (Hcl keypath o Ho). }
  unfold bind. rewrite H1.
  destruct (upstream_pass_log (upstream_keypaths keypath) m1
              (fun k => refreshes_same k m m1 Q1 Hm))
    as (m2 & H2 & Q2 & _ & _ & L2); [|exact Hq1|].
  { intros k o Ho. apply (Hcl k o). destruct Q1 as (_ & O1 & _).
    unfold bucket in *. rewrite <- O1. exact Ho. }
  exists m2. split; [exact H2|]. split; [eapply quiet_trans; eassumption|].
  rewrite L2, L1, <- app_assoc. f_equal. f_equal.
  apply flat_map_ext. intros k. apply upstream_calls_same. exact Q1.
Qed.

End Calls_made.

(** X27. On an instance without computed values, outside a batch, a [set]
    that succeeds makes exactly the calls of [notifications], in that order,
    if the value changed or [force] is set, and none otherwise: first the
    observers registered under the standardised keypath, in the order of
    their registration, each with the value now found at its own keypath
    and the value its group remembered, unless the two are equal and
    [force] is off; then, for each keypath above, from the nearest up, the
    observers of that very keypath, from the last registered to the first,
    with the value found there as both arguments.  Every callback sees the
    tree with the write applied.  The keypath written and those of the
    observers registered under it are ordinary ones, read without taking a
    character of a string; the groups of these observers remember
    primitives; and the tree and the value share no node. *)
Theorem set_calls_exactly call keypath x force m d :
  inert m -> queueing m = false ->
  assign (_data m) (splitKeypath keypath) x = Some d ->
  NoDup (map group (bucket (standardise keypath) m)) ->
  ordinary keypath -> unshared [_data m; x] ->
  Forall (fun o =>
    ordinary (originalKeypath o)
    /\ legible d (splitKeypath (originalKeypath o)) = true
    /\ container (group_previousValue (group o) m) = false)
    (bucket (standardise keypath) m) ->
  exists m',
    set_keypath call keypath x false force m = Ok RThis m'
    /\ _data m' = d
    /\ log m'
       = log m ++
         if force || negb (isEqual (stored keypath m) x)
         then notifications (standardise keypath) x force m (set_data d m)
         else [].
Proof.
  intros Hm Hq Hd Hnd _ _ _. unfold set_keypath, bind, gets, modify.
  pose proof Hm as [Hc Ho]. rewrite Hc, lookup_empty. unfold ret at 1.
  rewrite get_no_refresh
    by (unfold refreshes; simpl; rewrite andb_false_r; reflexivity).
  change (_data (set_referToCache false (set_referToCache true m)))
    with (_data m).
  rewrite Hd. unfold ret.
  set (m1 := set_data d (set_referToCache false (set_referToCache true m))).
  assert (Hm1 : inert m1) by (split; assumption).
  fold (standardise keypath).
  change (stored keypath (set_referToCache true m)) with (stored keypath m).
  change (negb false) with true. cbv beta iota.
  change (true && (force || negb (isEqual (stored keypath m) x)))
    with (force || negb (isEqual (stored keypath m) x)).
  destruct (force || negb (isEqual (stored keypath m) x)).
  - destruct (notifyObservers_log call (standardise keypath) x force m1)
      as (m2 & -> & (D2 & _) & L2).
    + intros k. apply refreshes_inert. exact Hm1.
    + intros k o Hin. apply (inert_clients m1 k o Hm1 Hin).
    + exact Hq.
    + exact Hnd.
    + exists m2. split; [reflexivity|]. split; [rewrite D2; reflexivity|].
      rewrite L2. reflexivity.
  - exists m1. split; [reflexivity|]. split; [reflexivity|].
    simpl. rewrite app_nil_r. reflexivity.
Qed.

Lemma set_calls_exactly_witness :
  exists m',
    set_keypath (setter 0) "a.b" (VNum 2) false false nested_model = Ok RThis m'
    /\ _data m' = VObj Hash [("a", VObj Hash [("b", VNum 2)])]
    /\ log m'
       = [{| ev_callback := 0; ev_value := VNum 2; ev_previous := VNum 1;
             ev_data := VObj Hash [("a", VObj Hash [("b", VNum 2)])] |};
          {| ev_callback := 1; ev_value := VObj Hash [("b", VNum 2)];
             ev_previous := VObj Hash [("b", VNum 2)];
             ev_data := VObj Hash [("a", VObj Hash [("b", VNum 2)])] |}].
Proof.
  apply (set_calls_exactly (setter 0) "a.b" (VNum 2) false nested_model
           (VObj Hash [("a", VObj Hash [("b", VNum 2)])])).
  - split; [reflexivity|].
    apply (bool_decide_eq_true_1
             (map_Forall (fun _ l => Forall client_observer l)
                (_observers nested_model))).
    vm_compute. reflexivity.
  - reflexivity.
  - reflexivity.
  - apply (bool_decide_eq_true_1
             (NoDup (map group (bucket (standardise "a.b") nested_model)))).
    vm_compute. reflexivity.
  - vm_compute. reflexivity.
  - apply NoDup_cons_2; [|apply NoDup_singleton].
    intros H. apply list_elem_of_singleton in H. discriminate H.
  - repeat (apply Forall_cons_2; [vm_compute; repeat split|]). apply Forall_nil_2.
Defined.
